(** * Stellar cartography: the extraction pipeline

    A shallow embedding of the two Node.js scripts of the data pipeline,
    [extract_data.js] (the index-driven asset router, with its helpers
    [is_valid_sqlite.js] and [pickle_to_json.js]) and
    [utils/extract_system_labels.js] (the three-stage label resolver),
    together with the properties of their behaviour.

    Conventions of the embedding.
    - JavaScript strings are sequences of code units; they are modelled by
      [string], whose characters are the code units 0..255.
    - JavaScript numbers are IEEE 754 doubles.  [number] holds the doubles
      the scripts compute, all of which come from [parseInt] or a length: an
      integral double, as its mathematical value, an infinity, or [NaN].  A
      parsed document may also hold a double that is not integral; it is the
      value [Frac].  The two zeros are one [Int 0]: no operation of the
      scripts tells them apart.
    - [undefined] is the [None] of an [option value].
    - An object is the list of its own properties in enumeration order.
    - A [TypeError] thrown by the engine is the [Thrown] of [result]. *)

From Stdlib Require Import ZArith List String Ascii Bool Lia Sorted.
From Stdlib Require Import DecimalString DecimalPos DecimalZ.
From Stdlib.Strings Require Import Byte.
Import ListNotations.

Set Warnings "-register-all".

Local Open Scope string_scope.
Local Open Scope Z_scope.

(** ** JavaScript values as produced by [JSON.parse] *)

Module Js.

Inductive number : Type :=
| Int (z : Z)
| Inf (negative : bool)
| NaN.

(** [Frac m e] is the double [m / 2^e], with [m] odd: a number that is not
    integral.  The scripts compare and test such a number and do nothing
    else with it. *)
Inductive value : Type :=
| Null
| Bool (b : bool)
| Num (n : number)
| Frac (m : Z) (e : positive)
| Str (s : string)
| Arr (items : list value)
| Obj (props : list (string * value)).

(** Outcome of an expression that may throw. *)
Inductive result (A : Type) : Type :=
| Ok (a : A)
| Thrown.

Arguments Ok {A} a.
Arguments Thrown {A}.

Definition bind {A B} (r : result A) (k : A -> result B) : result B :=
  match r with
  | Ok a => k a
  | Thrown => Thrown
  end.

Notation "x <- e ;; k" := (bind e (fun x => k))
  (at level 61, e at next level, right associativity).

Definition number_eqb (a b : number) : bool :=
  match a, b with
  | Int x, Int y => x =? y
  | Inf x, Inf y => Bool.eqb x y
  | NaN, NaN => true
  | _, _ => false
  end.

(** [ToBoolean]. *)
Definition truthy (v : value) : bool :=
  match v with
  | Null => false
  | Bool b => b
  | Num (Int z) => negb (z =? 0)
  | Num (Inf _) => true
  | Num NaN => false
  | Frac _ _ => true
  | Str s => negb (s =? "")%string
  | Arr _ => true
  | Obj _ => true
  end.

Definition truthy_opt (v : option value) : bool :=
  match v with
  | Some w => truthy w
  | None => false
  end.

(** [SameValueZero], the comparison of [Set] and [Map] keys.  Arrays and
    objects are compared by identity; every array or object that reaches a
    set comes from its own position of a parsed document, so two of them are
    never the same. *)
Definition same_value_zero (a b : value) : bool :=
  match a, b with
  | Null, Null => true
  | Bool x, Bool y => Bool.eqb x y
  | Num x, Num y => number_eqb x y
  | Frac m e, Frac m' e' => (m =? m') && (e =? e')%positive
  | Str x, Str y => (x =? y)%string
  | _, _ => false
  end.

(** [x === 'literal'] *)
Definition strict_eq_str (v : option value) (lit : string) : bool :=
  match v with
  | Some (Str s) => (s =? lit)%string
  | _ => false
  end.

(** *** [parseInt] and number-to-string conversion *)

Definition is_white (c : ascii) : bool :=
  let n := nat_of_ascii c in
  (((9 <=? n) && (n <=? 13)) || (n =? 32) || (n =? 160))%nat.

Fixpoint skip_white (s : string) : string :=
  match s with
  | String c r => if is_white c then skip_white r else s
  | EmptyString => s
  end.

Definition digit_val (radix : Z) (c : ascii) : option Z :=
  let n := Z.of_nat (nat_of_ascii c) in
  let d :=
    if (48 <=? n) && (n <=? 57) then Some (n - 48)
    else if (97 <=? n) && (n <=? 122) then Some (n - 87)
    else if (65 <=? n) && (n <=? 90) then Some (n - 55)
    else None in
  match d with
  | Some k => if k <? radix then Some k else None
  | None => None
  end.

(** The longest prefix of radix digits, as a number; [None] when empty. *)
Fixpoint read_digits (radix : Z) (s : string) (acc : option Z) : option Z :=
  match s with
  | String c r =>
      match digit_val radix c with
      | Some d =>
          read_digits radix r
            (Some (radix * match acc with Some a => a | None => 0 end + d))
      | None => acc
      end
  | EmptyString => acc
  end.

(** The double nearest to an integer, ties to the even significand; an
    integer of magnitude 2^1024 or more, once rounded, is an infinity. *)
Definition to_double (z : Z) : number :=
  let a := Z.abs z in
  if a <? 2 ^ 53 then Int z
  else
    let k := Z.log2 a - 52 in
    let q := Z.shiftr a k in
    let r := a - Z.shiftl q k in
    let half := Z.shiftl 1 (k - 1) in
    let q' := if (half <? r) || ((r =? half) && Z.odd q) then q + 1 else q in
    let m := Z.shiftl q' k in
    if 2 ^ 1024 <=? m then Inf (z <? 0)
    else Int (if z <? 0 then - m else m).

Definition parseInt (s : string) : number :=
  let s1 := skip_white s in
  let '(neg, s2) :=
    match s1 with
    | String "-" r => (true, r)
    | String "+" r => (false, r)
    | _ => (false, s1)
    end in
  let '(radix, s3) :=
    match s2 with
    | String "0" (String "x" r) => (16, r)
    | String "0" (String "X" r) => (16, r)
    | _ => (10, s2)
    end in
  match read_digits radix s3 None with
  | Some v => to_double (if neg then - v else v)
  | None => NaN
  end.

(** The decimal digits of an integer, with its sign. *)
Definition decimal_text (z : Z) : string := NilZero.string_of_int (Z.to_int z).

(** [Number::toString] prints the shortest run of digits, followed by
    zeros, that still reads as the number.  [nearest a p] is the multiple
    of [10^p] that reads as [a], if there is one: of the two around [a] the
    one that does, the closer when both do, and the even one when they are
    as close. *)
Definition nearest (a p : Z) : option Z :=
  let unit := 10 ^ p in
  let lo := (a / unit) * unit in
  let hi := lo + unit in
  let reads v := number_eqb (to_double v) (Int a) in
  match reads lo, reads hi with
  | true, true =>
      Some (if (a - lo <? hi - a) || ((a - lo =? hi - a) && Z.even (a / unit))
            then lo else hi)
  | true, false => Some lo
  | false, true => Some hi
  | false, false => None
  end.

(** The search from one digit up: the first number of digits for which
    there is such a multiple. *)
Fixpoint shortest_from (a p : Z) (fuel : nat) : Z :=
  match fuel with
  | O => a
  | S f =>
      if p <? 0 then a
      else match nearest a p with
           | Some v => v
           | None => shortest_from a (p - 1) f
           end
  end.

(** What is printed for [a], of magnitude 2^53 or more: seventeen digits
    are always enough. *)
Definition shortest (a : Z) : Z :=
  shortest_from a (Z.of_nat (String.length (decimal_text a)) - 1) 17.

(** A string without the zeros at its end. *)
Fixpoint trim (s : string) : string :=
  match s with
  | EmptyString => EmptyString
  | String c r =>
      match trim r with
      | EmptyString => if Ascii.eqb c "0" then EmptyString else String c EmptyString
      | t => String c t
      end
  end.

(** The exponent form of a run of digits: the first digit, a point and the
    digits after it if one of them is not zero, [e+] and the exponent. *)
Definition exponent_text (t : string) : string :=
  match t with
  | String d r =>
      String d
        (match trim r with
         | EmptyString => EmptyString
         | f => String "." f
         end
         ++ "e+" ++ decimal_text (Z.of_nat (String.length r)))
  | EmptyString => t
  end.

(** [Number::toString].  Below 2^53 every integer is a double and its own
    digits are the shortest that read as it.  The exponent form is used
    when the digits printed have more than twenty-one places, which is from
    10^21 on, since 10^21 is a double. *)
Definition ToString (n : number) : string :=
  match n with
  | Int z =>
      let a := Z.abs z in
      if a <? 2 ^ 53 then decimal_text z
      else
        (if z <? 0 then "-" else "")
        ++ (if a <? 10 ^ 21 then decimal_text (shortest a)
            else exponent_text (decimal_text (shortest a)))
  | Inf negative => if negative then "-Infinity" else "Infinity"
  | NaN => "NaN"
  end.

(** A number that is a double: an integer is one when it is its own
    nearest double. *)
Definition is_double (n : number) : Prop :=
  match n with
  | Int z => to_double z = Int z
  | _ => True
  end.

(** *** Property access *)

Fixpoint assoc (k : string) (props : list (string * value)) : option value :=
  match props with
  | [] => None
  | (k', v) :: rest => if (k' =? k)%string then Some v else assoc k rest
  end.

(** [v.name] for a name that is not a built-in property of strings, arrays,
    numbers or booleans (every name the scripts read is of this kind). *)
Definition field (v : value) (name : string) : result (option value) :=
  match v with
  | Null => Thrown
  | Obj props => Ok (assoc name props)
  | _ => Ok None
  end.

Definition char_at (s : string) (i : nat) : option value :=
  match String.get i s with
  | Some c => Some (Str (String c EmptyString))
  | None => None
  end.

(** [v[n]] for a number [n]. *)
Definition index (v : value) (n : number) : result (option value) :=
  match v with
  | Null => Thrown
  | Obj props => Ok (assoc (ToString n) props)
  | Arr items =>
      match n with
      | Int z => if z <? 0 then Ok None else Ok (nth_error items (Z.to_nat z))
      | _ => Ok None
      end
  | Str s =>
      match n with
      | Int z => if z <? 0 then Ok None else Ok (char_at s (Z.to_nat z))
      | _ => Ok None
      end
  | _ => Ok None
  end.

(** [undefined[n]] throws as [null[n]] does. *)
Definition index_opt (v : option value) (n : number) : result (option value) :=
  match v with
  | Some w => index w n
  | None => Thrown
  end.

Fixpoint indexed (i : nat) (items : list value) : list (string * value) :=
  match items with
  | [] => []
  | x :: rest => (ToString (Int (Z.of_nat i)), x) :: indexed (S i) rest
  end.

Fixpoint chars (i : nat) (s : string) : list (string * value) :=
  match s with
  | EmptyString => []
  | String c r =>
      (ToString (Int (Z.of_nat i)), Str (String c EmptyString)) :: chars (S i) r
  end.

(** [Object.entries(v)] for a value that is not [null]. *)
Definition entries (v : value) : list (string * value) :=
  match v with
  | Obj props => props
  | Arr items => indexed 0 items
  | Str s => chars 0 s
  | _ => []
  end.

Definition keys (v : value) : list string := map fst (entries v).
Definition values (v : value) : list value := map snd (entries v).

(** *** [Set] and [Map], in insertion order *)

Definition set_has (x : value) (s : list value) : bool :=
  existsb (same_value_zero x) s.

Definition set_add (x : value) (s : list value) : list value :=
  if set_has x s then s else (s ++ [x])%list.

Fixpoint map_get {V} (k : number) (m : list (number * V)) : option V :=
  match m with
  | [] => None
  | (k', v) :: rest => if number_eqb k' k then Some v else map_get k rest
  end.

Fixpoint map_set {V} (k : number) (v : V) (m : list (number * V))
  : list (number * V) :=
  match m with
  | [] => [(k, v)]
  | (k', v') :: rest =>
      if number_eqb k' k then (k', v) :: rest else (k', v') :: map_set k v rest
  end.

Definition map_has {V} (k : number) (m : list (number * V)) : bool :=
  match map_get k m with
  | Some _ => true
  | None => false
  end.

End Js.

(** ** The label resolver: [utils/extract_system_labels.js] *)

Module Labels.
Import Js.

(** *** Pass 1: identifier discovery (lines 42-78) *)

Record IdSets : Type := mkIdSets {
  allSystemIds : list value;
  allConstellationIds : list value;
  allRegionIds : list value
}.

(** [ids.forEach(id => set.add(id))] *)
Definition add_each (ids : list value) (set : list value) : list value :=
  fold_left (fun s id => set_add id s) ids set.

(** [Object.keys(o).forEach(id => set.add(parseInt(id)))] *)
Definition add_keys (o : value) (set : list value) : list value :=
  add_each (map (fun id => Num (parseInt id)) (keys o)) set.

(** [if (listed) { listed.forEach(id => set.add(id)) }]: only an array has a
    [forEach]. *)
Definition add_listed (listed : option value) (set : list value)
  : result (list value) :=
  match listed with
  | None => Ok set
  | Some l =>
      if truthy l then
        match l with
        | Arr ids => Ok (add_each ids set)
        | _ => Thrown
        end
      else Ok set
  end.

(** The body of [Object.values(starMapCache.regions).forEach]. *)
Definition scan_region (region : value) (s : IdSets) : result IdSets :=
  ssi <- field region "solarSystemIDs" ;;
  sys <- add_listed ssi (allSystemIds s) ;;
  ci <- field region "constellationIDs" ;;
  con <- add_listed ci (allConstellationIds s) ;;
  Ok (mkIdSets sys con (allRegionIds s)).

(** The body of [Object.values(starMapCache.constellations).forEach]. *)
Definition scan_constellation (constellation : value) (s : IdSets)
  : result IdSets :=
  ssi <- field constellation "solarSystemIDs" ;;
  sys <- add_listed ssi (allSystemIds s) ;;
  Ok (mkIdSets sys (allConstellationIds s) (allRegionIds s)).

Fixpoint for_each {A S} (body : A -> S -> result S) (xs : list A) (s : S)
  : result S :=
  match xs with
  | [] => Ok s
  | x :: rest => s' <- body x s ;; for_each body rest s'
  end.

Definition discover_regions (starMapCache : value) (s : IdSets)
  : result IdSets :=
  regions <- field starMapCache "regions" ;;
  match regions with
  | Some rs =>
      if truthy rs then
        for_each scan_region (values rs)
          (mkIdSets (allSystemIds s) (allConstellationIds s)
                    (add_keys rs (allRegionIds s)))
      else Ok s
  | None => Ok s
  end.

Definition discover_constellations (starMapCache : value) (s : IdSets)
  : result IdSets :=
  constellations <- field starMapCache "constellations" ;;
  match constellations with
  | Some cs =>
      if truthy cs then
        for_each scan_constellation (values cs)
          (mkIdSets (allSystemIds s) (add_keys cs (allConstellationIds s))
                    (allRegionIds s))
      else Ok s
  | None => Ok s
  end.

Definition discover_systems (starMapCache : value) (s : IdSets)
  : result IdSets :=
  solarSystems <- field starMapCache "solarSystems" ;;
  match solarSystems with
  | Some ss =>
      if truthy ss then
        Ok (mkIdSets (add_keys ss (allSystemIds s)) (allConstellationIds s)
                     (allRegionIds s))
      else Ok s
  | None => Ok s
  end.

Definition discover_ids (starMapCache : value) : result IdSets :=
  s1 <- discover_regions starMapCache (mkIdSets [] [] []) ;;
  s2 <- discover_constellations starMapCache s1 ;;
  discover_systems starMapCache s2.

(** *** Pass 2: message-id index (lines 87-123) *)

Inductive kind : Type := System | Constellation | Region.

Definition kind_eqb (a b : kind) : bool :=
  match a, b with
  | System, System => true
  | Constellation, Constellation => true
  | Region, Region => true
  | _, _ => false
  end.

Definition full_path (k : kind) : string :=
  match k with
  | System => "Map/SolarSystems"
  | Constellation => "Map/Constellations"
  | Region => "Map/Regions"
  end.

Definition label_prefix (k : kind) : string :=
  match k with
  | System => "solar_system_"
  | Constellation => "constellation_"
  | Region => "region_"
  end.

Definition is_digit (c : ascii) : bool :=
  let n := nat_of_ascii c in ((48 <=? n) && (n <=? 57))%nat.

Fixpoint strip_prefix (p s : string) : option string :=
  match p, s with
  | EmptyString, _ => Some s
  | String a p', String b s' =>
      if Ascii.eqb a b then strip_prefix p' s' else None
  | String _ _, EmptyString => None
  end.

(** The longest run of decimal digits at the head of [s]: a greedy [\d+]
    with nothing after it in the pattern never gives a digit back. *)
Fixpoint take_digits (s : string) : string :=
  match s with
  | String c r => if is_digit c then String c (take_digits r) else EmptyString
  | EmptyString => EmptyString
  end.

(** An attempt of [/prefix(\d+)/] at the head of [s]; the result is group 1. *)
Definition match_at (p s : string) : option string :=
  match strip_prefix p s with
  | Some rest =>
      match take_digits rest with
      | EmptyString => None
      | ds => Some ds
      end
  | None => None
  end.

(** [label.match(/prefix(\d+)/)]: the leftmost position where the attempt
    succeeds. *)
Fixpoint label_match (p s : string) : option string :=
  match match_at p s with
  | Some ds => Some ds
  | None =>
      match s with
      | String _ r => label_match p r
      | EmptyString => None
      end
  end.

Definition IdMap : Type := list (number * number).

Record MessageIndex : Type := mkMessageIndex {
  systemIdToMessageId : IdMap;
  constellationIdToMessageId : IdMap;
  regionIdToMessageId : IdMap
}.

Definition id_set (k : kind) (s : IdSets) : list value :=
  match k with
  | System => allSystemIds s
  | Constellation => allConstellationIds s
  | Region => allRegionIds s
  end.

Definition id_map (k : kind) (ix : MessageIndex) : IdMap :=
  match k with
  | System => systemIdToMessageId ix
  | Constellation => constellationIdToMessageId ix
  | Region => regionIdToMessageId ix
  end.

Definition with_id_map (k : kind) (m : IdMap) (ix : MessageIndex)
  : MessageIndex :=
  match k with
  | System =>
      mkMessageIndex m (constellationIdToMessageId ix) (regionIdToMessageId ix)
  | Constellation =>
      mkMessageIndex (systemIdToMessageId ix) m (regionIdToMessageId ix)
  | Region =>
      mkMessageIndex (systemIdToMessageId ix) (constellationIdToMessageId ix) m
  end.

(** One branch of the [if]/[else if] chain, entered with a truthy
    [entry.label]: only a string has a [match]. *)
Definition index_branch (k : kind) (ids : IdSets) (messageId : string)
    (label : value) (ix : MessageIndex) : result MessageIndex :=
  match label with
  | Str l =>
      match label_match (label_prefix k) l with
      | Some ds =>
          let id := parseInt ds in
          if set_has (Num id) (id_set k ids)
          then Ok (with_id_map k (map_set id (parseInt messageId) (id_map k ix)) ix)
          else Ok ix
      | None => Ok ix
      end
  | _ => Thrown
  end.

(** The body of [Object.entries(mainLocalization.labels).forEach]. *)
Definition index_entry (ids : IdSets) (e : string * value) (ix : MessageIndex)
  : result MessageIndex :=
  let '(messageId, entry) := e in
  fullPath <- field entry "FullPath" ;;
  label <- field entry "label" ;;
  let branch k :=
    match label with
    | Some l => index_branch k ids messageId l ix
    | None => Ok ix
    end in
  if strict_eq_str fullPath (full_path System) && truthy_opt label
  then branch System
  else if strict_eq_str fullPath (full_path Constellation) && truthy_opt label
  then branch Constellation
  else if strict_eq_str fullPath (full_path Region) && truthy_opt label
  then branch Region
  else Ok ix.

Definition build_index (mainLocalization : value) (ids : IdSets)
  : result MessageIndex :=
  labels <- field mainLocalization "labels" ;;
  match labels with
  | Some ls =>
      if truthy ls
      then for_each (index_entry ids) (entries ls) (mkMessageIndex [] [] [])
      else Ok (mkMessageIndex [] [] [])
  | None => Ok (mkMessageIndex [] [] [])
  end.

(** *** Pass 3: name resolution (lines 132-176) *)

Definition LabelMap : Type := list (number * value).

(** The body of [idToMessageId.forEach((messageId, id) => ...)]. *)
Definition resolve_entry (localizationData : option value)
    (e : number * number) (labels : LabelMap) : result LabelMap :=
  let '(id, messageId) := e in
  localizationEntry <- index_opt localizationData messageId ;;
  if truthy_opt localizationEntry then
    match localizationEntry with
    | Some (Arr (name :: _)) =>
        if truthy name && negb (same_value_zero name Null)
        then Ok (map_set id name labels)
        else Ok labels
    | _ => Ok labels
    end
  else Ok labels.

Definition resolve_names (localizationData : option value) (m : IdMap)
  : result LabelMap :=
  for_each (resolve_entry localizationData) m [].

Record StellarLabels : Type := mkStellarLabels {
  systemLabels : LabelMap;
  constellationLabels : LabelMap;
  regionLabels : LabelMap
}.

Definition label_map (k : kind) (out : StellarLabels) : LabelMap :=
  match k with
  | System => systemLabels out
  | Constellation => constellationLabels out
  | Region => regionLabels out
  end.

Definition resolve_all (enUsLocalization : value) (ix : MessageIndex)
  : result StellarLabels :=
  localizationData <- index enUsLocalization (Int 1) ;;
  sys <- resolve_names localizationData (systemIdToMessageId ix) ;;
  con <- resolve_names localizationData (constellationIdToMessageId ix) ;;
  reg <- resolve_names localizationData (regionIdToMessageId ix) ;;
  Ok (mkStellarLabels sys con reg).

(** The three passes on the three parsed catalogues. *)
Definition resolve_labels (starMapCache mainLocalization enUsLocalization : value)
  : result StellarLabels :=
  ids <- discover_ids starMapCache ;;
  ix <- build_index mainLocalization ids ;;
  resolve_all enUsLocalization ix.

(** *** The script: loading, the three passes, the four output files *)

(** An array index: the decimal text, without leading zeros, of an integer
    below 2^32 - 1.  An object enumerates the keys of this kind first, in
    ascending order, and then its other keys in the order of their
    creation. *)
Definition array_index (k : string) : option Z :=
  match read_digits 10 k None with
  | Some z =>
      if (decimal_text z =? k)%string && (z <? 4294967295) then Some z else None
  | None => None
  end.

Definition enumerated_before (k k' : string) : bool :=
  match array_index k, array_index k' with
  | Some i, Some j => i <? j
  | Some _, None => true
  | None, _ => false
  end.

(** [systemResult[id] = name] on a plain object: the value of an existing
    key is replaced where it is, and a new key takes its place in the
    enumeration order. *)
Fixpoint obj_set (k : string) (v : value) (o : list (string * value))
  : list (string * value) :=
  match o with
  | [] => [(k, v)]
  | (k', v') :: rest =>
      if (k' =? k)%string then (k', v) :: rest
      else if enumerated_before k k' then (k, v) :: o
      else (k', v') :: obj_set k v rest
  end.

(** [labels.forEach((name, id) => { result[id] = name; })] *)
Definition plain_object (labels : LabelMap) : value :=
  Obj (fold_left (fun o e => obj_set (ToString (fst e)) (snd e) o) labels []).

Inductive event : Type :=
| Log (line : string)
| LogError (line : string) (detail : string)
| WriteFile (path : string) (data : string).

Inductive outcome (A : Type) : Type :=
| Return (a : A)
| Exit (code : Z)
| Uncaught.

Arguments Return {A} a.
Arguments Exit {A} code.
Arguments Uncaught {A}.

(** A run: what it printed and wrote, in order, and how it ended. *)
Definition run (A : Type) : Type := (list event * outcome A)%type.

Definition unit_run {A} (a : A) : run A := ([], Return a).

Definition then_run {A B} (r : run A) (k : A -> run B) : run B :=
  match r with
  | (ev, Return a) => let '(ev', o) := k a in ((ev ++ ev')%list, o)
  | (ev, Exit c) => (ev, Exit c)
  | (ev, Uncaught) => (ev, Uncaught)
  end.

Notation "x <~ e ;; k" := (then_run e (fun x => k))
  (at level 61, e at next level, right associativity).
Notation "e ;;; k" := (then_run e (fun _ => k))
  (at level 61, right associativity).

Definition emit (e : event) : run unit := ([e], Return tt).

Definition lift {A} (r : result A) : run A :=
  match r with
  | Ok a => ([], Return a)
  | Thrown => ([], Uncaught)
  end.

Definition size {A} (l : list A) : string :=
  ToString (Int (Z.of_nat (List.length l))).

Section Script.

(** [path.join(__dirname, '../data/json')] *)
Variable dataDir : string.
(** [fs.readFileSync(path, 'utf8')]: the text, or the message of the error. *)
Variable readFileSync : string -> string + string.
(** [JSON.parse]: the document, or the message of the [SyntaxError]. *)
Variable JSON_parse : string -> value + string.
(** [JSON.stringify(v, null, 2)] *)
Variable JSON_stringify : value -> string.
(** Whether [fs.writeFileSync] succeeds on a path. *)
Variable can_write : string -> bool.
(** The text a template literal interpolates for a value: its string
    conversion, which throws a TypeError for an array or an object that
    has no primitive form. *)
Variable interpolate : value -> result string.

Definition join (d f : string) : string := d ++ "/" ++ f.

Definition loadJsonFile (filePath : string) : run value :=
  emit (Log ("Loading " ++ filePath ++ "...")) ;;;
  match readFileSync filePath with
  | inl data =>
      match JSON_parse data with
      | inl v => unit_run v
      | inr message =>
          emit (LogError ("Error loading " ++ filePath ++ ":") message) ;;;
          ([], Exit 1)
      end
  | inr message =>
      emit (LogError ("Error loading " ++ filePath ++ ":") message) ;;;
      ([], Exit 1)
  end.

Definition writeFileSync (path data : string) : run unit :=
  if can_write path then emit (WriteFile path data) else ([], Uncaught).

(** One line for each entry, up to the first name that cannot be
    interpolated. *)
Fixpoint example_lines (labels : LabelMap) : run unit :=
  match labels with
  | [] => unit_run tt
  | (id, name) :: rest =>
      text <~ lift (interpolate name) ;;
      emit (Log ("  " ++ ToString id ++ ": " ++ text)) ;;;
      example_lines rest
  end.

(** The [for ... of labels.entries()] loops that print at most five lines. *)
Definition examples (labels : LabelMap) : run unit :=
  example_lines (firstn 5 labels).

Definition extractStellarLabels : run value :=
  starMapCache <~ loadJsonFile (join dataDir "starmapcache.json") ;;
  mainLocalization <~ loadJsonFile (join dataDir "localization_fsd_main.json") ;;
  enUsLocalization <~ loadJsonFile (join dataDir "localization_fsd_en-us.json") ;;
  emit (Log "Extracting IDs from starmapcache...") ;;;
  ids <~ lift (discover_ids starMapCache) ;;
  emit (Log ("Found " ++ size (allSystemIds ids) ++ " unique solar system IDs")) ;;;
  emit (Log ("Found " ++ size (allConstellationIds ids)
               ++ " unique constellation IDs")) ;;;
  emit (Log ("Found " ++ size (allRegionIds ids) ++ " unique region IDs")) ;;;
  emit (Log "Building message ID mappings...") ;;;
  ix <~ lift (build_index mainLocalization ids) ;;
  emit (Log ("Found " ++ size (systemIdToMessageId ix)
               ++ " solar system message ID mappings")) ;;;
  emit (Log ("Found " ++ size (constellationIdToMessageId ix)
               ++ " constellation message ID mappings")) ;;;
  emit (Log ("Found " ++ size (regionIdToMessageId ix)
               ++ " region message ID mappings")) ;;;
  emit (Log "Extracting names from English localization...") ;;;
  out <~ lift (resolve_all enUsLocalization ix) ;;
  emit (Log ("Successfully extracted " ++ size (systemLabels out)
               ++ " system labels")) ;;;
  emit (Log ("Successfully extracted " ++ size (constellationLabels out)
               ++ " constellation labels")) ;;;
  emit (Log ("Successfully extracted " ++ size (regionLabels out)
               ++ " region labels")) ;;;
  let systemResult := plain_object (systemLabels out) in
  let constellationResult := plain_object (constellationLabels out) in
  let regionResult := plain_object (regionLabels out) in
  let systemOutputPath := join dataDir "system_labels.json" in
  let constellationOutputPath := join dataDir "constellation_labels.json" in
  let regionOutputPath := join dataDir "region_labels.json" in
  writeFileSync systemOutputPath (JSON_stringify systemResult) ;;;
  writeFileSync constellationOutputPath (JSON_stringify constellationResult) ;;;
  writeFileSync regionOutputPath (JSON_stringify regionResult) ;;;
  emit (Log ("System labels saved to " ++ systemOutputPath)) ;;;
  emit (Log ("Constellation labels saved to " ++ constellationOutputPath)) ;;;
  emit (Log ("Region labels saved to " ++ regionOutputPath)) ;;;
  let combinedResult :=
    Obj [("systems", systemResult); ("constellations", constellationResult);
         ("regions", regionResult)] in
  let combinedOutputPath := join dataDir "stellar_labels.json" in
  writeFileSync combinedOutputPath (JSON_stringify combinedResult) ;;;
  emit (Log ("Combined labels saved to " ++ combinedOutputPath)) ;;;
  emit (Log (String "010" "Example system labels:")) ;;;
  examples (systemLabels out) ;;;
  emit (Log (String "010" "Example constellation labels:")) ;;;
  examples (constellationLabels out) ;;;
  emit (Log (String "010" "Example region labels:")) ;;;
  examples (regionLabels out) ;;;
  unit_run combinedResult.

End Script.

(** *** The catalogues as the specification reads them *)

(** A section of a document that the script enters: present and truthy. *)
Definition section_of (doc : value) (name : string) : option value :=
  match field doc name with
  | Ok (Some v) => if truthy v then Some v else None
  | _ => None
  end.

Definition members (doc : value) (name : string) : list value :=
  match section_of doc name with
  | Some o => values o
  | None => []
  end.

(** The identifiers that are keys of a section. *)
Definition key_ids (doc : value) (name : string) : list value :=
  match section_of doc name with
  | Some o => map (fun id => Num (parseInt id)) (keys o)
  | None => []
  end.

(** The identifiers listed under [name] by one member of a section. *)
Definition listed_by (member : value) (name : string) : list value :=
  match field member name with
  | Ok (Some (Arr ids)) => ids
  | _ => []
  end.

(** The identifiers listed under [name] by the members of a section. *)
Definition listed_ids (doc : value) (sect name : string) : list value :=
  flat_map (fun member => listed_by member name) (members doc sect).

(** No two elements of a set are the same value. *)
Fixpoint distinct (s : list value) : bool :=
  match s with
  | [] => true
  | x :: rest => negb (set_has x rest) && distinct rest
  end.

(** The shape the script expects of its three documents. *)
Definition listed_shape (member : value) (name : string) : bool :=
  match field member name with
  | Ok None => true
  | Ok (Some l) =>
      negb (truthy l) || match l with Arr _ => true | _ => false end
  | Thrown => false
  end.

Definition not_null (v : value) : bool :=
  match v with
  | Null => false
  | _ => true
  end.

Definition starmap_shape (starMapCache : value) : bool :=
  not_null starMapCache
  && forallb (fun r => listed_shape r "solarSystemIDs"
                       && listed_shape r "constellationIDs")
             (members starMapCache "regions")
  && forallb (fun c => listed_shape c "solarSystemIDs")
             (members starMapCache "constellations").

Definition entry_shape (entry : value) : bool :=
  not_null entry
  && match field entry "label" with
     | Ok (Some l) =>
         negb (truthy l) || match l with Str _ => true | _ => false end
     | _ => true
     end.

Definition index_shape (mainLocalization : value) : bool :=
  not_null mainLocalization
  && forallb entry_shape (members mainLocalization "labels").

Definition strings_shape (enUsLocalization : value) : bool :=
  match index enUsLocalization (Int 1) with
  | Ok (Some data) => not_null data
  | _ => false
  end.

(** The second link of the chain for [id]: an entry of the localization
    index under the path tag of the kind, whose label holds the prefix of
    the kind followed by a run of digits that ends there and reads [id]. *)
Definition index_link (k : kind) (id : number) (messageId : string)
    (mainLocalization : value) : Prop :=
  exists labels entry label before digits rest,
    section_of mainLocalization "labels" = Some labels
    /\ In (messageId, entry) (entries labels)
    /\ field entry "FullPath" = Ok (Some (Str (full_path k)))
    /\ field entry "label" = Ok (Some (Str label))
    /\ label = before ++ label_prefix k ++ digits ++ rest
    /\ digits <> EmptyString
    /\ take_digits digits = digits
    /\ take_digits rest = EmptyString
    /\ parseInt digits = id.

(** The third link: the string table, which is element 1 of the English
    document, has at the message id an array whose first element is
    [name]. *)
Definition string_link (messageId : number) (name : value)
    (enUsLocalization : value) : Prop :=
  exists data rest,
    index enUsLocalization (Int 1) = Ok (Some data)
    /\ index data messageId = Ok (Some (Arr (name :: rest))).

(** The keys of a map are pairwise different. *)
Definition unique_keys {V} (m : list (number * V)) : Prop :=
  NoDup (map fst m).

Definition all_distinct (s : IdSets) : Prop :=
  distinct (allSystemIds s) = true
  /\ distinct (allConstellationIds s) = true
  /\ distinct (allRegionIds s) = true.

(** [s'] holds what [s] held and the identifiers of [sys], [con], [reg]. *)
Definition grows (s s' : IdSets) (sys con reg : list value) : Prop :=
  (forall v, In v (allSystemIds s') <-> In v sys \/ In v (allSystemIds s))
  /\ (forall v, In v (allConstellationIds s')
                 <-> In v con \/ In v (allConstellationIds s))
  /\ (forall v, In v (allRegionIds s') <-> In v reg \/ In v (allRegionIds s))
  /\ (all_distinct s -> all_distinct s').

(** What pass 2 records: [id] is mapped to [mid] only for an entry of the
    localization index that carries them. *)
Definition indexed_by (k : kind) (id mid : number)
    (es : list (string * value)) : Prop :=
  exists messageId entry label digits,
    In (messageId, entry) es
    /\ field entry "FullPath" = Ok (Some (Str (full_path k)))
    /\ field entry "label" = Ok (Some (Str label))
    /\ label_match (label_prefix k) label = Some digits
    /\ parseInt digits = id
    /\ parseInt messageId = mid.

Definition index_sound (ids : IdSets) (es : list (string * value))
    (ix : MessageIndex) : Prop :=
  forall k,
    unique_keys (id_map k ix)
    /\ forall id mid, In (id, mid) (id_map k ix) ->
         set_has (Num id) (id_set k ids) = true /\ indexed_by k id mid es.

(** The entries of the localization index that pass 2 walks. *)
Definition index_entries (mainLocalization : value) : list (string * value) :=
  match section_of mainLocalization "labels" with
  | Some labels => entries labels
  | None => []
  end.

(** The name pass 3 takes from the string table for a message id. *)
Definition first_name (localizationData : option value) (messageId : number)
  : option value :=
  match index_opt localizationData messageId with
  | Ok (Some (Arr (name :: _))) => if truthy name then Some name else None
  | _ => None
  end.

(** The three catalogue files, and whether one can be read and parsed. *)
Definition catalogue_paths (dataDir : string) : list string :=
  [join dataDir "starmapcache.json";
   join dataDir "localization_fsd_main.json";
   join dataDir "localization_fsd_en-us.json"].

Definition loadable (readFileSync : string -> string + string)
    (JSON_parse : string -> value + string) (path : string) : bool :=
  match readFileSync path with
  | inl data =>
      match JSON_parse data with
      | inl _ => true
      | inr _ => false
      end
  | inr _ => false
  end.

Definition is_loading (e : event) : Prop :=
  exists path, e = Log ("Loading " ++ path ++ "...").

Definition is_write (e : event) : Prop :=
  exists path data, e = WriteFile path data.

(** A file system that holds the star-map catalogue only. *)
Definition sample_files (path : string) : string + string :=
  if (path =? "data/json/starmapcache.json")%string then inl "{}"
  else inr "ENOENT: no such file or directory".

Definition sample_parse (text : string) : value + string :=
  if (text =? "{}")%string then inl (Obj [])
  else inr "Unexpected token".

(** Sample catalogues. *)
Definition sample_starmap : value :=
  Obj [("regions",
        Obj [("10000001",
              Obj [("solarSystemIDs", Arr [Num (Int 30000001); Num (Int 30000002)]);
                   ("constellationIDs", Arr [Num (Int 20000001)])])]);
       ("constellations",
        Obj [("20000001",
              Obj [("solarSystemIDs",
                    Arr [Num (Int 30000001); Num (Int 30000003)])])]);
       ("solarSystems", Obj [("30000004", Obj [])])].

Definition sample_index : value :=
  Obj [("labels",
        Obj [("500", Obj [("FullPath", Str "Map/SolarSystems");
                          ("label", Str "solar_system_30000001")]);
             ("501", Obj [("FullPath", Str "Map/SolarSystems");
                          ("label", Str "solar_system_30000003")]);
             ("502", Obj [("FullPath", Str "Map/Regions");
                          ("label", Str "region_10000001")]);
             ("503", Obj [("FullPath", Str "Map/SolarSystems");
                          ("label", Str "solar_system_30000002")])])].

Definition sample_strings : value :=
  Arr [Str "en-us";
       Obj [("500", Arr [Str "Jita"; Null]);
            ("501", Arr [Str ""]);
            ("502", Arr [Str "The Forge"]);
            ("503", Arr [Null])]].

(** A string table keyed by message id at the top level of the document. *)
Definition flat_strings : value :=
  Obj [("1", Obj []); ("500", Arr [Str "Jita"]); ("502", Arr [Str "The Forge"])].

(** *** Pass 2 and the counts, read as functions of the catalogues *)

(** Whether an index entry records [id] for the kind [k]: it carries the
    path tag of the kind and a string label in which the pattern of the
    kind finds digits that read [id]. *)
Definition indexes (k : kind) (id : number) (entry : value) : bool :=
  match field entry "FullPath", field entry "label" with
  | Ok (Some (Str fullPath)), Ok (Some (Str label)) =>
      (fullPath =? full_path k)%string
      && match label_match (label_prefix k) label with
         | Some ds => number_eqb (parseInt ds) id
         | None => false
         end
  | _, _ => false
  end.

(** The message id of the last entry, in enumeration order, that records
    [id] for [k]; [acc] when there is none. *)
Fixpoint last_indexing (k : kind) (id : number) (es : list (string * value))
    (acc : option number) : option number :=
  match es with
  | [] => acc
  | (messageId, entry) :: rest =>
      last_indexing k id rest
        (if indexes k id entry then Some (parseInt messageId) else acc)
  end.

(** The characters of the digits before the exponent in the text of a
    number. *)
Definition mantissa_char (c : ascii) : bool := is_digit c || Ascii.eqb c ".".

Fixpoint all_of (P : ascii -> bool) (s : string) : bool :=
  match s with
  | EmptyString => true
  | String c r => P c && all_of P r
  end.

(** The value of a string of decimal digits, read from the left. *)
Fixpoint decimal_from (acc : Z) (s : string) : Z :=
  match s with
  | String c r => decimal_from (10 * acc + (Z.of_nat (nat_of_ascii c) - 48)) r
  | EmptyString => acc
  end.

Definition decimal (s : string) : Z := decimal_from 0 s.

(** The second link as the specification words it: the label is the prefix
    of the kind and then digits, to its end, and the number these digits
    write is the identifier. *)
Definition suffix_link (k : kind) (id : Z) (mainLocalization : value) : Prop :=
  exists labels messageId entry digits,
    section_of mainLocalization "labels" = Some labels
    /\ In (messageId, entry) (entries labels)
    /\ field entry "FullPath" = Ok (Some (Str (full_path k)))
    /\ field entry "label" = Ok (Some (Str (label_prefix k ++ digits)))
    /\ digits <> EmptyString
    /\ take_digits digits = digits
    /\ decimal digits = id.

(** Catalogues whose one label holds the pattern of a solar system between
    other characters. *)
Definition loose_starmap : value :=
  Obj [("solarSystems", Obj [("12", Obj [])])].

Definition loose_index : value :=
  Obj [("labels",
        Obj [("7", Obj [("FullPath", Str "Map/SolarSystems");
                        ("label", Str "xx_solar_system_12abc")])])].

Definition loose_strings : value :=
  Arr [Str "en-us"; Obj [("7", Arr [Str "Twelve"])]].

(** Catalogues whose one identifier is written with more digits than a
    double holds: 2^53 + 1. *)
Definition wide_starmap : value :=
  Obj [("solarSystems", Obj [("9007199254740993", Obj [])])].

Definition wide_index : value :=
  Obj [("labels",
        Obj [("7", Obj [("FullPath", Str "Map/SolarSystems");
                        ("label", Str "solar_system_9007199254740993")])])].

(** Whether the names of the lines that [examples] prints, the first five,
    can be interpolated. *)
Definition interpolated (interpolate : value -> result string)
    (labels : LabelMap) : bool :=
  forallb (fun e => match interpolate (snd e) with
                    | Ok _ => true
                    | Thrown => false
                    end) (firstn 5 labels).


(** The files a run wrote, in order. *)
Definition writes (ev : list event) : list (string * string) :=
  flat_map (fun e => match e with
                     | WriteFile path data => [(path, data)]
                     | _ => []
                     end) ev.

(** Sample files for a whole run: three catalogues, each parsed to the
    sample document of its name. *)
Definition whole_files (path : string) : string + string :=
  if (path =? "data/json/starmapcache.json")%string then inl "starmap"
  else if (path =? "data/json/localization_fsd_main.json")%string then inl "main"
  else if (path =? "data/json/localization_fsd_en-us.json")%string then inl "en-us"
  else inr "ENOENT: no such file or directory".

Definition whole_parse (text : string) : value + string :=
  if (text =? "starmap")%string then inl sample_starmap
  else if (text =? "main")%string then inl sample_index
  else if (text =? "en-us")%string then inl sample_strings
  else inr "Unexpected token".

(** The same files with a star-map catalogue whose region is [null]. *)
Definition broken_parse (text : string) : value + string :=
  if (text =? "starmap")%string then inl (Obj [("regions", Obj [("1", Null)])])
  else whole_parse text.

(** What a run wrote and how it ended, the console left aside. *)
Definition summary {A} (r : run A) : list (string * string) * outcome A :=
  (writes (fst r), snd r).

(** The writes that succeed before the first one that fails. *)
Fixpoint take_writable (can_write : string -> bool)
    (ws : list (string * string)) : list (string * string) :=
  match ws with
  | [] => []
  | (path, data) :: rest =>
      if can_write path then (path, data) :: take_writable can_write rest
      else []
  end.

(** The four files of a run, in the order of the script. *)
Definition output_files (dataDir : string) (JSON_stringify : value -> string)
    (out : StellarLabels) : list (string * string) :=
  let systemResult := plain_object (systemLabels out) in
  let constellationResult := plain_object (constellationLabels out) in
  let regionResult := plain_object (regionLabels out) in
  [(join dataDir "system_labels.json", JSON_stringify systemResult);
   (join dataDir "constellation_labels.json", JSON_stringify constellationResult);
   (join dataDir "region_labels.json", JSON_stringify regionResult);
   (join dataDir "stellar_labels.json",
    JSON_stringify
      (Obj [("systems", systemResult); ("constellations", constellationResult);
            ("regions", regionResult)]))].

End Labels.

(** ** The asset router: [extract_data.js] and its two helpers *)

Module Extract.

(** *** The process state and asynchronous functions *)

Inductive error : Type :=
| ENOENT (path : string)
| EACCES (path : string)
| EEXIST (path : string)
| ENOTDIR (path : string)
| DecodeError (message : string)
| TypeError (message : string).

Inductive event : Type :=
| Log (line : string)
| LogError (line : string) (cause : error).

(** The files and directories, the paths the process may not write, the
    console and the two counters of the script.  A path is its text: two
    texts are two files.  A path that is [denied] cannot be opened for
    writing, so that a write or a copy to it fails before anything is
    changed; a failure after the destination is opened, which may leave it
    cut short or take it away, is not among the failures of this state,
    and a write does not look for the directory that is to hold the
    file. *)
Record world : Type := mkWorld {
  file : string -> option (list byte);
  dir : string -> bool;
  denied : string -> bool;
  console : list event;
  processedCount : Z;
  pickleCount : Z
}.

(** How the promise of an [async] function settles. *)
Inductive settled (A : Type) : Type :=
| Fulfilled (a : A)
| Rejected (e : error).

Arguments Fulfilled {A} a.
Arguments Rejected {A} e.

Definition task (A : Type) : Type := world -> settled A * world.

Definition ret {A} (a : A) : task A := fun w => (Fulfilled a, w).

Definition throw {A} (e : error) : task A := fun w => (Rejected e, w).

(** [await] *)
Definition await {A B} (t : task A) (k : A -> task B) : task B :=
  fun w =>
    match t w with
    | (Fulfilled a, w') => k a w'
    | (Rejected e, w') => (Rejected e, w')
    end.

(** [try { t } catch (error) { handler }] *)
Definition try_catch {A} (t : task A) (handler : error -> task A) : task A :=
  fun w =>
    match t w with
    | (Fulfilled a, w') => (Fulfilled a, w')
    | (Rejected e, w') => handler e w'
    end.

Notation "x <- e ;; k" := (await e (fun x => k))
  (at level 61, e at next level, right associativity).
Notation "e ;;; k" := (await e (fun _ => k))
  (at level 61, right associativity).

Definition with_file (path : string) (data : list byte) (w : world) : world :=
  mkWorld (fun p => if (p =? path)%string then Some data else file w p)
          (dir w) (denied w) (console w) (processedCount w) (pickleCount w).

Definition with_dir (path : string) (w : world) : world :=
  mkWorld (file w) (fun p => (p =? path)%string || dir w p)
          (denied w) (console w) (processedCount w) (pickleCount w).

Definition with_event (e : event) (w : world) : world :=
  mkWorld (file w) (dir w) (denied w) (console w ++ [e])%list
          (processedCount w) (pickleCount w).

Definition console_log (line : string) : task unit :=
  fun w => (Fulfilled tt, with_event (Log line) w).

Definition console_error (line : string) (cause : error) : task unit :=
  fun w => (Fulfilled tt, with_event (LogError line cause) w).

Definition readFile (path : string) : task (list byte) :=
  fun w =>
    match file w path with
    | Some data => (Fulfilled data, w)
    | None => (Rejected (ENOENT path), w)
    end.

Definition writeFile (path : string) (data : list byte) : task unit :=
  fun w =>
    if denied w path then (Rejected (EACCES path), w)
    else (Fulfilled tt, with_file path data w).

Definition copyFile (src dest : string) : task unit :=
  data <- readFile src ;; writeFile dest data.

(** [fs.existsSync]: true of a directory and of a file alike. *)
Definition existsSync (path : string) (w : world) : bool :=
  dir w path || match file w path with Some _ => true | None => false end.

(** The proper ancestors of a path, the nearest last: what stands before
    each of its separators. *)
Fixpoint ancestors_from (before s : string) : list string :=
  match s with
  | EmptyString => []
  | String c r =>
      (if Ascii.eqb c "/" && negb (before =? "")%string then [before] else [])
      ++ ancestors_from (before ++ String c EmptyString) r
  end.

Definition ancestors (path : string) : list string := ancestors_from "" path.

(** One directory of a recursive [mkdir]: nothing to do where one is, and
    an error where a file is or where the process may not write. *)
Definition make_dir (last : bool) (path : string) : task unit :=
  fun w =>
    if dir w path then (Fulfilled tt, w)
    else
      match file w path with
      | Some _ => (Rejected ((if last then EEXIST else ENOTDIR) path), w)
      | None =>
          if denied w path then (Rejected (EACCES path), w)
          else (Fulfilled tt, with_dir path w)
      end.

(** [fs.mkdirSync(path, { recursive: true })]: the missing ancestors are
    made first, from the farthest, and the ones made stay when a later one
    fails. *)
Definition mkdirSync (path : string) : task unit :=
  fold_right (fun d rest => make_dir false d ;;; rest) (make_dir true path)
             (ancestors path).

(** *** [is_valid_sqlite.js] *)

(** ["SQLite format 3\0"]: fifteen characters and a NUL. *)
Definition sqliteHeader : string := "SQLite format 3" ++ String zero EmptyString.

(** [buffer.toString('ascii')]: Node decodes each byte with its highest bit
    cleared. *)
Definition clear_high_bit (b : byte) : ascii :=
  ascii_of_N (N.land (Byte.to_N b) 127).

Definition toString_ascii (buffer : list byte) : string :=
  string_of_list_ascii (map clear_high_bit buffer).

(** [buffer.subarray(0, 16)] *)
Definition subarray_16 (buffer : list byte) : list byte := firstn 16 buffer.

(** The test between the [try] and the [catch], on the bytes read. *)
Definition header_matches (buffer : list byte) : bool :=
  if (List.length buffer <? 16)%nat then false
  else (toString_ascii (subarray_16 buffer) =? sqliteHeader)%string.

Definition isValidSQLite (filePath : string) : task bool :=
  try_catch
    (buffer <- readFile filePath ;; ret (header_matches buffer))
    (fun error =>
       console_error ("Error checking SQLite validity for " ++ filePath ++ ":")
                     error ;;;
       ret false).

(** *** The manifest pattern *)

(** An element of the pattern: a literal character, or a character class
    repeated at least [least] times, greedily or lazily. *)
Inductive piece : Type :=
| Lit (c : ascii)
| Rep (class : ascii -> bool) (least : nat) (greedy : bool).

(** Backtracking match of the pieces against the whole of [s] (the pattern
    is anchored at both ends); the result is the text taken by each piece
    in the first successful attempt. *)
Fixpoint match_pieces (ps : list piece) (s : string) : option (list string) :=
  match ps with
  | [] =>
      match s with
      | EmptyString => Some []
      | String _ _ => None
      end
  | Lit c :: ps' =>
      match s with
      | String x r =>
          if Ascii.eqb x c
          then option_map (cons (String x EmptyString)) (match_pieces ps' r)
          else None
      | EmptyString => None
      end
  | Rep class least greedy :: ps' =>
      (fix rep (s : string) (n : nat) (taken : string -> string)
         : option (list string) :=
         let stop :=
           if (least <=? n)%nat
           then option_map (cons (taken EmptyString)) (match_pieces ps' s)
           else None in
         let more :=
           match s with
           | String x r =>
               if class x
               then rep r (S n) (fun t => taken (String x t))
               else None
           | EmptyString => None
           end in
         if greedy
         then match more with Some m => Some m | None => stop end
         else match stop with Some m => Some m | None => more end) s 0%nat
        (fun t => t)
  end.

Definition char_is (c x : ascii) : bool := Ascii.eqb x c.

(** [.]: any character but a line terminator. *)
Definition dot (x : ascii) : bool :=
  negb (char_is "010" x || char_is "013" x).

Definition not_slash (x : ascii) : bool := negb (char_is "/" x).
Definition not_comma (x : ascii) : bool := negb (char_is "," x).

(** The [regex] of the script, piece by piece: group 1 is a lazy run of any
    characters; group 2 one or more characters other than a slash; a dot;
    group 3 one or more characters other than a comma; a comma; group 4 is
    one or more non-slash characters, a slash, and one or more non-comma
    characters; group 5 takes the rest of the line. *)
Definition regex : list piece :=
  [Rep dot 0 false; Rep not_slash 1 true; Lit "."; Rep not_comma 1 true;
   Lit ","; Rep not_slash 1 true; Lit "/"; Rep not_comma 1 true;
   Rep dot 0 true].

Record ManifestEntry : Type := mkEntry {
  respath : string;
  filename : string;
  filetype : string;
  sourceRelativePath : string
}.

(** [line.match(regex)] and the destructuring of its groups. *)
Definition match_line (line : string) : option ManifestEntry :=
  match match_pieces regex line with
  | Some [g1; g2; _; g3; _; d; sl; f; _] =>
      Some (mkEntry g1 g2 g3 (d ++ sl ++ f))
  | _ => None
  end.

(** *** The materialization routines and the line handler *)

(** [s.includes(needle)] *)
Fixpoint includes (needle s : string) : bool :=
  String.prefix needle s ||
  match s with
  | String _ r => includes needle r
  | EmptyString => false
  end.

(** The replacement text with its dollar patterns expanded: two dollars
    are one, a dollar and an ampersand the match, a dollar and a backquote
    what stands before the match, a dollar and a quote what follows it.  A
    string pattern has no groups, so any other dollar stands as it is. *)
Fixpoint substitution (matched before after by_ : string) : string :=
  match by_ with
  | String "$" (String c r as tail) =>
      if Ascii.eqb c "$" then String "$" (substitution matched before after r)
      else if Ascii.eqb c "&" then matched ++ substitution matched before after r
      else if Ascii.eqb c "`" then before ++ substitution matched before after r
      else if Ascii.eqb c "'" then after ++ substitution matched before after r
      else String "$" (substitution matched before after tail)
  | String c r => String c (substitution matched before after r)
  | EmptyString => EmptyString
  end.

Fixpoint replace_from (pattern by_ before s : string) : string :=
  match Labels.strip_prefix pattern s with
  | Some rest => before ++ substitution pattern before rest by_ ++ rest
  | None =>
      match s with
      | String c r => replace_from pattern by_ (before ++ String c EmptyString) r
      | EmptyString => before
      end
  end.

(** [s.replace(pattern, by)] with a string pattern: the first occurrence. *)
Definition replace_first (pattern by_ s : string) : string :=
  replace_from pattern by_ EmptyString s.

Definition count (n : Z) : string := Js.ToString (Js.Int n).

Section Router.

(** [path.join] *)
Variable path_join : string -> string -> string.
(** The environment variable of the same name. *)
Variable RES_FILES_BASE_DIR : string.
(** [path.join(__dirname, "data")] *)
Variable dataBaseDir : string.
(** The object graphs of the [pickleparser] library, its
    [new Parser().parse] (the value, or the message of the error it throws)
    and [JSON.stringify(data, null, 2)] encoded as UTF-8 (or the error it
    throws). *)
Variable Data : Type.
Variable Parser_parse : list byte -> Data + string.
Variable JSON_stringify : Data -> list byte + string.

Definition destRawDir := path_join dataBaseDir "raw".
Definition destSqliteDir := path_join dataBaseDir "sqlite".
Definition destSchemaDir := path_join dataBaseDir "schema".
Definition destFsdBinaryDir := path_join dataBaseDir "fsdbinary/src".
Definition destStaticDir := path_join dataBaseDir "static".
Definition destPickleDir := path_join dataBaseDir "pickle".
Definition destJsonDir := path_join dataBaseDir "json".

(** [pickle_to_json.js] *)
Definition convertPickleToJson (pickleFilePath jsonFilePath : string)
  : task unit :=
  try_catch
    (pickleData <- readFile pickleFilePath ;;
     match Parser_parse pickleData with
     | inr message => throw (DecodeError message)
     | inl data =>
         match JSON_stringify data with
         | inr message => throw (TypeError message)
         | inl jsonData =>
             writeFile jsonFilePath jsonData ;;;
             console_log ("Converted " ++ pickleFilePath ++ " to " ++ jsonFilePath)
         end
     end)
    (fun error =>
       console_error ("Error converting " ++ pickleFilePath ++ " to JSON:") error ;;;
       throw error).

Definition processStaticFile (filename sourceFilePath : string) : task unit :=
  let destSourceFile := path_join destStaticDir (filename ++ ".static") in
  copyFile sourceFilePath destSourceFile ;;;
  console_log ("Copied " ++ sourceFilePath ++ " to " ++ destSourceFile) ;;;
  isValid <- isValidSQLite sourceFilePath ;;
  if isValid : bool then
    let destSqliteFile := path_join destSqliteDir (filename ++ ".sqlite") in
    copyFile sourceFilePath destSqliteFile ;;;
    console_log ("Copied " ++ sourceFilePath ++ " to " ++ destSqliteFile)
  else
    console_log ("Invalid SQLite file: " ++ sourceFilePath).

Definition processSchemaFile (filename sourceFilePath : string) : task unit :=
  let destSourceFile := path_join destSchemaDir (filename ++ ".schema") in
  copyFile sourceFilePath destSourceFile ;;;
  console_log ("Copied " ++ sourceFilePath ++ " to " ++ destSourceFile).

Definition processFsdBinaryFile (filename sourceFilePath : string)
  : task unit :=
  let destSourceFile := path_join destFsdBinaryDir (filename ++ ".fsdbinary") in
  copyFile sourceFilePath destSourceFile ;;;
  console_log ("Copied " ++ sourceFilePath ++ " to " ++ destSourceFile).

(** The line printed for a starmap file starts with a star, the one
    character of the scripts outside the code units 0..255; it stands here
    as the three bytes the console writes for it. *)
Definition processPickleFile (filename sourceFilePath : string) : task unit :=
  let destPickleFilePath := path_join destPickleDir (filename ++ ".pickle") in
  let destJsonFilePath := path_join destJsonDir (filename ++ ".json") in
  try_catch
    (copyFile sourceFilePath destPickleFilePath ;;;
     console_log ("Copied " ++ sourceFilePath ++ " to " ++ destPickleFilePath) ;;;
     convertPickleToJson destPickleFilePath destJsonFilePath ;;;
     if includes "starmapcache" filename || includes "starmap" filename
     then console_log ("⭐ Found starmap data: " ++ destJsonFilePath)
     else ret tt)
    (fun error =>
       console_error ("Error processing pickle file " ++ filename ++ ":") error).

Definition defaultCopyFile (filename filetype sourceFilePath respath : string)
  : task unit :=
  let dir := path_join destRawDir respath in
  (fun w => if existsSync dir w then ret tt w else mkdirSync dir w) ;;;
  let destFilePath := path_join dir (filename ++ "." ++ filetype) in
  copyFile sourceFilePath destFilePath ;;;
  console_log ("Copied " ++ sourceFilePath ++ " to " ++ destFilePath).

(** [processedCount++] and the progress line every thousand entries. *)
Definition count_entry : task unit :=
  fun w =>
    let n := processedCount w + 1 in
    let w' := mkWorld (file w) (dir w) (denied w) (console w) n (pickleCount w) in
    if n mod 1000 =? 0
    then console_log ("Processed " ++ count n ++ " files...") w'
    else (Fulfilled tt, w').

(** [pickleCount++] and its line. *)
Definition count_pickle (filename : string) : task unit :=
  fun w =>
    let n := pickleCount w + 1 in
    let w' := mkWorld (file w) (dir w) (denied w) (console w) (processedCount w) n in
    console_log ("Processing pickle file #" ++ count n ++ ": " ++ filename) w'.

(** The [rl.on("line", async (line) => ...)] handler, run to completion. *)
Definition on_line (line : string) : task unit :=
  match match_line line with
  | None => ret tt
  | Some (mkEntry respath filename filetype sourceRelativePath) =>
      let sourceFilePath := path_join RES_FILES_BASE_DIR sourceRelativePath in
      count_entry ;;;
      if (filetype =? "static")%string then
        processStaticFile filename sourceFilePath
      else if (filetype =? "schema")%string then
        processSchemaFile filename sourceFilePath
      else if (filetype =? "fsdbinary")%string then
        processFsdBinaryFile filename sourceFilePath
      else if (filetype =? "pickle")%string then
        count_pickle filename ;;;
        processPickleFile filename sourceFilePath
      else
        defaultCopyFile filename filetype sourceFilePath
                        (replace_first "res:" "" respath)
  end.

(** *** The asset categories of the specification *)

Inductive AssetCategory : Type :=
| static
| schema
| binaryFormat
| serializedBlob
| other (rawType : string).

Definition category_of (filetype : string) : AssetCategory :=
  if (filetype =? "static")%string then static
  else if (filetype =? "schema")%string then schema
  else if (filetype =? "fsdbinary")%string then binaryFormat
  else if (filetype =? "pickle")%string then serializedBlob
  else other filetype.

(** The one routine of a category, on an entry. *)
Definition materialize (c : AssetCategory) (e : ManifestEntry) : task unit :=
  let sourceFilePath := path_join RES_FILES_BASE_DIR (sourceRelativePath e) in
  match c with
  | static => processStaticFile (filename e) sourceFilePath
  | schema => processSchemaFile (filename e) sourceFilePath
  | binaryFormat => processFsdBinaryFile (filename e) sourceFilePath
  | serializedBlob =>
      count_pickle (filename e) ;;; processPickleFile (filename e) sourceFilePath
  | other rawType =>
      defaultCopyFile (filename e) rawType sourceFilePath
                      (replace_first "res:" "" (respath e))
  end.

End Router.

(** *** Signatures, and a sample installation *)

(** The sixteen bytes of the SQLite signature. *)
Definition signature : list byte :=
  map byte_of_ascii (list_ascii_of_string sqliteHeader).

(** A header that is not the signature: its first byte is [0xD3], the [S]
    of the signature with the highest bit set. *)
Definition forged : list byte := xd3 :: tl signature.

(** A task keeps the entry counter. *)
Definition keeps_count {A} (t : task A) : Prop :=
  forall w, processedCount (snd (t w)) = processedCount w.

Definition sample_join (a b : string) : string := a ++ "/" ++ b.

Definition empty_world : world :=
  mkWorld (fun _ => None) (fun _ => false) (fun _ => false) [] 0 0.

(** A decoder that accepts the blobs that start with the pickle protocol
    byte [0x80]. *)
Definition sample_parse (blob : list byte) : list byte + string :=
  match blob with
  | x80 :: rest => inl rest
  | _ => inr "Unsupported opcode"
  end.

Definition sample_stringify (data : list byte) : list byte + string :=
  inl data.

Definition sample_on_line : string -> task unit :=
  on_line sample_join "ResFiles" "data" (list byte) sample_parse sample_stringify.

(** *** The pattern, read as a splitting of the line *)

(** The repetition of a class, as a function of the match of what follows:
    the inner loop of [match_pieces]. *)
Definition rep_match (class : ascii -> bool) (least : nat) (greedy : bool)
    (k : string -> option (list string))
  : string -> nat -> (string -> string) -> option (list string) :=
  fix rep (s : string) (n : nat) (taken : string -> string)
    : option (list string) :=
    let stop :=
      if (least <=? n)%nat
      then option_map (cons (taken EmptyString)) (k s)
      else None in
    let more :=
      match s with
      | String x r =>
          if class x
          then rep r (S n) (fun t => taken (String x t))
          else None
      | EmptyString => None
      end in
    if greedy
    then match more with Some m => Some m | None => stop end
    else match stop with Some m => Some m | None => more end.

Fixpoint all_chars (P : ascii -> bool) (s : string) : bool :=
  match s with
  | EmptyString => true
  | String c r => P c && all_chars P r
  end.

(** [s] has no occurrence of the character [c]. *)
Definition lacks (c : ascii) (s : string) : bool :=
  all_chars (fun x => negb (char_is c x)) s.

(** What a piece can take. *)
Definition piece_ok (p : piece) (g : string) : Prop :=
  match p with
  | Lit c => g = String c EmptyString
  | Rep class least _ =>
      all_chars class g = true /\ (least <= String.length g)%nat
  end.

Definition join_all (gs : list string) : string :=
  fold_right append EmptyString gs.

(** Whether a line is an entry, and whether it is a pickle entry. *)
Definition is_entry (line : string) : bool :=
  match match_line line with
  | Some _ => true
  | None => false
  end.

Definition is_pickle_entry (line : string) : bool :=
  match match_line line with
  | Some e => (filetype e =? "pickle")%string
  | None => false
  end.

Definition tally (P : string -> bool) (lines : list string) : Z :=
  Z.of_nat (List.length (filter P lines)).

(** A task leaves an observation of the state as it is. *)
Definition preserves {A X} (observe : world -> X) (t : task A) : Prop :=
  forall w, observe (snd (t w)) = observe w.

(** An observation that the console, the directories and the entry counter
    do not enter. *)
Definition file_like {X} (observe : world -> X) : Prop :=
  forall f d n c p k d' c' p',
    observe (mkWorld f d n c p k) = observe (mkWorld f d' n c' p' k).

(** *** The stream of lines *)

(** What the handler of a line does before it calls the routine of the
    entry: the entry is counted, and a pickle entry is counted and
    announced.  [readline] does not wait for the promise of a handler, so
    this much of a handler has run when the next line is read, and the
    routine goes on whenever what it awaits is done. *)
Definition announce (line : string) : task unit :=
  match match_line line with
  | None => ret tt
  | Some e =>
      count_entry ;;;
      if (filetype e =? "pickle")%string then count_pickle (filename e)
      else ret tt
  end.

(** What happens between the first line and the end of the stream, in the
    order in which it happens: a line is read, or something that was
    suspended goes on, the rest of a handler or a part of it. *)
Inductive turn : Type :=
| LineRead (line : string)
| Resumed (t : task unit).

Fixpoint run_turns (turns : list turn) (w : world) : world :=
  match turns with
  | [] => w
  | LineRead line :: rest => run_turns rest (snd (announce line w))
  | Resumed t :: rest => run_turns rest (snd (t w))
  end.

Definition lines_read (turns : list turn) : list string :=
  flat_map (fun t => match t with
                     | LineRead line => [line]
                     | Resumed _ => []
                     end) turns.

(** The second state differs from the first by its directories at most. *)
Definition only_dirs (w w' : world) : Prop :=
  file w' = file w /\ denied w' = denied w /\ console w' = console w
  /\ processedCount w' = processedCount w /\ pickleCount w' = pickleCount w.

(** A sample of what happens on the three sample lines: the second entry
    is read and its copy made before the copy of the first. *)
Definition sample_turns (handler_rest : string -> task unit) : list turn :=
  [LineRead "res:/staticdata/starmapcache.pickle,ab/cd,0123,42";
   LineRead "not an entry";
   LineRead "res:/staticdata/types.schema,ef/gh,4567,7";
   Resumed (handler_rest "res:/staticdata/types.schema,ef/gh,4567,7");
   Resumed (handler_rest "res:/staticdata/starmapcache.pickle,ab/cd,0123,42")].

(** A task that leaves both counters as they are. *)
Definition quiet (t : task unit) : Prop :=
  forall w,
    processedCount (snd (t w)) = processedCount w
    /\ pickleCount (snd (t w)) = pickleCount w.

(** *** The start and the end of the script *)




(** [if (!fs.existsSync(dir)) { fs.mkdirSync(dir, { recursive: true }); }] *)
Definition ensure_dir (dir : string) : task unit :=
  fun w => if existsSync dir w then ret tt w else mkdirSync dir w.


Section Script.

Variable path_join : string -> string -> string.
Variable RES_FILES_BASE_DIR : string.
Variable dataBaseDir : string.
Variable Data : Type.
Variable Parser_parse : list byte -> Data + string.
Variable JSON_stringify : Data -> list byte + string.



(** What the handler of a line awaits: the routine of the entry. *)
Definition awaited (line : string) : task unit :=
  match match_line line with
  | None => ret tt
  | Some (mkEntry respath filename filetype sourceRelativePath) =>
      let sourceFilePath := path_join RES_FILES_BASE_DIR sourceRelativePath in
      if (filetype =? "static")%string then
        processStaticFile path_join dataBaseDir filename sourceFilePath
      else if (filetype =? "schema")%string then
        processSchemaFile path_join dataBaseDir filename sourceFilePath
      else if (filetype =? "fsdbinary")%string then
        processFsdBinaryFile path_join dataBaseDir filename sourceFilePath
      else if (filetype =? "pickle")%string then
        processPickleFile path_join dataBaseDir Data Parser_parse JSON_stringify
          filename sourceFilePath
      else
        defaultCopyFile path_join dataBaseDir filename filetype sourceFilePath
                        (replace_first "res:" "" respath)
  end.

(** The [rl.on("close", ...)] handler. *)
Definition on_close : task unit :=
  console_log (String "010" "Extraction complete!") ;;;
  (fun w => console_log ("Total files processed: " ++ count (processedCount w)) w) ;;;
  (fun w => console_log ("Pickle files found: " ++ count (pickleCount w)) w) ;;;
  console_log (String "010" "Generated data directories:") ;;;
  console_log ("- JSON files: " ++ destJsonDir path_join dataBaseDir) ;;;
  console_log ("- SQLite files: " ++ destSqliteDir path_join dataBaseDir) ;;;
  console_log ("- Pickle files: " ++ destPickleDir path_join dataBaseDir).

(** The files a routine may write. *)
Definition destinations (c : AssetCategory) (e : ManifestEntry) : list string :=
  match c with
  | static =>
      [path_join (destStaticDir path_join dataBaseDir) (filename e ++ ".static");
       path_join (destSqliteDir path_join dataBaseDir) (filename e ++ ".sqlite")]
  | schema =>
      [path_join (destSchemaDir path_join dataBaseDir) (filename e ++ ".schema")]
  | binaryFormat =>
      [path_join (destFsdBinaryDir path_join dataBaseDir)
                 (filename e ++ ".fsdbinary")]
  | serializedBlob =>
      [path_join (destPickleDir path_join dataBaseDir) (filename e ++ ".pickle");
       path_join (destJsonDir path_join dataBaseDir) (filename e ++ ".json")]
  | other rawType =>
      [path_join
         (path_join (destRawDir path_join dataBaseDir)
                    (replace_first "res:" "" (respath e)))
         (filename e ++ "." ++ rawType)]
  end.

End Script.

Definition sample_world : world :=
  with_file "ResFiles/ef/gh" [x01]
    (with_file "ResFiles/ab/cd" [x80; x02] empty_world).

End Extract.

(** * Properties of the label resolver *)

Module LabelFacts.
Import Js Labels.

(** ** Values, sets and maps *)

Lemma number_eqb_eq a b : number_eqb a b = true <-> a = b.
Proof.
  destruct a, b; simpl; split; intros H; try congruence; try discriminate.
  - apply Z.eqb_eq in H. now subst.
  - inversion H. apply Z.eqb_refl.
  - apply Bool.eqb_prop in H. now subst.
  - inversion H. apply Bool.eqb_reflx.
Qed.

Lemma number_eqb_refl a : number_eqb a a = true.
Proof. now apply number_eqb_eq. Qed.

Lemma same_value_zero_eq a b : same_value_zero a b = true -> a = b.
Proof.
  destruct a, b; simpl; intros H; try discriminate; try reflexivity.
  - apply Bool.eqb_prop in H. now subst.
  - apply number_eqb_eq in H. now subst.
  - apply andb_true_iff in H. destruct H as [H1 H2].
    apply Z.eqb_eq in H1. apply Pos.eqb_eq in H2. now subst.
  - apply String.eqb_eq in H. now subst.
Qed.

Lemma same_value_zero_sym a b : same_value_zero a b = same_value_zero b a.
Proof.
  destruct a, b; simpl; try reflexivity.
  - now destruct b, b0.
  - destruct n, n0; simpl; try reflexivity;
      [apply Z.eqb_sym | now destruct negative, negative0].
  - now rewrite Z.eqb_sym, Pos.eqb_sym.
  - apply String.eqb_sym.
Qed.

Lemma set_has_In x s : set_has x s = true -> In x s.
Proof.
  unfold set_has. intros H. apply existsb_exists in H.
  destruct H as [y [Hy E]]. apply same_value_zero_eq in E. now subst.
Qed.

Lemma set_has_num n s : set_has (Num n) s = true <-> In (Num n) s.
Proof.
  split; [apply set_has_In|].
  intros H. unfold set_has. apply existsb_exists.
  exists (Num n). split; [assumption|]. simpl. apply number_eqb_refl.
Qed.

Lemma In_set_add v x s : In v (set_add x s) <-> v = x \/ In v s.
Proof.
  unfold set_add. destruct (set_has x s) eqn:E.
  - split; [now right|]. intros [-> | H]; [now apply set_has_In | assumption].
  - rewrite in_app_iff. simpl. split.
    + intros [H | [H | []]]; [now right | now left].
    + intros [-> | H]; [right; now left | now left].
Qed.

Lemma In_add_each v xs s : In v (add_each xs s) <-> In v xs \/ In v s.
Proof.
  unfold add_each. revert s. induction xs as [|x xs IH]; intros s; simpl.
  - tauto.
  - rewrite IH, In_set_add. intuition congruence.
Qed.

Lemma set_has_app x s t : set_has x (s ++ t) = set_has x s || set_has x t.
Proof. unfold set_has. apply existsb_app. Qed.

Lemma distinct_snoc s x :
  distinct s = true -> set_has x s = false -> distinct (s ++ [x]) = true.
Proof.
  induction s as [|y s IH]; simpl; intros D H.
  - reflexivity.
  - apply andb_true_iff in D. destruct D as [D1 D2].
    apply orb_false_iff in H. destruct H as [H1 H2].
    apply andb_true_iff. split; [|now apply IH].
    rewrite set_has_app. simpl. rewrite orb_false_r.
    rewrite same_value_zero_sym, H1.
    apply negb_true_iff in D1. now rewrite D1.
Qed.

Lemma distinct_set_add x s : distinct s = true -> distinct (set_add x s) = true.
Proof.
  intros D. unfold set_add. destruct (set_has x s) eqn:E; [assumption|].
  now apply distinct_snoc.
Qed.

Lemma distinct_add_each xs s :
  distinct s = true -> distinct (add_each xs s) = true.
Proof.
  unfold add_each. revert s. induction xs as [|x xs IH]; intros s D; simpl.
  - assumption.
  - apply IH. now apply distinct_set_add.
Qed.

Lemma In_map_set {V} (a k : number) (b v : V) m :
  In (a, b) (map_set k v m) -> (a = k /\ b = v) \/ In (a, b) m.
Proof.
  induction m as [|[k' v'] m IH]; simpl.
  - intros [H | []]. inversion H. now left.
  - destruct (number_eqb k' k) eqn:E; simpl.
    + apply number_eqb_eq in E. subst k'.
      intros [H | H]; [inversion H; now left | right; now right].
    + intros [H | H]; [right; now left|].
      destruct (IH H) as [H' | H']; [now left | right; now right].
Qed.

Lemma map_get_In {V} (k : number) (v : V) m : map_get k m = Some v -> In (k, v) m.
Proof.
  induction m as [|[k' v'] m IH]; simpl; [discriminate|].
  destruct (number_eqb k' k) eqn:E.
  - apply number_eqb_eq in E. subst. intros H. inversion H. now left.
  - intros H. right. now apply IH.
Qed.

Lemma In_map_get {V} (k : number) (v : V) m :
  In (k, v) m -> exists v', map_get k m = Some v'.
Proof.
  induction m as [|[k' v'] m IH]; simpl; [intros []|].
  intros [H | H].
  - inversion H. subst. rewrite number_eqb_refl. now exists v.
  - destruct (number_eqb k' k); [now exists v' | now apply IH].
Qed.

Lemma map_set_keys {V} (k : number) (v : V) m a :
  In a (map fst (map_set k v m)) <-> a = k \/ In a (map fst m).
Proof.
  induction m as [|[k' v'] m IH]; simpl.
  - intuition congruence.
  - destruct (number_eqb k' k) eqn:E; simpl.
    + apply number_eqb_eq in E. subst. intuition congruence.
    + rewrite IH. intuition congruence.
Qed.

Lemma unique_map_set {V} (k : number) (v : V) m :
  unique_keys m -> unique_keys (map_set k v m).
Proof.
  unfold unique_keys. induction m as [|[k' v'] m IH]; simpl; intros U.
  - constructor; [intros [] | constructor].
  - inversion U as [|? ? Hn U']; subst.
    destruct (number_eqb k' k) eqn:E; simpl.
    + now constructor.
    + constructor; [|now apply IH].
      rewrite map_set_keys. intros [-> | H]; [|contradiction].
      now rewrite number_eqb_refl in E.
Qed.

Lemma unique_get {V} (k : number) (v v' : V) m :
  unique_keys m -> In (k, v) m -> map_get k m = Some v' -> v = v'.
Proof.
  unfold unique_keys. induction m as [|[k0 v0] m IH]; simpl; [intros _ []|].
  intros U HI HG. inversion U as [|? ? Hn U']; subst.
  destruct (number_eqb k0 k) eqn:E.
  - apply number_eqb_eq in E. subst k0. inversion HG; subst.
    destruct HI as [H | H]; [now inversion H|].
    exfalso. apply Hn. now apply (in_map fst) in H.
  - destruct HI as [H | H].
    + inversion H. subst. now rewrite number_eqb_refl in E.
    + now apply IH.
Qed.

Lemma for_each_inv {A S} (body : A -> S -> result S) (P : S -> Prop) xs :
  (forall x s s', In x xs -> P s -> body x s = Ok s' -> P s') ->
  forall s s', P s -> for_each body xs s = Ok s' -> P s'.
Proof.
  induction xs as [|x xs IH]; simpl; intros Hb s s' Hs H.
  - inversion H. now subst.
  - destruct (body x s) as [s1|] eqn:E; simpl in H; [|discriminate].
    apply (IH (fun y t t' Hy => Hb y t t' (or_intror Hy)) s1 s');
      [|assumption].
    now apply (Hb x s s1 (or_introl eq_refl)).
Qed.

Lemma for_each_ok {A S} (body : A -> S -> result S) xs :
  (forall x s, In x xs -> exists s', body x s = Ok s') ->
  forall s, exists s', for_each body xs s = Ok s'.
Proof.
  induction xs as [|x xs IH]; simpl; intros Hb s.
  - now exists s.
  - destruct (Hb x s (or_introl eq_refl)) as [s1 E]. rewrite E. simpl.
    apply IH. intros y t Hy. apply Hb. now right.
Qed.

(** ** Pass 1 *)

Lemma grows_refl s : grows s s [] [] [].
Proof. unfold grows. simpl. tauto. Qed.

Lemma grows_trans s s1 s2 a b c a' b' c' :
  grows s s1 a b c -> grows s1 s2 a' b' c' ->
  grows s s2 (a ++ a') (b ++ b') (c ++ c').
Proof.
  intros (H1 & H2 & H3 & H4) (K1 & K2 & K3 & K4).
  split; [|split; [|split]].
  - intros v. rewrite K1, H1, in_app_iff. tauto.
  - intros v. rewrite K2, H2, in_app_iff. tauto.
  - intros v. rewrite K3, H3, in_app_iff. tauto.
  - intros D. now apply K4, H4.
Qed.

Lemma add_listed_grows member name l set set' :
  field member name = Ok l -> add_listed l set = Ok set' ->
  (forall v, In v set' <-> In v (listed_by member name) \/ In v set)
  /\ (distinct set = true -> distinct set' = true).
Proof.
  intros F A. unfold listed_by. rewrite F. unfold add_listed in A.
  destruct l as [l|].
  - destruct (truthy l) eqn:T.
    + destruct l; try discriminate. inversion A; subst. split.
      * intros v. apply In_add_each.
      * apply distinct_add_each.
    + inversion A; subst. destruct l; try discriminate; simpl; tauto.
  - inversion A; subst. simpl. tauto.
Qed.

Lemma scan_region_grows region s s' :
  scan_region region s = Ok s' ->
  grows s s' (listed_by region "solarSystemIDs")
             (listed_by region "constellationIDs") [].
Proof.
  unfold scan_region. intros H.
  destruct (field region "solarSystemIDs") as [ssi|] eqn:F1; simpl in H; [|discriminate].
  destruct (add_listed ssi (allSystemIds s)) as [sys|] eqn:A1; simpl in H; [|discriminate].
  destruct (field region "constellationIDs") as [ci|] eqn:F2; simpl in H; [|discriminate].
  destruct (add_listed ci (allConstellationIds s)) as [con|] eqn:A2; simpl in H; [|discriminate].
  inversion H; subst; clear H.
  destruct (add_listed_grows _ _ _ _ _ F1 A1) as [M1 D1].
  destruct (add_listed_grows _ _ _ _ _ F2 A2) as [M2 D2].
  unfold grows, all_distinct. simpl. repeat split; try apply M1; try apply M2;
    try tauto.
Qed.

Lemma scan_constellation_grows constellation s s' :
  scan_constellation constellation s = Ok s' ->
  grows s s' (listed_by constellation "solarSystemIDs") [] [].
Proof.
  unfold scan_constellation. intros H.
  destruct (field constellation "solarSystemIDs") as [ssi|] eqn:F1; simpl in H; [|discriminate].
  destruct (add_listed ssi (allSystemIds s)) as [sys|] eqn:A1; simpl in H; [|discriminate].
  inversion H; subst; clear H.
  destruct (add_listed_grows _ _ _ _ _ F1 A1) as [M1 D1].
  unfold grows, all_distinct. simpl. repeat split; try apply M1; try tauto.
Qed.

Lemma for_each_grows {A} (body : A -> IdSets -> result IdSets)
    (f g h : A -> list value) :
  (forall x s s', body x s = Ok s' -> grows s s' (f x) (g x) (h x)) ->
  forall xs s s', for_each body xs s = Ok s' ->
  grows s s' (flat_map f xs) (flat_map g xs) (flat_map h xs).
Proof.
  intros Hb. induction xs as [|x xs IH]; simpl; intros s s' H.
  - inversion H; subst. apply grows_refl.
  - destruct (body x s) as [s1|] eqn:E; simpl in H; [|discriminate].
    apply (grows_trans s s1 s'); [apply Hb, E | apply IH, H].
Qed.

Lemma flat_map_nil {A B} (xs : list A) : flat_map (fun _ => @nil B) xs = [].
Proof. induction xs; simpl; auto. Qed.

Lemma add_keys_grows o set :
  (forall v, In v (add_keys o set)
             <-> In v (map (fun id => Num (parseInt id)) (keys o)) \/ In v set)
  /\ (distinct set = true -> distinct (add_keys o set) = true).
Proof.
  unfold add_keys. split; [intros v; apply In_add_each | apply distinct_add_each].
Qed.

Lemma discover_regions_grows star s s' :
  discover_regions star s = Ok s' ->
  grows s s' (listed_ids star "regions" "solarSystemIDs")
             (listed_ids star "regions" "constellationIDs")
             (key_ids star "regions").
Proof.
  unfold discover_regions, listed_ids, key_ids, members, section_of.
  destruct (field star "regions") as [[rs|]|]; simpl; intros H;
    try discriminate; try (inversion H; subst; apply grows_refl).
  destruct (truthy rs); [|inversion H; subst; apply grows_refl].
  apply (for_each_grows _ _ _ (fun _ => []) scan_region_grows) in H.
  rewrite flat_map_nil in H.
  destruct H as (H1 & H2 & H3 & H4). destruct (add_keys_grows rs (allRegionIds s)) as [K D].
  unfold grows, all_distinct in *. simpl in *. split; [|split; [|split]].
  - apply H1.
  - apply H2.
  - intros v. rewrite H3, K. tauto.
  - intros D'. apply H4. tauto.
Qed.

Lemma discover_constellations_grows star s s' :
  discover_constellations star s = Ok s' ->
  grows s s' (listed_ids star "constellations" "solarSystemIDs")
             (key_ids star "constellations") [].
Proof.
  unfold discover_constellations, listed_ids, key_ids, members, section_of.
  destruct (field star "constellations") as [[cs|]|]; simpl; intros H;
    try discriminate; try (inversion H; subst; apply grows_refl).
  destruct (truthy cs); [|inversion H; subst; apply grows_refl].
  apply (for_each_grows _ _ (fun _ => []) (fun _ => []) scan_constellation_grows) in H.
  rewrite !flat_map_nil in H.
  destruct H as (H1 & H2 & H3 & H4).
  destruct (add_keys_grows cs (allConstellationIds s)) as [K D].
  unfold grows, all_distinct in *. simpl in *. split; [|split; [|split]].
  - apply H1.
  - intros v. rewrite H2, K. tauto.
  - apply H3.
  - intros D'. apply H4. tauto.
Qed.

Lemma discover_systems_grows star s s' :
  discover_systems star s = Ok s' ->
  grows s s' (key_ids star "solarSystems") [] [].
Proof.
  unfold discover_systems, key_ids, section_of.
  destruct (field star "solarSystems") as [[ss|]|]; simpl; intros H;
    try discriminate; try (inversion H; subst; apply grows_refl).
  destruct (truthy ss); inversion H; subst; [|apply grows_refl].
  destruct (add_keys_grows ss (allSystemIds s)) as [K D].
  unfold grows, all_distinct. simpl. split; [|split; [|split]];
    try apply K; tauto.
Qed.

Lemma discover_ids_grows star s :
  discover_ids star = Ok s ->
  grows (mkIdSets [] [] []) s
    (listed_ids star "regions" "solarSystemIDs"
       ++ listed_ids star "constellations" "solarSystemIDs"
       ++ key_ids star "solarSystems")
    (listed_ids star "regions" "constellationIDs"
       ++ key_ids star "constellations" ++ [])
    (key_ids star "regions" ++ [] ++ []).
Proof.
  unfold discover_ids. intros H.
  destruct (discover_regions star (mkIdSets [] [] [])) as [s1|] eqn:E1;
    simpl in H; [|discriminate].
  destruct (discover_constellations star s1) as [s2|] eqn:E2;
    simpl in H; [|discriminate].
  apply discover_regions_grows in E1.
  apply discover_constellations_grows in E2.
  apply discover_systems_grows in H.
  exact (grows_trans _ _ _ _ _ _ _ _ _ E1 (grows_trans _ _ _ _ _ _ _ _ _ E2 H)).
Qed.

Lemma field_not_null v name : not_null v = true -> exists r, field v name = Ok r.
Proof. destruct v; simpl; intros H; try discriminate; eauto. Qed.

Lemma add_listed_ok member name set :
  listed_shape member name = true ->
  exists l set', field member name = Ok l /\ add_listed l set = Ok set'.
Proof.
  unfold listed_shape. destruct (field member name) as [[l|]|]; intros H;
    try discriminate.
  - exists (Some l). unfold add_listed. destruct (truthy l); simpl in H.
    + destruct l; try discriminate. eauto.
    + eauto.
  - exists None. simpl. eauto.
Qed.

Lemma scan_region_ok region s :
  listed_shape region "solarSystemIDs" && listed_shape region "constellationIDs"
    = true ->
  exists s', scan_region region s = Ok s'.
Proof.
  intros H. apply andb_true_iff in H. destruct H as [H1 H2].
  destruct (add_listed_ok _ _ (allSystemIds s) H1) as (l1 & t1 & F1 & A1).
  destruct (add_listed_ok _ _ (allConstellationIds s) H2) as (l2 & t2 & F2 & A2).
  unfold scan_region. rewrite F1. simpl. rewrite A1. simpl. rewrite F2. simpl.
  rewrite A2. simpl. eauto.
Qed.

Lemma scan_constellation_ok constellation s :
  listed_shape constellation "solarSystemIDs" = true ->
  exists s', scan_constellation constellation s = Ok s'.
Proof.
  intros H1.
  destruct (add_listed_ok _ _ (allSystemIds s) H1) as (l1 & t1 & F1 & A1).
  unfold scan_constellation. rewrite F1. simpl. rewrite A1. simpl. eauto.
Qed.

Lemma discover_ids_ok star :
  starmap_shape star = true -> exists s, discover_ids star = Ok s.
Proof.
  unfold starmap_shape. intros H.
  apply andb_true_iff in H. destruct H as [H H3].
  apply andb_true_iff in H. destruct H as [H1 H2].
  rewrite forallb_forall in H2, H3.
  assert (R : forall s, exists s', discover_regions star s = Ok s').
  { intros s. unfold discover_regions.
    unfold members, section_of in H2.
    destruct (field_not_null _ "regions" H1) as [r F]. rewrite F in *. simpl.
    destruct r as [rs|]; [|eauto].
    destruct (truthy rs); [|eauto].
    apply for_each_ok. intros x t Hx. apply scan_region_ok. now apply H2. }
  assert (C : forall s, exists s', discover_constellations star s = Ok s').
  { intros s. unfold discover_constellations.
    unfold members, section_of in H3.
    destruct (field_not_null _ "constellations" H1) as [r F]. rewrite F in *. simpl.
    destruct r as [cs|]; [|eauto].
    destruct (truthy cs); [|eauto].
    apply for_each_ok. intros x t Hx. apply scan_constellation_ok. now apply H3. }
  assert (S : forall s, exists s', discover_systems star s = Ok s').
  { intros s. unfold discover_systems.
    destruct (field_not_null _ "solarSystems" H1) as [r F]. rewrite F. simpl.
    destruct r as [ss|]; [|eauto]. destruct (truthy ss); eauto. }
  unfold discover_ids.
  destruct (R (mkIdSets [] [] [])) as [s1 E1]. rewrite E1. simpl.
  destruct (C s1) as [s2 E2]. rewrite E2. simpl. apply S.
Qed.

(** C7. After identifier discovery the three sets are the deduplicated union
    of the identifiers seen at every level of the star-map catalogue: the
    region identifiers are the region keys; the constellation identifiers
    are those of the region-level [constellationIDs] lists and the
    constellation keys; the solar-system identifiers are those of the
    region-level and constellation-level [solarSystemIDs] lists and the keys
    of a top-level [solarSystems] listing.  On a catalogue of the expected
    shape the discovery does return its sets. *)
Theorem discovered_ids_are_the_union (starMapCache : value) :
  (forall s, discover_ids starMapCache = Ok s ->
     (forall v, In v (allRegionIds s) <-> In v (key_ids starMapCache "regions"))
     /\ (forall v, In v (allConstellationIds s) <->
            In v (listed_ids starMapCache "regions" "constellationIDs")
            \/ In v (key_ids starMapCache "constellations"))
     /\ (forall v, In v (allSystemIds s) <->
            In v (listed_ids starMapCache "regions" "solarSystemIDs")
            \/ In v (listed_ids starMapCache "constellations" "solarSystemIDs")
            \/ In v (key_ids starMapCache "solarSystems"))
     /\ all_distinct s)
  /\ (starmap_shape starMapCache = true ->
      exists s, discover_ids starMapCache = Ok s).
Proof.
  split; [|apply discover_ids_ok].
  intros s H. apply discover_ids_grows in H.
  destruct H as (H1 & H2 & H3 & H4). simpl in *.
  split; [|split; [|split]].
  - intros v. rewrite H3, !in_app_iff. simpl. tauto.
  - intros v. rewrite H2, !in_app_iff. simpl. tauto.
  - intros v. rewrite H1, !in_app_iff. simpl. tauto.
  - apply H4. unfold all_distinct. simpl. tauto.
Qed.

Lemma discovered_ids_are_the_union_sample :
  exists s,
    discover_ids sample_starmap = Ok s
    /\ In (Num (Int 30000004)) (allSystemIds s)
    /\ all_distinct s.
Proof.
  destruct (discovered_ids_are_the_union sample_starmap) as [U T].
  destruct (T eq_refl) as [s E]. exists s.
  destruct (U s E) as (_ & _ & HS & HD).
  split; [exact E|]. split; [|exact HD].
  apply HS. right. right. simpl. tauto.
Defined.

(** ** Pass 2 *)

Lemma strip_prefix_app p s r : strip_prefix p s = Some r -> s = p ++ r.
Proof.
  revert s. induction p as [|a p IH]; intros s; simpl.
  - intros H. now inversion H.
  - destruct s as [|b s]; [discriminate|].
    destruct (Ascii.eqb a b) eqn:E; [|discriminate].
    apply Ascii.eqb_eq in E. subst b. intros H. now rewrite (IH s H).
Qed.

Lemma take_digits_split s :
  exists rest,
    s = take_digits s ++ rest
    /\ take_digits (take_digits s) = take_digits s
    /\ take_digits rest = EmptyString.
Proof.
  induction s as [|c s (rest & E & I & R)]; simpl.
  - exists EmptyString. auto.
  - destruct (is_digit c) eqn:D.
    + exists rest. simpl. rewrite D, I. rewrite <- E. auto.
    + exists (String c s). simpl. rewrite D. auto.
Qed.

Lemma match_at_spec p s ds :
  match_at p s = Some ds ->
  exists rest,
    s = p ++ ds ++ rest /\ ds <> EmptyString
    /\ take_digits ds = ds /\ take_digits rest = EmptyString.
Proof.
  unfold match_at. destruct (strip_prefix p s) as [r|] eqn:E; [|discriminate].
  apply strip_prefix_app in E. subst s.
  destruct (take_digits_split r) as (rest & E & I & R).
  destruct (take_digits r) as [|c t] eqn:T; [discriminate|].
  intros H. inversion H; subst ds. exists rest.
  split; [now rewrite <- E|]. split; [discriminate|]. split; assumption.
Qed.

Lemma label_match_spec p s ds :
  label_match p s = Some ds ->
  exists before rest,
    s = before ++ p ++ ds ++ rest /\ ds <> EmptyString
    /\ take_digits ds = ds /\ take_digits rest = EmptyString.
Proof.
  induction s as [|c s IH]; simpl.
  - destruct (match_at p EmptyString) as [d|] eqn:M; [|discriminate].
    intros H. inversion H; subst d.
    destruct (match_at_spec _ _ _ M) as (rest & E & N & I & R).
    exists EmptyString, rest. auto.
  - destruct (match_at p (String c s)) as [d|] eqn:M.
    + intros H. inversion H; subst d.
      destruct (match_at_spec _ _ _ M) as (rest & E & N & I & R).
      exists EmptyString, rest. auto.
    + intros H. destruct (IH H) as (before & rest & E & N & I & R).
      exists (String c before), rest. simpl. rewrite <- E. auto.
Qed.

Lemma strict_eq_str_true v lit :
  strict_eq_str v lit = true -> v = Some (Str lit).
Proof.
  destruct v as [[]|]; simpl; try discriminate.
  intros H. apply String.eqb_eq in H. now subst.
Qed.

Lemma id_map_with k k' m ix :
  id_map k (with_id_map k' m ix) = if kind_eqb k k' then m else id_map k ix.
Proof. destruct k, k'; reflexivity. Qed.

Lemma kind_eqb_eq k k' : kind_eqb k k' = true -> k = k'.
Proof. destruct k, k'; simpl; congruence. Qed.

Lemma index_sound_weaken ids es x ix :
  index_sound ids es ix -> index_sound ids (x :: es) ix.
Proof.
  intros H k. destruct (H k) as [U S]. split; [assumption|].
  intros id mid I. destruct (S id mid I) as [M (m & e & l & d & A & B)].
  split; [assumption|]. exists m, e, l, d. split; [now right | assumption].
Qed.

Lemma index_branch_sound k ids es messageId entry label ix ix' :
  In (messageId, entry) es ->
  field entry "FullPath" = Ok (Some (Str (full_path k))) ->
  field entry "label" = Ok (Some label) ->
  index_sound ids es ix ->
  index_branch k ids messageId label ix = Ok ix' ->
  index_sound ids es ix'.
Proof.
  intros HI FP FL S. unfold index_branch.
  destruct label as [| | | |l| |]; try discriminate.
  destruct (label_match (label_prefix k) l) as [ds|] eqn:M;
    [|intros H; inversion H; now subst].
  destruct (set_has (Num (parseInt ds)) (id_set k ids)) eqn:E;
    [|intros H; inversion H; now subst].
  intros H. inversion H; subst ix'; clear H.
  intros k0. rewrite id_map_with. destruct (kind_eqb k0 k) eqn:K.
  - apply kind_eqb_eq in K. subst k0. destruct (S k) as [U Q]. split.
    + now apply unique_map_set.
    + intros id mid I. apply In_map_set in I. destruct I as [[-> ->] | I].
      * split; [assumption|]. exists messageId, entry, l, ds. auto 10.
      * now apply Q.
  - apply S.
Qed.

Lemma index_entry_sound ids es e ix ix' :
  In e es -> index_sound ids es ix -> index_entry ids e ix = Ok ix' ->
  index_sound ids es ix'.
Proof.
  destruct e as [messageId entry]. intros HI S. unfold index_entry.
  destruct (field entry "FullPath") as [fp|] eqn:FP; cbn [bind]; [|discriminate].
  destruct (field entry "label") as [lbl|] eqn:FL; cbn [bind]; [|discriminate].
  destruct (strict_eq_str fp (full_path System) && truthy_opt lbl) eqn:C1.
  { apply andb_true_iff in C1. destruct C1 as [C1 T].
    apply strict_eq_str_true in C1. subst fp.
    destruct lbl as [l|]; [|discriminate]. intros H.
    exact (index_branch_sound System ids es messageId entry l ix ix' HI FP FL S H). }
  destruct (strict_eq_str fp (full_path Constellation) && truthy_opt lbl) eqn:C2.
  { apply andb_true_iff in C2. destruct C2 as [C2 T].
    apply strict_eq_str_true in C2. subst fp.
    destruct lbl as [l|]; [|discriminate]. intros H.
    exact (index_branch_sound Constellation ids es messageId entry l ix ix' HI FP FL S H). }
  destruct (strict_eq_str fp (full_path Region) && truthy_opt lbl) eqn:C3.
  { apply andb_true_iff in C3. destruct C3 as [C3 T].
    apply strict_eq_str_true in C3. subst fp.
    destruct lbl as [l|]; [|discriminate]. intros H.
    exact (index_branch_sound Region ids es messageId entry l ix ix' HI FP FL S H). }
  intros H. inversion H. now subst.
Qed.

Lemma index_sound_empty ids es : index_sound ids es (mkMessageIndex [] [] []).
Proof.
  intros k. split.
  - destruct k; constructor.
  - intros id mid I. destruct k; destruct I.
Qed.

Lemma build_index_sound main ids ix :
  build_index main ids = Ok ix -> index_sound ids (index_entries main) ix.
Proof.
  unfold build_index, index_entries, section_of.
  destruct (field main "labels") as [[ls|]|]; simpl; try discriminate;
    try (intros H; inversion H; subst; apply index_sound_empty).
  destruct (truthy ls); [|intros H; inversion H; subst; apply index_sound_empty].
  apply for_each_inv; [|apply index_sound_empty].
  intros x s s' Hx. now apply index_entry_sound.
Qed.

Lemma indexed_by_link k id mid main :
  indexed_by k id mid (index_entries main) ->
  exists messageId, index_link k id messageId main /\ parseInt messageId = mid.
Proof.
  intros (m & e & l & d & A & B & C & D & E & F).
  unfold index_entries in A.
  destruct (section_of main "labels") as [labels|] eqn:L; [|destruct A].
  destruct (label_match_spec _ _ _ D) as (before & rest & E1 & N & I & R).
  exists m. split; [|assumption].
  exists labels, e, l, before, d, rest. auto 12.
Qed.

Lemma index_entry_ok ids messageId entry ix :
  entry_shape entry = true ->
  exists ix', index_entry ids (messageId, entry) ix = Ok ix'.
Proof.
  unfold entry_shape. intros H. apply andb_true_iff in H. destruct H as [N L].
  unfold index_entry.
  destruct (field_not_null entry "FullPath" N) as [fp FP]. rewrite FP. cbn [bind].
  destruct (field_not_null entry "label" N) as [lbl FL]. rewrite FL in *. cbn [bind].
  assert (B : forall k, truthy_opt lbl = true ->
            exists ix', match lbl with
                        | Some l => index_branch k ids messageId l ix
                        | None => Ok ix
                        end = Ok ix').
  { intros k T. destruct lbl as [l|]; [|eauto]. simpl in T. rewrite T in L.
    simpl in L. destruct l; try discriminate. unfold index_branch.
    destruct (label_match (label_prefix k) s); [|eauto].
    destruct (set_has _ _); eauto. }
  destruct (truthy_opt lbl) eqn:T; rewrite ?andb_true_r, ?andb_false_r.
  - destruct (strict_eq_str fp (full_path System)); [now apply B|].
    destruct (strict_eq_str fp (full_path Constellation)); [now apply B|].
    destruct (strict_eq_str fp (full_path Region)); [now apply B|]. eauto.
  - eauto.
Qed.

Lemma build_index_ok main ids :
  index_shape main = true -> exists ix, build_index main ids = Ok ix.
Proof.
  unfold index_shape, members, section_of, build_index. intros H.
  apply andb_true_iff in H. destruct H as [N H].
  destruct (field_not_null main "labels" N) as [r F]. rewrite F in *. simpl.
  destruct r as [ls|]; [|eauto]. destruct (truthy ls); [|eauto].
  rewrite forallb_forall in H. apply for_each_ok.
  intros [m e] ix Hx. apply index_entry_ok. apply H.
  unfold values. now apply (in_map snd) in Hx.
Qed.

(** ** Pass 3 *)

Lemma map_get_set_same {V} (k : number) (v : V) m :
  map_get k (map_set k v m) = Some v.
Proof.
  induction m as [|[k' v'] m IH]; simpl.
  - now rewrite number_eqb_refl.
  - destruct (number_eqb k' k) eqn:E; simpl; now rewrite E.
Qed.

Lemma map_get_set_other {V} (k k' : number) (v : V) m :
  number_eqb k k' = false -> map_get k' (map_set k v m) = map_get k' m.
Proof.
  intros N. induction m as [|[k0 v0] m IH]; simpl.
  - now rewrite N.
  - destruct (number_eqb k0 k) eqn:E; simpl.
    + apply number_eqb_eq in E. subst k0. now rewrite N.
    + now rewrite IH.
Qed.

Lemma resolve_entry_get data id0 mid0 l0 l1 :
  resolve_entry data (id0, mid0) l0 = Ok l1 ->
  forall id,
    map_get id l1 =
    if number_eqb id0 id
    then match first_name data mid0 with
         | Some name => Some name
         | None => map_get id l0
         end
    else map_get id l0.
Proof.
  unfold resolve_entry, first_name.
  destruct (index_opt data mid0) as [e|]; cbn [bind]; [|discriminate].
  intros H id.
  assert (K : l1 = l0 -> map_get id l1 =
              if number_eqb id0 id then map_get id l0 else map_get id l0).
  { intros ->. now destruct (number_eqb id0 id). }
  destruct e as [e|]; simpl in H; [|inversion H; subst; now apply K].
  destruct (truthy e) eqn:T; [|inversion H; subst].
  - destruct e; try (inversion H; subst; now apply K).
    destruct items as [|name items]; [inversion H; subst; now apply K|].
    destruct (truthy name) eqn:TN; simpl in H.
    + assert (NN : same_value_zero name Null = false)
        by (destruct name; simpl in *; congruence).
      rewrite NN in H. simpl in H. inversion H; subst.
      destruct (number_eqb id0 id) eqn:E.
      * apply number_eqb_eq in E. subst. apply map_get_set_same.
      * now apply map_get_set_other.
    + inversion H; subst. now apply K.
  - destruct e; try discriminate; now apply K.
Qed.

Lemma map_get_fresh {V} (k : number) (m : list (number * V)) :
  ~ In k (map fst m) -> map_get k m = None.
Proof.
  induction m as [|[k' v'] m IH]; simpl; [reflexivity|].
  intros H. destruct (number_eqb k' k) eqn:E.
  - apply number_eqb_eq in E. subst. exfalso. apply H. now left.
  - apply IH. intros I. apply H. now right.
Qed.

Lemma resolve_names_from data m :
  unique_keys m ->
  forall l0 l, for_each (resolve_entry data) m l0 = Ok l ->
  forall id,
    map_get id l =
    match map_get id m with
    | Some mid =>
        match first_name data mid with
        | Some name => Some name
        | None => map_get id l0
        end
    | None => map_get id l0
    end.
Proof.
  unfold unique_keys.
  induction m as [|[id0 mid0] m IH]; cbn [for_each map fst map_get];
    intros U l0 l H id.
  - inversion H. now subst.
  - inversion U as [|? ? Hn U']; subst.
    destruct (resolve_entry data (id0, mid0) l0) as [l1|] eqn:E; cbn [bind] in H;
      [|discriminate].
    rewrite (IH U' l1 l H id). rewrite (resolve_entry_get _ _ _ _ _ E id).
    destruct (number_eqb id0 id) eqn:Q.
    + apply number_eqb_eq in Q. subst id0.
      rewrite (map_get_fresh id m Hn). reflexivity.
    + reflexivity.
Qed.

Lemma resolve_names_get data m l :
  unique_keys m -> resolve_names data m = Ok l ->
  forall id,
    map_get id l =
    match map_get id m with
    | Some mid => first_name data mid
    | None => None
    end.
Proof.
  intros U H id. unfold resolve_names in H.
  rewrite (resolve_names_from data m U [] l H id). simpl.
  destruct (map_get id m) as [mid|]; [|reflexivity].
  now destruct (first_name data mid).
Qed.

Lemma resolve_all_get enus ix out :
  (forall k, unique_keys (id_map k ix)) ->
  resolve_all enus ix = Ok out ->
  exists data,
    index enus (Int 1) = Ok data
    /\ forall k id,
         map_get id (label_map k out) =
         match map_get id (id_map k ix) with
         | Some mid => first_name data mid
         | None => None
         end.
Proof.
  intros U. unfold resolve_all.
  destruct (index enus (Int 1)) as [data|]; cbn [bind]; [|discriminate].
  destruct (resolve_names data (systemIdToMessageId ix)) as [sys|] eqn:E1;
    cbn [bind]; [|discriminate].
  destruct (resolve_names data (constellationIdToMessageId ix)) as [con|] eqn:E2;
    cbn [bind]; [|discriminate].
  destruct (resolve_names data (regionIdToMessageId ix)) as [reg|] eqn:E3;
    cbn [bind]; [|discriminate].
  intros H. inversion H; subst out; clear H. exists data. split; [reflexivity|].
  intros [] id; simpl.
  - exact (resolve_names_get _ _ _ (U System) E1 id).
  - exact (resolve_names_get _ _ _ (U Constellation) E2 id).
  - exact (resolve_names_get _ _ _ (U Region) E3 id).
Qed.

Lemma first_name_link enus data mid name :
  index enus (Int 1) = Ok data ->
  first_name data mid = Some name ->
  string_link mid name enus /\ truthy name = true.
Proof.
  unfold first_name, string_link. intros E.
  destruct data as [d|]; simpl; [|discriminate].
  destruct (index d mid) as [[[]|]|] eqn:I; try discriminate.
  destruct items as [|x items]; [discriminate|].
  destruct (truthy x) eqn:T; [|discriminate].
  intros H. inversion H; subst x. split; [|assumption].
  exists d, items. auto.
Qed.

Lemma link_first_name enus data mid first :
  index enus (Int 1) = Ok data ->
  string_link mid first enus ->
  first_name data mid = if truthy first then Some first else None.
Proof.
  intros E (d & rest & E' & I). rewrite E in E'. inversion E'; subst data.
  unfold first_name. simpl. now rewrite I.
Qed.

Lemma resolve_entry_ok d e l :
  not_null d = true -> exists l', resolve_entry (Some d) e l = Ok l'.
Proof.
  intros N. destruct e as [id mid]. unfold resolve_entry. simpl.
  assert (I : exists r, index d mid = Ok r).
  { destruct d; simpl in *; try discriminate; eauto;
      destruct mid; try destruct (z <? 0); eauto. }
  destruct I as [r I]. rewrite I. cbn [bind].
  destruct (truthy_opt r); [|eauto].
  destruct r as [[]|]; eauto. destruct items as [|name items]; [eauto|].
  destruct (truthy name && negb (same_value_zero name Null)); eauto.
Qed.

Lemma resolve_all_ok enus ix :
  strings_shape enus = true -> exists out, resolve_all enus ix = Ok out.
Proof.
  unfold strings_shape, resolve_all. destruct (index enus (Int 1)) as [[d|]|];
    try discriminate. intros N. cbn [bind].
  assert (R : forall m, exists l, resolve_names (Some d) m = Ok l).
  { intros m. apply for_each_ok. intros e l _. now apply resolve_entry_ok. }
  destruct (R (systemIdToMessageId ix)) as [l1 E1]. rewrite E1. cbn [bind].
  destruct (R (constellationIdToMessageId ix)) as [l2 E2]. rewrite E2. cbn [bind].
  destruct (R (regionIdToMessageId ix)) as [l3 E3]. rewrite E3. cbn [bind].
  eauto.
Qed.

Lemma resolve_labels_stages star main enus out :
  resolve_labels star main enus = Ok out ->
  exists ids ix,
    discover_ids star = Ok ids /\ build_index main ids = Ok ix
    /\ resolve_all enus ix = Ok out.
Proof.
  unfold resolve_labels.
  destruct (discover_ids star) as [ids|] eqn:E1; cbn [bind]; [|discriminate].
  destruct (build_index main ids) as [ix|] eqn:E2; cbn [bind]; [|discriminate].
  intros H. exists ids, ix. auto.
Qed.

Lemma resolve_labels_ok star main enus :
  starmap_shape star = true -> index_shape main = true ->
  strings_shape enus = true ->
  exists out, resolve_labels star main enus = Ok out.
Proof.
  intros H1 H2 H3. unfold resolve_labels.
  destruct (discover_ids_ok star H1) as [ids E1]. rewrite E1. cbn [bind].
  destruct (build_index_ok main ids H2) as [ix E2]. rewrite E2. cbn [bind].
  now apply resolve_all_ok.
Qed.

Lemma truthy_not_null name : truthy name = true -> name <> Null.
Proof. intros T ->. discriminate. Qed.

(** ** The claims on the resolved labels *)

(** C1, amended.  For every object kind and every integer identifier, the
    identifier is in the label map of the kind only if the three links
    resolve: it is a member of the identifier set discovered for the kind;
    an entry of the localization index has the path tag of the kind and a
    label in which the prefix of the kind occurs, anywhere, followed by a
    run of digits that [parseInt] reads as the identifier; and the string
    table has at the message id of that entry an array whose first element
    is not null.  An identifier with a missing link is therefore absent,
    and on catalogues of the expected shape, with a string table at element
    1 of the English document among them, the resolution ends without an
    error. *)
Theorem label_only_if_three_links (k : kind)
    (starMapCache mainLocalization enUsLocalization : value) :
  (forall out (id : Z) name,
     resolve_labels starMapCache mainLocalization enUsLocalization = Ok out ->
     map_get (Int id) (label_map k out) = Some name ->
     exists ids messageId,
       discover_ids starMapCache = Ok ids
       /\ In (Num (Int id)) (id_set k ids)
       /\ index_link k (Int id) messageId mainLocalization
       /\ string_link (parseInt messageId) name enUsLocalization
       /\ name <> Null)
  /\ (starmap_shape starMapCache = true ->
      index_shape mainLocalization = true ->
      strings_shape enUsLocalization = true ->
      exists out,
        resolve_labels starMapCache mainLocalization enUsLocalization = Ok out).
Proof.
  split; [|apply resolve_labels_ok].
  intros out id name H G.
  destruct (resolve_labels_stages _ _ _ _ H) as (ids & ix & E1 & E2 & E3).
  pose proof (build_index_sound _ _ _ E2) as S.
  destruct (resolve_all_get _ _ _ (fun k => proj1 (S k)) E3) as (data & ED & Q).
  rewrite Q in G.
  destruct (map_get (Int id) (id_map k ix)) as [mid|] eqn:M; [|discriminate].
  apply map_get_In in M. destruct (S k) as [_ R].
  destruct (R _ _ M) as [HS HI].
  destruct (indexed_by_link _ _ _ _ HI) as (messageId & L & P).
  destruct (first_name_link _ _ _ _ ED G) as [SL T].
  exists ids, messageId. subst mid.
  split; [assumption|]. split; [now apply set_has_num|].
  split; [assumption|]. split; [assumption|]. now apply truthy_not_null.
Qed.

Lemma label_only_if_three_links_sample :
  exists out,
    resolve_labels sample_starmap sample_index sample_strings = Ok out
    /\ map_get (Int 30000001) (label_map System out) = Some (Str "Jita")
    /\ exists messageId,
         index_link System (Int 30000001) messageId sample_index
         /\ string_link (parseInt messageId) (Str "Jita") sample_strings.
Proof.
  destruct (label_only_if_three_links System sample_starmap sample_index
              sample_strings) as [L T].
  destruct (T eq_refl eq_refl eq_refl) as [out E]. exists out.
  assert (G : map_get (Int 30000001) (label_map System out) = Some (Str "Jita")).
  { vm_compute in E. inversion E. reflexivity. }
  split; [exact E|]. split; [exact G|].
  destruct (L out 30000001 (Str "Jita") E G) as (ids & m & _ & _ & A & B & _).
  exists m. split; assumption.
Defined.

(** C1, as the specification words it, fails on three counts.  A label
    that holds the pattern between other characters names the identifier
    12, and no label has 12 as its numeric suffix.  A label whose suffix is
    2^53 + 1 names the identifier 2^53, the nearest double, and not its
    suffix.  And with a missing link, here an English document without a
    string table, an error is raised. *)
Lemma label_needs_no_numeric_suffix :
  (resolve_labels loose_starmap loose_index loose_strings
   = Ok (mkStellarLabels [(Int 12, Str "Twelve")] [] [])
   /\ ~ suffix_link System 12 loose_index)
  /\ (resolve_labels wide_starmap wide_index loose_strings
      = Ok (mkStellarLabels [(Int 9007199254740992, Str "Twelve")] [] [])
      /\ ~ suffix_link System 9007199254740992 wide_index)
  /\ resolve_labels loose_starmap loose_index (Arr [Str "en-us"]) = Thrown.
Proof.
  split; [|split]; [split; [reflexivity|] | split; [reflexivity|] | reflexivity].
  - intros (labels & m & e & d & S & I & _ & L & _).
    injection S as <-. destruct I as [I | []]. injection I as <- <-.
    discriminate L.
  - intros (labels & m & e & d & S & I & _ & L & _ & _ & D).
    injection S as <-. destruct I as [I | []]. injection I as <- <-.
    injection L as <-. discriminate D.
Qed.

(** C9. For every object kind, an identifier whose resolved string-table
    entry has a falsy first element, the empty string in particular, is left
    out of the label map although that element is not null; only
    identifiers whose first element is truthy are emitted. *)
Theorem falsy_first_element_is_excluded (k : kind)
    (starMapCache mainLocalization enUsLocalization : value)
    (ids : IdSets) (ix : MessageIndex) (out : StellarLabels) (id : number) :
  discover_ids starMapCache = Ok ids ->
  build_index mainLocalization ids = Ok ix ->
  resolve_all enUsLocalization ix = Ok out ->
  (forall messageId first,
     map_get id (id_map k ix) = Some messageId ->
     string_link messageId first enUsLocalization ->
     truthy first = false ->
     map_get id (label_map k out) = None)
  /\ (forall messageId,
        map_get id (id_map k ix) = Some messageId ->
        string_link messageId (Str "") enUsLocalization ->
        Str "" <> Null /\ map_get id (label_map k out) = None)
  /\ (forall name,
        map_get id (label_map k out) = Some name ->
        exists messageId,
          map_get id (id_map k ix) = Some messageId
          /\ string_link messageId name enUsLocalization
          /\ truthy name = true).
Proof.
  intros E1 E2 E3.
  pose proof (build_index_sound _ _ _ E2) as S.
  destruct (resolve_all_get _ _ _ (fun k => proj1 (S k)) E3) as (data & ED & Q).
  assert (F : forall messageId first,
            map_get id (id_map k ix) = Some messageId ->
            string_link messageId first enUsLocalization ->
            truthy first = false ->
            map_get id (label_map k out) = None).
  { intros mid first M L T. rewrite Q, M.
    rewrite (link_first_name _ _ _ _ ED L). now rewrite T. }
  split; [exact F|]. split.
  - intros mid M L. split; [discriminate|]. now apply (F mid (Str "")).
  - intros name G. rewrite Q in G.
    destruct (map_get id (id_map k ix)) as [mid|]; [|discriminate].
    exists mid. split; [reflexivity|]. now apply (first_name_link _ _ _ _ ED).
Qed.

Lemma falsy_first_element_is_excluded_sample :
  exists out,
    resolve_labels sample_starmap sample_index sample_strings = Ok out
    /\ map_get (Int 30000003) (label_map System out) = None
    /\ map_get (Int 30000001) (label_map System out) = Some (Str "Jita").
Proof.
  destruct (resolve_labels_ok sample_starmap sample_index sample_strings
              eq_refl eq_refl eq_refl) as [out E].
  destruct (resolve_labels_stages _ _ _ _ E) as (ids & ix & E1 & E2 & E3).
  exists out. split; [exact E|].
  destruct (falsy_first_element_is_excluded System _ _ _ ids ix out
              (Int 30000003) E1 E2 E3) as (_ & F & _).
  assert (M : map_get (Int 30000003) (id_map System ix) = Some (Int 501)).
  { vm_compute in E1. inversion E1; subst ids.
    vm_compute in E2. inversion E2; subst ix. reflexivity. }
  split.
  - apply (F (Int 501) M).
    exists (Obj [("500", Arr [Str "Jita"; Null]); ("501", Arr [Str ""]);
                 ("502", Arr [Str "The Forge"]); ("503", Arr [Null])]), [].
    split; reflexivity.
  - vm_compute in E. inversion E. reflexivity.
Defined.

(** C10. Name resolution never reads the top level of the English
    string-table document: every lookup is made in the element at index 1
    of the document, so the labels depend on the document through that
    element alone, and an entry keyed by message id at the top level of the
    document is not used for the label map of any kind. *)
Theorem only_element_one_is_consulted
    (starMapCache mainLocalization : value) :
  (forall doc doc',
     index doc (Int 1) = index doc' (Int 1) ->
     resolve_labels starMapCache mainLocalization doc
     = resolve_labels starMapCache mainLocalization doc')
  /\ (forall doc k ids ix out id messageId,
        discover_ids starMapCache = Ok ids ->
        build_index mainLocalization ids = Ok ix ->
        resolve_all doc ix = Ok out ->
        map_get id (id_map k ix) = Some messageId ->
        (forall name, ~ string_link messageId name doc) ->
        map_get id (label_map k out) = None)
  /\ (index flat_strings (Int 500) = Ok (Some (Arr [Str "Jita"]))
      /\ resolve_labels sample_starmap sample_index flat_strings
         = Ok (mkStellarLabels [] [] [])).
Proof.
  split; [|split].
  - intros doc doc' E. unfold resolve_labels, resolve_all. now rewrite E.
  - intros doc k ids ix out id mid E1 E2 E3 M N.
    pose proof (build_index_sound _ _ _ E2) as S.
    destruct (resolve_all_get _ _ _ (fun k => proj1 (S k)) E3) as (data & ED & Q).
    rewrite Q, M. destruct (first_name data mid) as [name|] eqn:F; [|reflexivity].
    exfalso. apply (N name). now apply (first_name_link _ _ _ _ ED F).
  - split; reflexivity.
Qed.

Lemma only_element_one_is_consulted_sample :
  resolve_labels sample_starmap sample_index
    (Obj [("1", Obj []); ("500", Arr [Str "Jita"])])
  = resolve_labels sample_starmap sample_index (Arr [Null; Obj []]).
Proof.
  apply (proj1 (only_element_one_is_consulted sample_starmap sample_index)).
  reflexivity.
Defined.

(** ** Integers and doubles *)

Lemma pow2_53 : 2 ^ 53 = 9007199254740992.
Proof. reflexivity. Qed.

Lemma to_double_small z : Z.abs z < 2 ^ 53 -> to_double z = Int z.
Proof.
  intros H. unfold to_double. apply Z.ltb_lt in H. now rewrite H.
Qed.

(** A multiple [q * 2^k] of a power of two by a significand of fifty-three
    bits is a double. *)
Lemma to_double_grid q k (negative : bool) :
  2 ^ 52 <= q <= 2 ^ 53 -> 1 <= k -> q * 2 ^ k < 2 ^ 1024 ->
  to_double (if negative then - (q * 2 ^ k) else q * 2 ^ k)
  = Int (if negative then - (q * 2 ^ k) else q * 2 ^ k).
Proof.
  intros Q K B.
  assert (P : 2 <= 2 ^ k).
  { change 2 with (2 ^ 1) at 1. apply Z.pow_le_mono_r; lia. }
  set (m := q * 2 ^ k) in *.
  assert (M : 2 ^ 53 <= m).
  { change (2 ^ 53) with (2 ^ 52 * 2). unfold m. nia. }
  assert (A : Z.abs (if negative then - m else m) = m)
    by (destruct negative; lia).
  assert (S : ((if negative then - m else m) <? 0) = negative).
  { destruct negative; [apply Z.ltb_lt | apply Z.ltb_ge]; lia. }
  unfold to_double. rewrite A, S.
  destruct (m <? 2 ^ 53) eqn:E; [apply Z.ltb_lt in E; lia|]. clear E.
  assert (G : forall q0 k0,
            m = q0 * 2 ^ k0 -> 1 <= k0 -> Z.log2 m - 52 = k0 ->
            (if 2 ^ 1024 <=?
                Z.shiftl
                  (if (Z.shiftl 1 (k0 - 1) <? m - Z.shiftl (Z.shiftr m k0) k0)
                      || ((m - Z.shiftl (Z.shiftr m k0) k0 =? Z.shiftl 1 (k0 - 1))
                          && Z.odd (Z.shiftr m k0))
                   then Z.shiftr m k0 + 1 else Z.shiftr m k0) k0
             then Inf negative
             else Int (if negative
                       then - Z.shiftl
                              (if (Z.shiftl 1 (k0 - 1)
                                   <? m - Z.shiftl (Z.shiftr m k0) k0)
                                  || ((m - Z.shiftl (Z.shiftr m k0) k0
                                       =? Z.shiftl 1 (k0 - 1))
                                      && Z.odd (Z.shiftr m k0))
                               then Z.shiftr m k0 + 1 else Z.shiftr m k0) k0
                       else Z.shiftl
                              (if (Z.shiftl 1 (k0 - 1)
                                   <? m - Z.shiftl (Z.shiftr m k0) k0)
                                  || ((m - Z.shiftl (Z.shiftr m k0) k0
                                       =? Z.shiftl 1 (k0 - 1))
                                      && Z.odd (Z.shiftr m k0))
                               then Z.shiftr m k0 + 1 else Z.shiftr m k0) k0))
            = Int (if negative then - m else m)).
  { intros q0 k0 E K0 _.
    assert (P0 : 0 < 2 ^ k0) by (apply Z.pow_pos_nonneg; lia).
    assert (H0 : 0 < 2 ^ (k0 - 1)) by (apply Z.pow_pos_nonneg; lia).
    rewrite Z.shiftr_div_pow2 by lia.
    assert (D : m / 2 ^ k0 = q0) by (rewrite E; apply Z.div_mul; lia).
    rewrite D. rewrite !Z.shiftl_mul_pow2 by lia. rewrite <- E.
    rewrite Z.sub_diag, Z.mul_1_l.
    destruct (2 ^ (k0 - 1) <? 0) eqn:E1; [apply Z.ltb_lt in E1; lia|].
    destruct (0 =? 2 ^ (k0 - 1)) eqn:E2; [apply Z.eqb_eq in E2; lia|].
    cbn [orb andb]. rewrite <- E.
    destruct (2 ^ 1024 <=? m) eqn:E3; [apply Z.leb_le in E3; lia|].
    reflexivity. }
  destruct (Z.eq_dec q (2 ^ 53)) as [T|T].
  - assert (L : Z.log2 m = 53 + k).
    { apply Z.log2_unique; [lia|]. unfold m. rewrite T.
      rewrite <- Z.pow_add_r by lia. split; [lia|].
      apply Z.pow_lt_mono_r; lia. }
    rewrite L. replace (53 + k - 52) with (k + 1) by lia.
    apply (G (2 ^ 52) (k + 1)); [|lia|lia].
    unfold m. rewrite T. rewrite Z.pow_add_r by lia.
    change (2 ^ 53) with (2 ^ 52 * 2 ^ 1). ring.
  - assert (L : Z.log2 m = 52 + k).
    { apply Z.log2_unique; [lia|]. unfold m, Z.succ.
      replace (52 + k + 1) with (53 + k) by lia.
      rewrite !Z.pow_add_r by lia. split; nia. }
    rewrite L. replace (52 + k - 52) with k by lia.
    apply (G q k); [reflexivity | lia | lia].
Qed.

(** The significand that [to_double] rounds has fifty-three bits. *)
Lemma significand_bounds a :
  2 ^ 53 <= a ->
  let k := Z.log2 a - 52 in
  1 <= k /\ 2 ^ 52 <= Z.shiftr a k < 2 ^ 53.
Proof.
  intros A k.
  assert (L : 53 <= Z.log2 a).
  { change 53 with (Z.log2 (2 ^ 53)). now apply Z.log2_le_mono. }
  assert (K : 1 <= k) by (unfold k; lia).
  split; [assumption|].
  assert (P : 0 < 2 ^ k) by (apply Z.pow_pos_nonneg; lia).
  destruct (Z.log2_spec a) as [S1 S2]; [lia|].
  replace (Z.log2 a) with (52 + k) in S1 by (unfold k; lia).
  replace (Z.succ (Z.log2 a)) with (53 + k) in S2 by (unfold k; lia).
  rewrite Z.pow_add_r in S1, S2 by lia.
  rewrite Z.shiftr_div_pow2 by lia. split.
  - apply Z.div_le_lower_bound; lia.
  - apply Z.div_lt_upper_bound; lia.
Qed.

(** What [to_double] gives: the integer itself when it is small, and
    otherwise an infinity or a multiple of a power of two by a significand
    of fifty-three bits, on the side of zero where the integer is. *)
Lemma to_double_cases z :
  (Z.abs z < 2 ^ 53 /\ to_double z = Int z)
  \/ (2 ^ 53 <= Z.abs z
      /\ (to_double z = Inf (z <? 0)
          \/ exists q k,
               2 ^ 52 <= q <= 2 ^ 53 /\ 1 <= k /\ q * 2 ^ k < 2 ^ 1024
               /\ to_double z
                  = Int (if z <? 0 then - (q * 2 ^ k) else q * 2 ^ k))).
Proof.
  unfold to_double.
  destruct (Z.abs z <? 2 ^ 53) eqn:E; [left; apply Z.ltb_lt in E; auto|]. right.
  apply Z.ltb_ge in E. split; [assumption|].
  destruct (significand_bounds _ E) as [K Q].
  set (k := Z.log2 (Z.abs z) - 52) in *.
  set (q := Z.shiftr (Z.abs z) k) in *.
  set (q' := if _ : bool then q + 1 else q).
  assert (Q' : 2 ^ 52 <= q' <= 2 ^ 53) by (unfold q'; destruct (_ || _); lia).
  rewrite Z.shiftl_mul_pow2 by lia.
  destruct (2 ^ 1024 <=? q' * 2 ^ k) eqn:B; [now left|]. right.
  apply Z.leb_gt in B. exists q', k. auto.
Qed.

Lemma to_double_is_double z : is_double (to_double z).
Proof.
  destruct (to_double_cases z) as [[_ E] | [_ [E | (q & k & Q & K & B & E)]]];
    rewrite E; simpl; try exact I.
  - exact E.
  - now apply to_double_grid.
Qed.

Lemma to_double_abs z :
  to_double z = Int z -> to_double (Z.abs z) = Int (Z.abs z).
Proof.
  intros D. destruct (Z.le_gt_cases 0 z) as [P|N]; [now rewrite Z.abs_eq|].
  destruct (to_double_cases z) as [[S _] | [_ [E | (q & k & Q & K & B & E)]]].
  - apply to_double_small. now rewrite Z.abs_idemp.
  - congruence.
  - rewrite D in E. assert (Z : (z <? 0) = true) by (apply Z.ltb_lt; lia).
    rewrite Z in E. injection E as E'. clear D Z. subst z.
    replace (Z.abs (- (q * 2 ^ k))) with (q * 2 ^ k)
      by (assert (0 < 2 ^ k) by (apply Z.pow_pos_nonneg; lia); nia).
    exact (to_double_grid q k false Q K B).
Qed.

Lemma to_double_opp z :
  to_double z = Int z -> to_double (- z) = Int (- z).
Proof.
  intros D.
  destruct (to_double_cases z) as [[S _] | [_ [E | (q & k & Q & K & B & E)]]].
  - apply to_double_small. now rewrite Z.abs_opp.
  - congruence.
  - rewrite D in E. injection E as E'. rewrite E' at 1 2.
    destruct (z <? 0).
    + rewrite Z.opp_involutive. exact (to_double_grid q k false Q K B).
    + exact (to_double_grid q k true Q K B).
Qed.

(** The nearest double of a natural number is not negative. *)
Lemma to_double_nonneg z :
  0 <= z ->
  to_double z = Inf false \/ exists n, to_double z = Int n /\ 0 <= n.
Proof.
  intros P. assert (Z : (z <? 0) = false) by (apply Z.ltb_ge; lia).
  destruct (to_double_cases z) as [[_ E] | [_ [E | (q & k & Q & K & B & E)]]];
    rewrite E, ?Z; [right; eauto | now left |].
  right. eexists. split; [reflexivity|].
  assert (0 < 2 ^ k) by (apply Z.pow_pos_nonneg; lia). nia.
Qed.

(** ** Decimal digits *)

Lemma is_digit_facts c :
  is_digit c = true ->
  is_white c = false
  /\ digit_val 10 c = Some (Z.of_nat (nat_of_ascii c) - 48)
  /\ 0 <= Z.of_nat (nat_of_ascii c) - 48 <= 9
  /\ (c = "0"%char \/ exists d, d <> "0"%char /\ c = d
                               /\ Ascii.eqb d "-" = false
                               /\ Ascii.eqb d "+" = false).
Proof.
  destruct c as [[] [] [] [] [] [] [] []]; vm_compute; intros H;
    try discriminate H;
    (split; [reflexivity|]); (split; [reflexivity|]);
    (split; [split; discriminate|]);
    try (left; reflexivity);
    right; eexists; (split; [|split; [reflexivity|split; reflexivity]]);
    discriminate.
Qed.

Lemma take_digits_head c r :
  take_digits (String c r) = String c r ->
  is_digit c = true /\ take_digits r = r.
Proof.
  simpl. destruct (is_digit c); [|discriminate].
  intros H. inversion H as [E]. rewrite E. auto.
Qed.

Lemma read_digits_decimal s acc :
  take_digits s = s ->
  read_digits 10 s (Some acc) = Some (decimal_from acc s).
Proof.
  revert acc. induction s as [|c r IH]; intros acc T; [reflexivity|].
  destruct (take_digits_head _ _ T) as [D T'].
  destruct (is_digit_facts c D) as (_ & V & _).
  cbn [read_digits decimal_from]. rewrite V. now apply IH.
Qed.

Lemma decimal_from_nonneg s acc :
  take_digits s = s -> 0 <= acc -> 0 <= decimal_from acc s.
Proof.
  revert acc. induction s as [|c r IH]; intros acc T A; [assumption|].
  destruct (take_digits_head _ _ T) as [D T'].
  destruct (is_digit_facts c D) as (_ & _ & B & _).
  cbn [decimal_from]. apply IH; [assumption | lia].
Qed.

Lemma read_digits_start s :
  s <> EmptyString -> take_digits s = s ->
  read_digits 10 s None = Some (decimal s).
Proof.
  destruct s as [|c r]; [congruence|]. intros _ T.
  destruct (take_digits_head _ _ T) as [D T'].
  destruct (is_digit_facts c D) as (_ & V & _).
  unfold decimal. cbn [read_digits decimal_from]. rewrite V.
  now apply read_digits_decimal.
Qed.

(** A string of digits is not taken for a hexadecimal literal. *)
Lemma no_hex_prefix s :
  take_digits s = s ->
  match s with
  | String "0" (String "x" r) => (16, r)
  | String "0" (String "X" r) => (16, r)
  | _ => (10, s)
  end = (10, s).
Proof.
  intros T. destruct s as [|c r]; [reflexivity|].
  destruct (take_digits_head _ _ T) as [D T'].
  destruct r as [|c2 r2].
  - destruct c as [[] [] [] [] [] [] [] []]; reflexivity.
  - destruct (take_digits_head _ _ T') as [D2 _].
    destruct c2 as [[] [] [] [] [] [] [] []]; try discriminate D2;
      destruct c as [[] [] [] [] [] [] [] []]; reflexivity.
Qed.

Lemma string_of_uint_digits d :
  take_digits (NilEmpty.string_of_uint d) = NilEmpty.string_of_uint d.
Proof.
  induction d; simpl; try reflexivity;
    change (is_digit _) with true; cbv iota; now rewrite IHd.
Qed.

Lemma decimal_from_acc d :
  forall p,
    decimal_from (Z.pos p) (NilEmpty.string_of_uint d)
    = Z.pos (Pos.of_uint_acc d p).
Proof.
  induction d; intros p; cbn [NilEmpty.string_of_uint decimal_from Pos.of_uint_acc];
    try reflexivity;
    rewrite <- IHd; f_equal;
    match goal with
    | |- context [Z.of_nat (nat_of_ascii ?c)] =>
        let v := eval vm_compute in (Z.of_nat (nat_of_ascii c)) in
        change (Z.of_nat (nat_of_ascii c)) with v
    end; lia.
Qed.

Lemma decimal_of_uint d :
  decimal (NilEmpty.string_of_uint d) = Z.of_N (Pos.of_uint d).
Proof.
  unfold decimal.
  induction d; cbn [NilEmpty.string_of_uint decimal_from Pos.of_uint];
    try reflexivity;
    try (match goal with
         | |- context [Z.of_nat (nat_of_ascii ?c)] =>
             let v := eval vm_compute in (10 * 0 + (Z.of_nat (nat_of_ascii c) - 48)) in
             change (10 * 0 + (Z.of_nat (nat_of_ascii c) - 48)) with v
         end);
    [exact IHd | apply decimal_from_acc ..].
Qed.

Lemma string_of_uint_nonempty d :
  d <> Decimal.Nil -> NilEmpty.string_of_uint d <> EmptyString.
Proof. destruct d; simpl; congruence. Qed.

Lemma parseInt_digits s :
  s <> EmptyString -> take_digits s = s -> parseInt s = to_double (decimal s).
Proof.
  intros N T. unfold parseInt.
  destruct s as [|c r]; [congruence|].
  destruct (take_digits_head _ _ T) as [D T'].
  destruct (is_digit_facts c D) as (W & _ & _ & _).
  cbn [skip_white]. rewrite W.
  assert (S : match String c r with
              | String "-" r0 => (true, r0)
              | String "+" r0 => (false, r0)
              | _ => (false, String c r)
              end = (false, String c r)).
  { destruct c as [[] [] [] [] [] [] [] []]; try discriminate D; reflexivity. }
  rewrite S. rewrite (no_hex_prefix _ T).
  now rewrite (read_digits_start _ N T).
Qed.

Lemma parseInt_minus_digits s :
  s <> EmptyString -> take_digits s = s ->
  parseInt (String "-" s) = to_double (- decimal s).
Proof.
  intros N T. unfold parseInt. cbn [skip_white].
  change (is_white "-") with false. cbv iota.
  rewrite (no_hex_prefix _ T). now rewrite (read_digits_start _ N T).
Qed.

(** Whatever it reads, [parseInt] gives a double. *)
Lemma parseInt_is_double s : is_double (parseInt s).
Proof.
  unfold parseInt.
  destruct (match skip_white s with
            | String "-" r => (true, r)
            | String "+" r => (false, r)
            | _ => (false, skip_white s)
            end) as [neg s2].
  destruct (match s2 with
            | String "0" (String "x" r) => (16, r)
            | String "0" (String "X" r) => (16, r)
            | _ => (10, s2)
            end) as [radix s3].
  destruct (read_digits radix s3 None); [apply to_double_is_double | exact I].
Qed.

(** ** The text of a number *)

Lemma decimal_text_pos p :
  decimal_text (Z.pos p) = NilEmpty.string_of_uint (Pos.to_uint p).
Proof.
  unfold decimal_text. simpl Z.to_int. unfold NilZero.string_of_int.
  pose proof (DecimalPos.Unsigned.to_uint_nonnil p) as N.
  unfold NilZero.string_of_uint. destruct (Pos.to_uint p); congruence.
Qed.

Lemma decimal_text_nonneg v :
  0 <= v ->
  decimal_text v <> EmptyString
  /\ take_digits (decimal_text v) = decimal_text v
  /\ decimal (decimal_text v) = v.
Proof.
  intros P. destruct v as [|p|p]; [repeat split; discriminate| |lia].
  rewrite decimal_text_pos.
  pose proof (DecimalPos.Unsigned.to_uint_nonnil p) as N.
  split; [now apply string_of_uint_nonempty|].
  split; [apply string_of_uint_digits|].
  now rewrite decimal_of_uint, DecimalPos.Unsigned.of_to.
Qed.

Lemma decimal_text_neg v :
  v < 0 -> decimal_text v = String "-" (decimal_text (- v)).
Proof.
  intros N. destruct v as [|p|p]; try lia.
  change (- Z.neg p) with (Z.pos p). rewrite decimal_text_pos.
  unfold decimal_text. simpl Z.to_int. unfold NilZero.string_of_int.
  pose proof (DecimalPos.Unsigned.to_uint_nonnil p) as U.
  unfold NilZero.string_of_uint. destruct (Pos.to_uint p); congruence.
Qed.

Lemma decimal_text_head v :
  0 <= v ->
  exists c r,
    decimal_text v = String c r /\ is_digit c = true /\ take_digits r = r.
Proof.
  intros P. destruct (decimal_text_nonneg v P) as (N & T & _).
  destruct (decimal_text v) as [|c r]; [congruence|].
  destruct (take_digits_head _ _ T) as [D T']. eauto.
Qed.

Lemma nearest_reads a p v :
  0 <= a -> nearest a p = Some v -> 0 <= v /\ to_double v = Int a.
Proof.
  intros A. unfold nearest. cbv zeta.
  assert (U : 0 <= 10 ^ p) by (apply Z.pow_nonneg; lia).
  assert (L : 0 <= a / 10 ^ p * 10 ^ p).
  { apply Z.mul_nonneg_nonneg; [|assumption].
    destruct (Z.eq_dec (10 ^ p) 0) as [E|E];
      [rewrite E; now rewrite Z.div_0_r | apply Z.div_pos; lia]. }
  set (lo := a / 10 ^ p * 10 ^ p) in *.
  destruct (number_eqb (to_double lo) (Int a)) eqn:E1;
    destruct (number_eqb (to_double (lo + 10 ^ p)) (Int a)) eqn:E2;
    try discriminate.
  - apply number_eqb_eq in E1, E2.
    destruct (_ || _); intros H; injection H as <-; split;
      (assumption || lia).
  - apply number_eqb_eq in E1. intros H. injection H as <-. now split.
  - apply number_eqb_eq in E2. intros H. injection H as <-.
    split; [lia | assumption].
Qed.

Lemma shortest_reads a :
  0 <= a -> to_double a = Int a ->
  0 <= shortest a /\ to_double (shortest a) = Int a.
Proof.
  intros A D. unfold shortest.
  generalize (Z.of_nat (String.length (decimal_text a)) - 1) as p.
  generalize 17%nat as fuel.
  induction fuel as [|f IH]; intros p; cbn [shortest_from]; [now split|].
  destruct (p <? 0); [now split|].
  destruct (nearest a p) as [v|] eqn:N; [|apply IH].
  exact (nearest_reads a p v A N).
Qed.

(** The text of an integral double: a sign, and the digits of a natural
    number that reads as its magnitude, in the exponent form from 10^21
    on. *)
Lemma ToString_form z :
  to_double z = Int z ->
  exists v,
    0 <= v /\ to_double v = Int (Z.abs z)
    /\ ToString (Int z)
       = (if z <? 0 then "-" else "")
         ++ (if Z.abs z <? 10 ^ 21 then decimal_text v
             else exponent_text (decimal_text v)).
Proof.
  intros D. pose proof (to_double_abs z D) as DA. cbn [ToString].
  destruct (Z.abs z <? 2 ^ 53) eqn:S.
  - exists (Z.abs z). split; [lia|]. split; [assumption|].
    apply Z.ltb_lt in S.
    assert (B : (Z.abs z <? 10 ^ 21) = true)
      by (apply Z.ltb_lt; change (2 ^ 53) with 9007199254740992 in S;
          change (10 ^ 21) with 1000000000000000000000; lia).
    rewrite B. destruct (z <? 0) eqn:N.
    + apply Z.ltb_lt in N. rewrite (decimal_text_neg z N).
      now rewrite Z.abs_neq by lia.
    + apply Z.ltb_ge in N. now rewrite Z.abs_eq.
  - destruct (shortest_reads (Z.abs z) (Z.abs_nonneg z) DA) as [P R].
    exists (shortest (Z.abs z)). auto.
Qed.

Lemma digits_all s : take_digits s = s -> all_of is_digit s = true.
Proof.
  induction s as [|c r IH]; [reflexivity|]. intros T.
  destruct (take_digits_head _ _ T) as [D T']. simpl. rewrite D. now apply IH.
Qed.

Lemma all_of_weaken (P Q : ascii -> bool) s :
  (forall c, P c = true -> Q c = true) ->
  all_of P s = true -> all_of Q s = true.
Proof.
  intros W. induction s as [|c r IH]; [reflexivity|]. simpl. intros H.
  apply andb_true_iff in H. destruct H as [H1 H2].
  now rewrite (W c H1), IH.
Qed.

Lemma trim_all P r : all_of P r = true -> all_of P (trim r) = true.
Proof.
  induction r as [|c r IH]; [reflexivity|]. simpl. intros H.
  apply andb_true_iff in H. destruct H as [H1 H2]. specialize (IH H2).
  destruct (trim r) as [|c' t].
  - destruct (Ascii.eqb c "0"); [reflexivity|]. simpl. now rewrite H1.
  - cbn [all_of] in *. now rewrite H1, IH.
Qed.

(** A string is known by what is left of it without the zeros at its end
    and by its length. *)
Lemma trim_determines r :
  forall r', trim r = trim r' -> String.length r = String.length r' -> r = r'.
Proof.
  induction r as [|c r IH]; intros [|c' r'] T L; try discriminate L;
    [reflexivity|].
  cbn [trim] in T. injection L as L.
  destruct (trim r) as [|x t] eqn:E1; destruct (trim r') as [|x' t'] eqn:E2.
  - rewrite (IH r') by congruence.
    destruct (Ascii.eqb_spec c "0") as [->|N];
      destruct (Ascii.eqb_spec c' "0") as [->|N'];
      try discriminate T; [reflexivity | congruence].
  - destruct (Ascii.eqb c "0"); discriminate T.
  - destruct (Ascii.eqb c' "0"); discriminate T.
  - injection T as -> T. rewrite (IH r'); [reflexivity | congruence | exact L].
Qed.

(** What stands before the exponent sign is known from the text. *)
Lemma split_at_exponent x :
  forall x' y y',
    all_of mantissa_char x = true -> all_of mantissa_char x' = true ->
    x ++ String "e" y = x' ++ String "e" y' -> x = x' /\ y = y'.
Proof.
  induction x as [|c x IH]; intros [|c' x'] y y' A A' E; simpl in *.
  - injection E as E. auto.
  - injection E as E1 E2. subst c'. discriminate A'.
  - injection E as E1 E2. subst c. discriminate A.
  - injection E as E1 E2. subst c'.
    apply andb_true_iff in A. apply andb_true_iff in A'.
    destruct (IH x' y y' (proj2 A) (proj2 A') E2) as [-> ->]. auto.
Qed.

Lemma digits_without_exponent x y :
  take_digits (x ++ String "e" y) <> x ++ String "e" y.
Proof.
  induction x as [|c x IH]; [discriminate|]. intros T.
  destruct (take_digits_head _ _ T) as [_ T']. now apply IH.
Qed.

Lemma exponent_text_cons d r :
  exponent_text (String d r)
  = String d
      (match trim r with
       | EmptyString => EmptyString
       | f => String "." f
       end ++ String "e" (String "+" (decimal_text (Z.of_nat (String.length r))))).
Proof. reflexivity. Qed.

Lemma mantissa_all r :
  take_digits r = r ->
  all_of mantissa_char
    (match trim r with
     | EmptyString => EmptyString
     | f => String "." f
     end) = true.
Proof.
  intros T.
  assert (A : all_of mantissa_char (trim r) = true).
  { apply trim_all. apply (all_of_weaken is_digit); [|now apply digits_all].
    intros c H. unfold mantissa_char. now rewrite H. }
  destruct (trim r); [reflexivity | exact A].
Qed.

Lemma exponent_text_inj t t' :
  t <> EmptyString -> take_digits t = t ->
  t' <> EmptyString -> take_digits t' = t' ->
  exponent_text t = exponent_text t' -> t = t'.
Proof.
  intros N T N' T' E.
  destruct t as [|d r]; [congruence|]. destruct t' as [|d' r']; [congruence|].
  destruct (take_digits_head _ _ T) as [_ R].
  destruct (take_digits_head _ _ T') as [_ R'].
  rewrite !exponent_text_cons in E. injection E as -> E.
  apply split_at_exponent in E; try now apply mantissa_all.
  destruct E as [E1 E2]. injection E2 as E2. f_equal.
  apply trim_determines.
  - destruct (trim r), (trim r'); congruence.
  - destruct (decimal_text_nonneg _ (Nat2Z.is_nonneg (String.length r)))
      as (_ & _ & V).
    destruct (decimal_text_nonneg _ (Nat2Z.is_nonneg (String.length r')))
      as (_ & _ & V').
    rewrite E2 in V. rewrite V in V'. now apply Nat2Z.inj.
Qed.

(** The digits of a natural number, plain or in the exponent form. *)
Lemma body_head (plain : bool) v :
  0 <= v ->
  exists c r,
    (if plain then decimal_text v else exponent_text (decimal_text v))
    = String c r
    /\ is_digit c = true.
Proof.
  intros P. destruct (decimal_text_head v P) as (c & r & E & D & _).
  rewrite E. destruct plain; [eauto|].
  rewrite exponent_text_cons. eauto.
Qed.

Lemma body_inj (plain plain' : bool) v v' :
  0 <= v -> 0 <= v' ->
  (if plain then decimal_text v else exponent_text (decimal_text v))
  = (if plain' then decimal_text v' else exponent_text (decimal_text v')) ->
  v = v'.
Proof.
  intros P P'.
  destruct (decimal_text_nonneg v P) as (N & T & V).
  destruct (decimal_text_nonneg v' P') as (N' & T' & V').
  assert (X : forall u w,
            0 <= u -> 0 <= w ->
            decimal_text u = exponent_text (decimal_text w) -> False).
  { intros u w Pu Pw E.
    destruct (decimal_text_nonneg u Pu) as (_ & Tu & _).
    destruct (decimal_text_head w Pw) as (c & r & Ew & _ & _).
    rewrite Ew, exponent_text_cons in E. rewrite E in Tu.
    destruct (take_digits_head _ _ Tu) as [_ Tu'].
    now apply digits_without_exponent in Tu'. }
  destruct plain, plain'; intros E.
  - rewrite <- V, <- V'. now rewrite E.
  - exfalso. now apply (X v v').
  - exfalso. symmetry in E. now apply (X v' v).
  - apply exponent_text_inj in E; try assumption.
    rewrite <- V, <- V'. now rewrite E.
Qed.

Lemma digit_head_text (negative : bool) c r :
  is_digit c = true ->
  let text := (if negative then "-" else "") ++ String c r in
  text <> "Infinity" /\ text <> "-Infinity" /\ text <> "NaN".
Proof.
  intros G text. unfold text.
  destruct negative; repeat split; intros E; simpl in E; inversion E; subst;
    vm_compute in G; discriminate G.
Qed.

(** Two doubles with the same text are the same number. *)
Lemma ToString_inj a b :
  is_double a -> is_double b -> ToString a = ToString b -> a = b.
Proof.
  assert (X : forall z n,
            to_double z = Int z -> (forall x, n <> Int x) ->
            ToString (Int z) <> ToString n).
  { intros z n D K E.
    destruct (ToString_form z D) as (v & P & _ & F). rewrite F in E.
    destruct (body_head (Z.abs z <? 10 ^ 21) v P) as (c & r & B & G).
    rewrite B in E.
    destruct (digit_head_text (z <? 0) c r G) as (T1 & T2 & T3).
    destruct n as [x|[]|]; [now apply (K x)| | |]; simpl in E; congruence. }
  destruct a as [x|nx|], b as [y|ny|]; intros Da Db E; try reflexivity.
  - destruct (ToString_form x Da) as (v & P & R & F).
    destruct (ToString_form y Db) as (v' & P' & R' & F').
    rewrite F, F' in E.
    destruct (body_head (Z.abs x <? 10 ^ 21) v P) as (c & r & B & G).
    destruct (body_head (Z.abs y <? 10 ^ 21) v' P') as (c' & r' & B' & G').
    assert (S : (x <? 0) = (y <? 0)
                /\ (if Z.abs x <? 10 ^ 21 then decimal_text v
                    else exponent_text (decimal_text v))
                   = (if Z.abs y <? 10 ^ 21 then decimal_text v'
                      else exponent_text (decimal_text v'))).
    { rewrite B, B' in *.
      destruct (x <? 0), (y <? 0); simpl in E.
      - injection E as E1 E2. split; congruence.
      - inversion E; subst. vm_compute in G'. discriminate G'.
      - inversion E; subst. vm_compute in G. discriminate G.
      - split; [reflexivity | exact E]. }
    destruct S as [S1 S2]. apply body_inj in S2; try assumption. subst v'.
    rewrite R in R'. injection R' as R'. f_equal.
    destruct (x <? 0) eqn:Nx; symmetry in S1;
      [apply Z.ltb_lt in Nx, S1 | apply Z.ltb_ge in Nx, S1]; lia.
  - exfalso. now apply (X x (Inf ny) Da).
  - exfalso. now apply (X x NaN Da).
  - exfalso. symmetry in E. now apply (X y (Inf nx) Db).
  - destruct nx, ny; simpl in E; try reflexivity; discriminate.
  - destruct nx; discriminate.
  - exfalso. symmetry in E. now apply (X y NaN Db).
  - destruct ny; discriminate.
Qed.

(** ** The plain objects of the output *)

Lemma assoc_obj_set_same k v o : assoc k (obj_set k v o) = Some v.
Proof.
  induction o as [|[k' v'] o IH]; simpl.
  - now rewrite String.eqb_refl.
  - destruct (k' =? k)%string eqn:E; simpl; [now rewrite E|].
    destruct (enumerated_before k k'); simpl;
      [now rewrite String.eqb_refl | now rewrite E].
Qed.

Lemma assoc_obj_set_other k k' v o :
  k <> k' -> assoc k' (obj_set k v o) = assoc k' o.
Proof.
  intros N. induction o as [|[k0 v0] o IH]; simpl.
  - apply String.eqb_neq in N. now rewrite N.
  - destruct (k0 =? k)%string eqn:E; simpl.
    + apply String.eqb_eq in E. subst k0.
      apply String.eqb_neq in N. now rewrite N.
    + destruct (enumerated_before k k0); simpl.
      * apply String.eqb_neq in N. now rewrite N.
      * now rewrite IH.
Qed.

Lemma plain_object_from labels :
  unique_keys labels ->
  (forall key, In key (map fst labels) -> is_double key) ->
  forall o id,
    is_double id ->
    assoc (ToString id)
      (fold_left (fun o e => obj_set (ToString (fst e)) (snd e) o) labels o)
    = match map_get id labels with
      | Some name => Some name
      | None => assoc (ToString id) o
      end.
Proof.
  unfold unique_keys. induction labels as [|[id0 name0] m IH];
    cbn [fold_left map fst snd map_get]; intros U K o id D.
  - reflexivity.
  - inversion U as [|? ? Hn U']; subst.
    rewrite (IH U' (fun key I => K key (or_intror I)) _ id D).
    destruct (number_eqb id0 id) eqn:E.
    + apply number_eqb_eq in E. subst id0.
      rewrite (map_get_fresh id m Hn). apply assoc_obj_set_same.
    + destruct (map_get id m); [reflexivity|].
      apply assoc_obj_set_other. intros T.
      apply ToString_inj in T; [|apply K; now left | assumption]. subst.
      now rewrite number_eqb_refl in E.
Qed.

(** The plain object written for a label map whose keys are doubles has,
    under the text of an identifier, the name the map has for it. *)
Lemma plain_object_get labels id :
  unique_keys labels ->
  (forall key, In key (map fst labels) -> is_double key) ->
  is_double id ->
  field (plain_object labels) (ToString id) = Ok (map_get id labels).
Proof.
  intros U K D. unfold plain_object. simpl.
  rewrite (plain_object_from labels U K [] id D).
  now destruct (map_get id labels).
Qed.

(** Every key of an index and of a label map was read by [parseInt]. *)
Lemma indexed_is_double k id mid es : indexed_by k id mid es -> is_double id.
Proof.
  intros (m & e & l & d & _ & _ & _ & _ & P & _). rewrite <- P.
  apply parseInt_is_double.
Qed.

Lemma label_keys_double star main enus out k id :
  resolve_labels star main enus = Ok out ->
  In id (map fst (label_map k out)) -> is_double id.
Proof.
  intros R I.
  destruct (resolve_labels_stages _ _ _ _ R) as (ids & ix & E1 & E2 & E3).
  pose proof (build_index_sound _ _ _ E2) as S.
  destruct (resolve_all_get _ _ _ (fun k => proj1 (S k)) E3) as (data & _ & Q).
  apply in_map_iff in I. destruct I as ([id' name] & <- & I). simpl.
  destruct (In_map_get _ _ _ I) as [name' G]. rewrite Q in G.
  destruct (map_get id' (id_map k ix)) as [mid|] eqn:M; [|discriminate].
  apply map_get_In in M. destruct (S k) as [_ B].
  destruct (B _ _ M) as [_ HI]. exact (indexed_is_double _ _ _ _ HI).
Qed.

Lemma resolve_names_unique data m l :
  resolve_names data m = Ok l -> unique_keys l.
Proof.
  unfold resolve_names. apply for_each_inv; [|constructor].
  intros [id mid] s s' _ U. unfold resolve_entry.
  destruct (index_opt data mid) as [e|]; cbn [bind]; [|discriminate].
  destruct (truthy_opt e); [|intros H; inversion H; now subst].
  destruct e as [[]|]; try (intros H; inversion H; now subst).
  destruct items as [|name items]; [intros H; inversion H; now subst|].
  destruct (truthy name && negb (same_value_zero name Null));
    intros H; inversion H; subst; [now apply unique_map_set | assumption].
Qed.

Lemma resolve_all_unique enus ix out k :
  resolve_all enus ix = Ok out -> unique_keys (label_map k out).
Proof.
  unfold resolve_all.
  destruct (index enus (Int 1)) as [data|]; cbn [bind]; [|discriminate].
  destruct (resolve_names data (systemIdToMessageId ix)) as [sys|] eqn:E1;
    cbn [bind]; [|discriminate].
  destruct (resolve_names data (constellationIdToMessageId ix)) as [con|] eqn:E2;
    cbn [bind]; [|discriminate].
  destruct (resolve_names data (regionIdToMessageId ix)) as [reg|] eqn:E3;
    cbn [bind]; [|discriminate].
  intros H. inversion H; subst out. destruct k; simpl;
    eapply resolve_names_unique; eassumption.
Qed.

Lemma label_match_exact p ds :
  ds <> EmptyString -> take_digits ds = ds ->
  label_match p (p ++ ds) = Some ds.
Proof.
  intros N T.
  assert (S : strip_prefix p (p ++ ds) = Some ds).
  { induction p as [|a p IH]; simpl; [now destruct ds|].
    now rewrite Ascii.eqb_refl. }
  assert (M : match_at p (p ++ ds) = Some ds).
  { unfold match_at. rewrite S, T. now destruct ds. }
  destruct (p ++ ds); simpl; now rewrite M.
Qed.

(** ** The script *)

Section ScriptFacts.

Variable dataDir : string.
Variable readFileSync : string -> string + string.
Variable JSON_parse : string -> value + string.
Variable JSON_stringify : value -> string.
Variable can_write : string -> bool.
Variable interpolate : value -> result string.

Let load := loadJsonFile readFileSync JSON_parse.
Let script :=
  extractStellarLabels dataDir readFileSync JSON_parse JSON_stringify
    can_write interpolate.

Lemma load_cases path :
  (exists v,
      load path = ([Log ("Loading " ++ path ++ "...")], Return v)
      /\ loadable readFileSync JSON_parse path = true)
  \/ (exists message,
         load path = ([Log ("Loading " ++ path ++ "...");
                       LogError ("Error loading " ++ path ++ ":") message],
                      Exit 1)
         /\ loadable readFileSync JSON_parse path = false).
Proof.
  unfold load, loadJsonFile, loadable.
  destruct (readFileSync path) as [data|message].
  - destruct (JSON_parse data) as [v|message].
    + left. exists v. split; reflexivity.
    + right. exists message. split; reflexivity.
  - right. exists message. split; reflexivity.
Qed.

Lemma then_run_exit {A B} ev ev' (a : A) (k : A -> run B) c :
  k a = (ev', Exit c) -> then_run (ev, Return a) k = ((ev ++ ev')%list, Exit c).
Proof. intros E. unfold then_run. now rewrite E. Qed.

(** C8. When one of the three catalogue files is missing or does not parse
    as JSON, the run of the label resolver stops at once: it prints an error
    that names the file, exits with the code 1, and before that it has only
    announced the files it loads; no pass has run and nothing was
    written. *)
Theorem missing_catalogue_aborts :
  (exists path,
      In path (catalogue_paths dataDir)
      /\ loadable readFileSync JSON_parse path = false) ->
  exists loading path message,
    script = ((loading ++ [LogError ("Error loading " ++ path ++ ":") message])%list,
              Exit 1)
    /\ In path (catalogue_paths dataDir)
    /\ loadable readFileSync JSON_parse path = false
    /\ Forall is_loading loading
    /\ forall e,
         In e (loading ++ [LogError ("Error loading " ++ path ++ ":") message])
         -> ~ is_write e.
Proof.
  intros (bad & HI & HB).
  assert (W : forall loading path message e,
            Forall is_loading loading ->
            In e (loading ++ [LogError ("Error loading " ++ path ++ ":") message])
            -> ~ is_write e).
  { intros loading path message e F I (q & d & ->).
    apply in_app_iff in I. destruct I as [I | [I | []]]; [|discriminate].
    rewrite Forall_forall in F. destruct (F _ I) as [x X]. discriminate. }
  assert (L : forall q, is_loading (Log ("Loading " ++ q ++ "..."))) by (intros q; now exists q).
  unfold script, extractStellarLabels. fold load.
  set (p1 := join dataDir "starmapcache.json") in *.
  set (p2 := join dataDir "localization_fsd_main.json") in *.
  set (p3 := join dataDir "localization_fsd_en-us.json") in *.
  destruct (load_cases p1) as [(v1 & E1 & L1) | (m1 & E1 & L1)]; rewrite E1.
  2:{ exists [Log ("Loading " ++ p1 ++ "...")], p1, m1.
      split; [reflexivity|]. split; [now left|]. split; [assumption|].
      split; [|intros e; apply W]; repeat constructor; apply L. }
  destruct (load_cases p2) as [(v2 & E2 & L2) | (m2 & E2 & L2)].
  2:{ exists [Log ("Loading " ++ p1 ++ "..."); Log ("Loading " ++ p2 ++ "...")], p2, m2.
      split; [erewrite then_run_exit by (rewrite E2; reflexivity); reflexivity|].
      split; [right; now left|]. split; [assumption|].
      split; [|intros e; apply W]; repeat constructor; apply L. }
  destruct (load_cases p3) as [(v3 & E3 & L3) | (m3 & E3 & L3)].
  2:{ exists [Log ("Loading " ++ p1 ++ "..."); Log ("Loading " ++ p2 ++ "...");
              Log ("Loading " ++ p3 ++ "...")], p3, m3.
      split.
      { erewrite then_run_exit; [reflexivity|]. rewrite E2.
        erewrite then_run_exit; [reflexivity|]. rewrite E3. reflexivity. }
      split; [right; right; now left|]. split; [assumption|].
      split; [|intros e; apply W]; repeat constructor; apply L. }
  exfalso. unfold catalogue_paths in HI. fold p1 p2 p3 in HI.
  destruct HI as [H | [H | [H | []]]]; rewrite <- H in HB; congruence.
Qed.

Lemma then_run_return {A B} (r : run A) (k : A -> run B) ev b :
  then_run r k = (ev, Return b) ->
  exists ev1 a ev2,
    r = (ev1, Return a) /\ k a = (ev2, Return b) /\ ev = (ev1 ++ ev2)%list.
Proof.
  destruct r as [ev1 [a| |]]; simpl; try discriminate.
  destruct (k a) as [ev2 o] eqn:E. intros H. inversion H; subst.
  exists ev1, a, ev2. auto.
Qed.

Lemma lift_return {A} (r : result A) ev a :
  lift r = (ev, Return a) -> r = Ok a.
Proof. destruct r; simpl; intros H; inversion H; reflexivity. Qed.

Lemma writeFileSync_return path data ev u :
  writeFileSync can_write path data = (ev, Return u) ->
  ev = [WriteFile path data].
Proof.
  unfold writeFileSync. destruct (can_write path); simpl; intros H;
    inversion H; reflexivity.
Qed.

Tactic Notation "step" hyp(H) "as" ident(a) ident(R) :=
  let ev1 := fresh "ev" in
  let ev2 := fresh "ev" in
  let E := fresh "E" in
  apply then_run_return in H;
  destruct H as (ev1 & a & ev2 & R & H & E);
  cbv beta zeta in H.

(** A run of the script that returns has loaded the three catalogues, run
    the three passes on them, written the plain objects of the three label
    maps and returned them under their three sections. *)
Lemma script_returns ev combined :
  script = (ev, Return combined) ->
  exists starMapCache mainLocalization enUsLocalization out,
    snd (load (join dataDir "starmapcache.json")) = Return starMapCache
    /\ snd (load (join dataDir "localization_fsd_main.json"))
       = Return mainLocalization
    /\ snd (load (join dataDir "localization_fsd_en-us.json"))
       = Return enUsLocalization
    /\ resolve_labels starMapCache mainLocalization enUsLocalization = Ok out
    /\ combined
       = Obj [("systems", plain_object (systemLabels out));
              ("constellations", plain_object (constellationLabels out));
              ("regions", plain_object (regionLabels out))]
    /\ In (WriteFile (join dataDir "system_labels.json")
                     (JSON_stringify (plain_object (systemLabels out)))) ev
    /\ In (WriteFile (join dataDir "constellation_labels.json")
                     (JSON_stringify (plain_object (constellationLabels out)))) ev
    /\ In (WriteFile (join dataDir "region_labels.json")
                     (JSON_stringify (plain_object (regionLabels out)))) ev
    /\ In (WriteFile (join dataDir "stellar_labels.json")
                     (JSON_stringify combined)) ev.
Proof.
  unfold script, extractStellarLabels. fold load. intros H.
  step H as star L1.
  step H as main L2.
  step H as enus L3.
  step H as u1 U1.
  step H as ids P1. apply lift_return in P1.
  step H as u2 U2.
  step H as u3 U3.
  step H as u4 U4.
  step H as u5 U5.
  step H as ix P2. apply lift_return in P2.
  step H as u6 U6.
  step H as u7 U7.
  step H as u8 U8.
  step H as u9 U9.
  step H as out P3. apply lift_return in P3.
  step H as u10 U10.
  step H as u11 U11.
  step H as u12 U12.
  step H as w1 W1. apply writeFileSync_return in W1.
  step H as w2 W2. apply writeFileSync_return in W2.
  step H as w3 W3. apply writeFileSync_return in W3.
  step H as u13 U13.
  step H as u14 U14.
  step H as u15 U15.
  step H as w4 W4. apply writeFileSync_return in W4.
  step H as u16 U16.
  step H as u17 U17.
  step H as u18 U18.
  step H as u19 U19.
  step H as u20 U20.
  step H as u21 U21.
  step H as u22 U22.
  unfold unit_run in H. inversion H; subst combined.
  exists star, main, enus, out.
  rewrite L1, L2, L3. repeat (split; [reflexivity|]).
  split; [unfold resolve_labels; rewrite P1; cbn [bind]; rewrite P2; exact P3|].
  split; [reflexivity|].
  subst. repeat rewrite in_app_iff. simpl. tauto.
Qed.

(** The objects a returning run writes and returns hold, under the decimal
    text of each identifier, exactly the entries of the label maps. *)
Lemma script_output_entries ev combined :
  script = (ev, Return combined) ->
  exists starMapCache mainLocalization enUsLocalization out,
    snd (load (join dataDir "starmapcache.json")) = Return starMapCache
    /\ snd (load (join dataDir "localization_fsd_main.json"))
       = Return mainLocalization
    /\ snd (load (join dataDir "localization_fsd_en-us.json"))
       = Return enUsLocalization
    /\ resolve_labels starMapCache mainLocalization enUsLocalization = Ok out
    /\ combined
       = Obj [("systems", plain_object (label_map System out));
              ("constellations", plain_object (label_map Constellation out));
              ("regions", plain_object (label_map Region out))]
    /\ forall k id,
         is_double id ->
         field (plain_object (label_map k out)) (ToString id)
         = Ok (map_get id (label_map k out)).
Proof.
  intros H. apply script_returns in H.
  destruct H as (star & main & enus & out & L1 & L2 & L3 & R & C & _).
  exists star, main, enus, out.
  repeat (split; [assumption|]).
  intros k id D. apply plain_object_get; [| |exact D].
  - destruct (resolve_labels_stages _ _ _ _ R) as (ids & ix & _ & _ & E3).
    now apply (resolve_all_unique enus ix).
  - intros key. now apply (label_keys_double star main enus).
Qed.

Lemma snd_then_run {A B} (r : run A) (k : A -> run B) a :
  snd r = Return a -> snd (then_run r k) = snd (k a).
Proof.
  destruct r as [ev o]. simpl. intros ->. now destruct (k a).
Qed.

Tactic Notation "forward" constr(a) "by" tactic(t) :=
  rewrite (snd_then_run _ _ a) by t; cbv beta zeta.

Lemma example_lines_return labels :
  (forall name, interpolate name <> Thrown) ->
  snd (example_lines interpolate labels) = Return tt.
Proof.
  intros T. induction labels as [|[id name] rest IH]; [reflexivity|].
  cbn [example_lines]. destruct (interpolate name) as [text|] eqn:E;
    [|now destruct (T name)].
  simpl. destruct (example_lines interpolate rest) as [ev o].
  simpl in *. now rewrite IH.
Qed.

(** With the three catalogues loaded, the passes ending without an error,
    the four files writable and every name interpolated, the script
    returns. *)
Lemma script_completes starMapCache mainLocalization enUsLocalization out :
  snd (load (join dataDir "starmapcache.json")) = Return starMapCache ->
  snd (load (join dataDir "localization_fsd_main.json"))
  = Return mainLocalization ->
  snd (load (join dataDir "localization_fsd_en-us.json"))
  = Return enUsLocalization ->
  resolve_labels starMapCache mainLocalization enUsLocalization = Ok out ->
  (forall path, can_write path = true) ->
  (forall name, interpolate name <> Thrown) ->
  snd script
  = Return (Obj [("systems", plain_object (systemLabels out));
                 ("constellations", plain_object (constellationLabels out));
                 ("regions", plain_object (regionLabels out))]).
Proof.
  intros L1 L2 L3 R W T.
  destruct (resolve_labels_stages _ _ _ _ R) as (ids & ix & E1 & E2 & E3).
  assert (WF : forall path data,
            snd (writeFileSync can_write path data) = Return tt).
  { intros path data. unfold writeFileSync. now rewrite W. }
  assert (EX : forall labels, snd (examples interpolate labels) = Return tt)
    by (intros labels; unfold examples; now apply example_lines_return).
  unfold script, extractStellarLabels. fold load.
  forward starMapCache by exact L1.
  forward mainLocalization by exact L2.
  forward enUsLocalization by exact L3.
  forward tt by reflexivity.
  forward ids by (rewrite E1; reflexivity).
  do 4 (forward tt by reflexivity).
  forward ix by (rewrite E2; reflexivity).
  do 4 (forward tt by reflexivity).
  forward out by (rewrite E3; reflexivity).
  do 3 (forward tt by reflexivity).
  do 3 (forward tt by apply WF).
  do 3 (forward tt by reflexivity).
  forward tt by apply WF.
  do 2 (forward tt by reflexivity).
  forward tt by apply EX.
  forward tt by reflexivity.
  forward tt by apply EX.
  forward tt by reflexivity.
  forward tt by apply EX.
  reflexivity.
Qed.

End ScriptFacts.

Lemma missing_catalogue_aborts_sample :
  exists loading path message,
    extractStellarLabels "data/json" sample_files sample_parse
      (fun _ => EmptyString) (fun _ => true) (fun _ => Ok EmptyString)
    = ((loading ++ [LogError ("Error loading " ++ path ++ ":") message])%list,
       Exit 1)
    /\ Forall is_loading loading.
Proof.
  destruct (missing_catalogue_aborts "data/json" sample_files sample_parse
              (fun _ => EmptyString) (fun _ => true) (fun _ => Ok EmptyString))
    as (loading & path & message & E & _ & _ & F & _).
  - exists "data/json/localization_fsd_main.json". split.
    + right. left. reflexivity.
    + reflexivity.
  - exists loading, path, message. split; assumption.
Defined.

End LabelFacts.

(** * Properties of the asset router *)

Module RouterFacts.
Import Extract.

(** ** The format sniffer *)

Lemma header_short buffer :
  (List.length buffer < 16)%nat -> header_matches buffer = false.
Proof.
  intros H. unfold header_matches.
  destruct (List.length buffer <? 16)%nat eqn:E; [reflexivity|].
  apply Nat.ltb_ge in E. lia.
Qed.

Lemma header_signature buffer :
  firstn 16 buffer = signature -> header_matches buffer = true.
Proof.
  intros H. unfold header_matches, subarray_16. rewrite H.
  assert (L : (16 <= List.length buffer)%nat).
  { assert (E : List.length (firstn 16 buffer) = 16%nat) by now rewrite H.
    rewrite length_firstn in E. lia. }
  apply Nat.ltb_ge in L. rewrite L. reflexivity.
Qed.

Lemma isValidSQLite_on_file filePath data w :
  file w filePath = Some data ->
  isValidSQLite filePath w = (Fulfilled (header_matches data), w).
Proof.
  intros H. unfold isValidSQLite, try_catch, await, readFile. now rewrite H.
Qed.

Lemma isValidSQLite_read_error filePath w :
  file w filePath = None ->
  isValidSQLite filePath w
  = (Fulfilled false,
     with_event
       (LogError ("Error checking SQLite validity for " ++ filePath ++ ":")
                 (ENOENT filePath)) w).
Proof.
  intros H. unfold isValidSQLite, try_catch, await, readFile. now rewrite H.
Qed.

(** What the sniffer tests: at least sixteen bytes, the first sixteen of
    which agree with the signature once the highest bit of each is cleared. *)
Lemma header_matches_exact buffer :
  header_matches buffer = true <->
  (16 <= List.length buffer)%nat
  /\ map clear_high_bit (firstn 16 buffer) = map clear_high_bit signature.
Proof.
  unfold header_matches, subarray_16, toString_ascii.
  change sqliteHeader
    with (string_of_list_ascii (map clear_high_bit signature)).
  destruct (List.length buffer <? 16)%nat eqn:E.
  - apply Nat.ltb_lt in E. split; [discriminate|]. intros [H _]. lia.
  - apply Nat.ltb_ge in E. rewrite String.eqb_eq. split.
    + intros H. split; [assumption|].
      apply (f_equal list_ascii_of_string) in H.
      now rewrite !list_ascii_of_string_of_list_ascii in H.
    + intros [_ H]. now rewrite H.
Qed.

(** C3. The sniffer answers true on a sixteen-byte header that is not the
    signature: one whose first byte is [0xD3] where the signature has [0x53].
    Decoding with the [ascii] codec clears the highest bit of every byte
    before the comparison with the signature text. *)
Theorem sniffer_accepts_forged_header :
  List.length forged = 16%nat
  /\ firstn 16 forged <> signature
  /\ header_matches forged = true
  /\ fst (isValidSQLite "Foo" (with_file "Foo" forged empty_world))
     = Fulfilled true.
Proof.
  split; [reflexivity|]. split; [discriminate|]. split; reflexivity.
Qed.

(** ** Tasks *)

Lemma await_fulfilled {A B} (t : task A) (k : A -> task B) w a w' :
  t w = (Fulfilled a, w') -> await t k w = k a w'.
Proof. intros E. unfold await. now rewrite E. Qed.

Lemma await_rejected {A B} (t : task A) (k : A -> task B) w e w' :
  t w = (Rejected e, w') -> await t k w = (Rejected e, w').
Proof. intros E. unfold await. now rewrite E. Qed.

Lemma copyFile_ok src dest data w :
  file w src = Some data -> denied w dest = false ->
  copyFile src dest w = (Fulfilled tt, with_file dest data w).
Proof.
  intros F D. unfold copyFile, await, readFile, writeFile. now rewrite F, D.
Qed.

Lemma copyFile_denied src dest data w :
  file w src = Some data -> denied w dest = true ->
  copyFile src dest w = (Rejected (EACCES dest), w).
Proof.
  intros F D. unfold copyFile, await, readFile, writeFile. now rewrite F, D.
Qed.

Lemma copyFile_missing src dest w :
  file w src = None -> copyFile src dest w = (Rejected (ENOENT src), w).
Proof. intros F. unfold copyFile, await, readFile. now rewrite F. Qed.

Lemma file_with_file_same path data w :
  file (with_file path data w) path = Some data.
Proof. simpl. now rewrite String.eqb_refl. Qed.

Lemma file_after_copy src dest data w :
  file w src = Some data -> file (with_file dest data w) src = Some data.
Proof. intros F. simpl. now destruct (src =? dest)%string. Qed.

(** ** The routines *)

Section RoutineFacts.

Variable path_join : string -> string -> string.
Variable RES_FILES_BASE_DIR : string.
Variable dataBaseDir : string.
Variable Data : Type.
Variable Parser_parse : list byte -> Data + string.
Variable JSON_stringify : Data -> list byte + string.

Let static_dest (filename : string) : string :=
  path_join (destStaticDir path_join dataBaseDir) (filename ++ ".static").
Let sqlite_dest (filename : string) : string :=
  path_join (destSqliteDir path_join dataBaseDir) (filename ++ ".sqlite").
Let pickle_dest (filename : string) : string :=
  path_join (destPickleDir path_join dataBaseDir) (filename ++ ".pickle").
Let json_dest (filename : string) : string :=
  path_join (destJsonDir path_join dataBaseDir) (filename ++ ".json").

(** C5. For an entry classified static whose source can be read and whose
    static destination can be written, the source is copied to
    [static/{filename}.static]; the sniffer then runs on the source bytes;
    on a match a second copy goes to [sqlite/{filename}.sqlite]; otherwise
    the non-match is logged and nothing else happens.  When the second copy
    fails the first one stays.  In particular a source whose first sixteen
    bytes are the SQLite signature yields both copies. *)
Theorem static_entry_is_copied_and_sniffed
    (filename sourceFilePath : string) (data : list byte) (w : world) :
  file w sourceFilePath = Some data ->
  denied w (static_dest filename) = false ->
  let copied :=
    with_event
      (Log ("Copied " ++ sourceFilePath ++ " to " ++ static_dest filename))
      (with_file (static_dest filename) data w) in
  let r := processStaticFile path_join dataBaseDir filename sourceFilePath w in
  file (snd r) (static_dest filename) = Some data
  /\ isValidSQLite sourceFilePath copied
     = (Fulfilled (header_matches data), copied)
  /\ (header_matches data = true ->
      denied w (sqlite_dest filename) = false ->
      fst r = Fulfilled tt
      /\ file (snd r) (sqlite_dest filename) = Some data)
  /\ (header_matches data = true ->
      denied w (sqlite_dest filename) = true ->
      r = (Rejected (EACCES (sqlite_dest filename)), copied))
  /\ (header_matches data = false ->
      r = (Fulfilled tt,
           with_event (Log ("Invalid SQLite file: " ++ sourceFilePath)) copied))
  /\ (firstn 16 data = signature ->
      denied w (sqlite_dest filename) = false ->
      fst r = Fulfilled tt
      /\ file (snd r) (static_dest filename) = Some data
      /\ file (snd r) (sqlite_dest filename) = Some data).
Proof.
  intros F D copied r.
  assert (FC : file copied sourceFilePath = Some data)
    by (apply file_after_copy; assumption).
  assert (V : isValidSQLite sourceFilePath copied
              = (Fulfilled (header_matches data), copied))
    by (apply isValidSQLite_on_file; assumption).
  assert (R : r = if header_matches data
                  then if denied w (sqlite_dest filename)
                       then (Rejected (EACCES (sqlite_dest filename)), copied)
                       else (Fulfilled tt,
                             with_event
                               (Log ("Copied " ++ sourceFilePath ++ " to "
                                       ++ sqlite_dest filename))
                               (with_file (sqlite_dest filename) data copied))
                  else (Fulfilled tt,
                        with_event
                          (Log ("Invalid SQLite file: " ++ sourceFilePath))
                          copied)).
  { unfold r, processStaticFile.
    rewrite (await_fulfilled _ _ w tt (with_file (static_dest filename) data w))
      by (apply copyFile_ok; assumption).
    rewrite (await_fulfilled _ _ _ tt copied) by reflexivity.
    rewrite (await_fulfilled _ _ _ _ _ V).
    destruct (header_matches data); [|reflexivity].
    destruct (denied w (sqlite_dest filename)) eqn:D2.
    - rewrite (await_rejected _ _ copied (EACCES (sqlite_dest filename)) copied)
        by (apply (copyFile_denied _ _ data); assumption).
      reflexivity.
    - rewrite (await_fulfilled _ _ copied tt
                 (with_file (sqlite_dest filename) data copied))
        by (apply copyFile_ok; assumption).
      reflexivity. }
  assert (S1 : file (snd r) (static_dest filename) = Some data).
  { rewrite R. destruct (header_matches data);
      [destruct (denied w (sqlite_dest filename))|]; simpl;
      rewrite ?String.eqb_refl; try reflexivity.
    destruct (static_dest filename =? sqlite_dest filename)%string; reflexivity. }
  assert (B : header_matches data = true ->
              denied w (sqlite_dest filename) = false ->
              fst r = Fulfilled tt
              /\ file (snd r) (sqlite_dest filename) = Some data).
  { intros H D2. rewrite R, H, D2. simpl. now rewrite String.eqb_refl. }
  split; [exact S1|]. split; [exact V|]. split; [exact B|]. split; [|split].
  - intros H D2. now rewrite R, H, D2.
  - intros H. now rewrite R, H.
  - intros H D2. destruct (B (header_signature _ H) D2) as [B1 B2]. auto.
Qed.

Lemma convert_ok pickleFilePath jsonFilePath data v json w :
  file w pickleFilePath = Some data ->
  Parser_parse data = inl v -> JSON_stringify v = inl json ->
  denied w jsonFilePath = false ->
  convertPickleToJson Data Parser_parse JSON_stringify pickleFilePath
    jsonFilePath w
  = (Fulfilled tt,
     with_event
       (Log ("Converted " ++ pickleFilePath ++ " to " ++ jsonFilePath))
       (with_file jsonFilePath json w)).
Proof.
  intros F P J D.
  unfold convertPickleToJson, try_catch, await, readFile, writeFile.
  now rewrite F, P, J, D.
Qed.

Lemma convert_decode_error pickleFilePath jsonFilePath data message w :
  file w pickleFilePath = Some data ->
  Parser_parse data = inr message ->
  convertPickleToJson Data Parser_parse JSON_stringify pickleFilePath
    jsonFilePath w
  = (Rejected (DecodeError message),
     with_event
       (LogError ("Error converting " ++ pickleFilePath ++ " to JSON:")
                 (DecodeError message)) w).
Proof.
  intros F P. unfold convertPickleToJson, try_catch, await, readFile.
  now rewrite F, P.
Qed.

(** C6. For an entry classified serializedBlob the source is copied to
    [pickle/{filename}.pickle], the decoder runs on that copy and the JSON
    text of its result is written to [json/{filename}.json].  A decode
    failure is rethrown by the decoder to its caller, is caught there and
    logged with the file name, and the routine still completes. *)
Theorem pickle_entry_is_copied_and_decoded
    (filename sourceFilePath : string) (w : world) :
  let convert :=
    convertPickleToJson Data Parser_parse JSON_stringify
      (pickle_dest filename) (json_dest filename) in
  let r :=
    processPickleFile path_join dataBaseDir Data Parser_parse JSON_stringify
      filename sourceFilePath w in
  fst r = Fulfilled tt
  /\ forall data,
       file w sourceFilePath = Some data ->
       denied w (pickle_dest filename) = false ->
       let copied :=
         with_event
           (Log ("Copied " ++ sourceFilePath ++ " to " ++ pickle_dest filename))
           (with_file (pickle_dest filename) data w) in
       (forall v json,
          Parser_parse data = inl v -> JSON_stringify v = inl json ->
          denied w (json_dest filename) = false ->
          convert copied
          = (Fulfilled tt,
             with_event
               (Log ("Converted " ++ pickle_dest filename ++ " to "
                       ++ json_dest filename))
               (with_file (json_dest filename) json copied))
          /\ file (snd r) (json_dest filename) = Some json
          /\ (pickle_dest filename <> json_dest filename ->
              file (snd r) (pickle_dest filename) = Some data))
       /\ (forall message,
             Parser_parse data = inr message ->
             let failed :=
               with_event
                 (LogError ("Error converting " ++ pickle_dest filename
                              ++ " to JSON:") (DecodeError message)) copied in
             convert copied = (Rejected (DecodeError message), failed)
             /\ r = (Fulfilled tt,
                     with_event
                       (LogError ("Error processing pickle file " ++ filename
                                    ++ ":") (DecodeError message)) failed)).
Proof.
  intros convert r. split.
  { unfold r, processPickleFile, try_catch.
    match goal with |- context [match ?t w with _ => _ end] =>
      destruct (t w) as [[[]|e] w'] end; reflexivity. }
  intros data F D copied.
  assert (FC : file copied (pickle_dest filename) = Some data)
    by apply file_with_file_same.
  assert (C : copyFile sourceFilePath (pickle_dest filename) w
              = (Fulfilled tt, with_file (pickle_dest filename) data w))
    by (apply copyFile_ok; assumption).
  split.
  - intros v json P J DJ.
    pose proof (convert_ok _ (json_dest filename) _ _ _ copied FC P J DJ) as K.
    split; [exact K|].
    assert (R : exists tail,
               snd r = tail
                 (with_event
                    (Log ("Converted " ++ pickle_dest filename ++ " to "
                            ++ json_dest filename))
                    (with_file (json_dest filename) json copied))
               /\ forall x, file (tail x) = file x).
    { unfold r, processPickleFile, try_catch.
      rewrite (await_fulfilled _ _ w tt _ C).
      rewrite (await_fulfilled _ _ _ tt copied) by reflexivity.
      fold pickle_dest json_dest. fold (pickle_dest filename) (json_dest filename).
      rewrite (await_fulfilled _ _ _ tt _ K).
      destruct (includes "starmapcache" filename || includes "starmap" filename).
      - exists (with_event
                  (Log ("⭐ Found starmap data: " ++ json_dest filename))).
        split; reflexivity.
      - exists (fun x => x). split; reflexivity. }
    destruct R as (tail & -> & T). rewrite T. simpl.
    rewrite String.eqb_refl. split; [reflexivity|].
    intros N. apply String.eqb_neq in N. rewrite N. now rewrite String.eqb_refl.
  - intros message P failed.
    pose proof (convert_decode_error _ (json_dest filename) _ _ copied FC P) as K.
    split; [exact K|].
    unfold r, processPickleFile, try_catch.
    rewrite (await_fulfilled _ _ w tt _ C).
    rewrite (await_fulfilled _ _ _ tt copied) by reflexivity.
    fold (pickle_dest filename) (json_dest filename).
    rewrite (await_rejected _ _ _ _ _ K). reflexivity.
Qed.

(** ** The line handler *)

Lemma keeps_ret {A} (a : A) : keeps_count (ret a).
Proof. intros w. reflexivity. Qed.

Lemma keeps_throw {A} e : keeps_count (@throw A e).
Proof. intros w. reflexivity. Qed.

Lemma keeps_await {A B} (t : task A) (k : A -> task B) :
  keeps_count t -> (forall a, keeps_count (k a)) -> keeps_count (await t k).
Proof.
  intros Ht Hk w. unfold await. specialize (Ht w).
  destruct (t w) as [[a|e] w']; simpl in *; [|assumption].
  now rewrite Hk.
Qed.

Lemma keeps_try_catch {A} (t : task A) (h : error -> task A) :
  keeps_count t -> (forall e, keeps_count (h e)) -> keeps_count (try_catch t h).
Proof.
  intros Ht Hh w. unfold try_catch. specialize (Ht w).
  destruct (t w) as [[a|e] w']; simpl in *; [assumption|].
  now rewrite Hh.
Qed.

Lemma keeps_console_log line : keeps_count (console_log line).
Proof. intros w. reflexivity. Qed.

Lemma keeps_console_error line cause : keeps_count (console_error line cause).
Proof. intros w. reflexivity. Qed.

Lemma keeps_readFile path : keeps_count (readFile path).
Proof. intros w. unfold readFile. now destruct (file w path). Qed.

Lemma keeps_writeFile path data : keeps_count (writeFile path data).
Proof. intros w. unfold writeFile. now destruct (denied w path). Qed.

Lemma keeps_make_dir last path : keeps_count (make_dir last path).
Proof.
  intros w. unfold make_dir. destruct (dir w path); [reflexivity|].
  destruct (file w path); [reflexivity|]. now destruct (denied w path).
Qed.

Lemma keeps_mkdirSync path : keeps_count (mkdirSync path).
Proof.
  unfold mkdirSync. induction (ancestors path) as [|d ds IH]; simpl.
  - apply keeps_make_dir.
  - apply keeps_await; [apply keeps_make_dir | intros _; exact IH].
Qed.

Lemma keeps_copyFile src dest : keeps_count (copyFile src dest).
Proof.
  apply keeps_await; [apply keeps_readFile | intros; apply keeps_writeFile].
Qed.

Lemma keeps_count_pickle filename : keeps_count (count_pickle filename).
Proof. intros w. reflexivity. Qed.

Create HintDb keeps.

#[local] Hint Resolve keeps_ret keeps_throw keeps_console_log
  keeps_console_error keeps_readFile keeps_writeFile keeps_mkdirSync
  keeps_copyFile keeps_count_pickle : keeps.

Ltac keeps :=
  repeat first
    [ apply keeps_await; [|intros ?]
    | apply keeps_try_catch; [|intros ?]
    | solve [auto with keeps]
    | match goal with
      | |- keeps_count (if ?b then _ else _) => destruct b
      | |- keeps_count (match ?x with _ => _ end) => destruct x
      end ].

Lemma keeps_materialize c e :
  keeps_count
    (materialize path_join RES_FILES_BASE_DIR dataBaseDir Data Parser_parse
       JSON_stringify c e).
Proof.
  destruct c; unfold materialize, processStaticFile, processSchemaFile,
    processFsdBinaryFile, processPickleFile, defaultCopyFile, isValidSQLite,
    convertPickleToJson; keeps.
  intros w. destruct (existsSync _ w); [reflexivity|].
  apply keeps_mkdirSync.
Qed.

Lemma count_entry_counts w :
  fst (count_entry w) = Fulfilled tt
  /\ processedCount (snd (count_entry w)) = processedCount w + 1.
Proof.
  unfold count_entry. destruct ((processedCount w + 1) mod 1000 =? 0);
    split; reflexivity.
Qed.

Lemma category_of_exact filetype :
  (category_of filetype = static <-> filetype = "static")
  /\ (category_of filetype = schema <-> filetype = "schema")
  /\ (category_of filetype = binaryFormat <-> filetype = "fsdbinary")
  /\ (category_of filetype = serializedBlob <-> filetype = "pickle")
  /\ (forall rawType,
        category_of filetype = other rawType <->
        rawType = filetype /\ filetype <> "static" /\ filetype <> "schema"
        /\ filetype <> "fsdbinary" /\ filetype <> "pickle").
Proof.
  unfold category_of.
  destruct (String.eqb_spec filetype "static") as [->|N1];
    [repeat split; intros; try discriminate; try reflexivity;
     try (exfalso; intuition congruence)|].
  destruct (String.eqb_spec filetype "schema") as [->|N2];
    [repeat split; intros; try discriminate; try reflexivity;
     try (exfalso; intuition congruence)|].
  destruct (String.eqb_spec filetype "fsdbinary") as [->|N3];
    [repeat split; intros; try discriminate; try reflexivity;
     try (exfalso; intuition congruence)|].
  destruct (String.eqb_spec filetype "pickle") as [->|N4];
    [repeat split; intros; try discriminate; try reflexivity;
     try (exfalso; intuition congruence)|].
  repeat split; intros; try discriminate; try contradiction;
    try congruence; try (intuition congruence).
Qed.

Let handler := on_line path_join RES_FILES_BASE_DIR dataBaseDir Data
                 Parser_parse JSON_stringify.
Let routine := materialize path_join RES_FILES_BASE_DIR dataBaseDir Data
                 Parser_parse JSON_stringify.

(** C4. For a manifest line that matches the pattern, one category is
    selected by comparing the extracted file type with [static], [schema],
    [fsdbinary] and [pickle] (anything else is [other] of that file type),
    the handler counts the entry once and runs the one routine of that
    category; for a line that does not match, the handler does nothing: the
    state, counter included, is unchanged. *)
Theorem line_selects_one_routine (line : string) :
  (forall e,
     match_line line = Some e ->
     (forall w,
        handler line w
        = await count_entry (fun _ => routine (category_of (filetype e)) e) w)
     /\ (forall w,
          processedCount (snd (handler line w)) = processedCount w + 1))
  /\ (match_line line = None -> forall w, handler line w = (Fulfilled tt, w))
  /\ (forall filetype,
        (category_of filetype = static <-> filetype = "static")
        /\ (category_of filetype = schema <-> filetype = "schema")
        /\ (category_of filetype = binaryFormat <-> filetype = "fsdbinary")
        /\ (category_of filetype = serializedBlob <-> filetype = "pickle")
        /\ (forall rawType,
              category_of filetype = other rawType <->
              rawType = filetype /\ filetype <> "static"
              /\ filetype <> "schema" /\ filetype <> "fsdbinary"
              /\ filetype <> "pickle")).
Proof.
  split; [|split; [|apply category_of_exact]].
  - intros e M.
    assert (E : forall w,
              handler line w
              = await count_entry
                  (fun _ => routine (category_of (filetype e)) e) w).
    { intros w. unfold handler, on_line. rewrite M. destruct e as [rp fn ft src].
      unfold routine, materialize, category_of. simpl.
      destruct (ft =? "static")%string; [reflexivity|].
      destruct (ft =? "schema")%string; [reflexivity|].
      destruct (ft =? "fsdbinary")%string; [reflexivity|].
      destruct (ft =? "pickle")%string; reflexivity. }
    split; [exact E|].
    intros w. rewrite E. unfold await.
    destruct (count_entry_counts w) as [C1 C2].
    destruct (count_entry w) as [[[]|err] w']; simpl in *; [|discriminate].
    unfold routine. now rewrite keeps_materialize.
  - intros M w. unfold handler, on_line. now rewrite M.
Qed.

(** A copy that fails in a routine without a [try] rejects the promise of
    the handler, and nothing is printed about it. *)
Lemma copy_failure_is_not_caught line e w :
  match_line line = Some e ->
  filetype e = "static" \/ filetype e = "schema" \/ filetype e = "fsdbinary" ->
  file w (path_join RES_FILES_BASE_DIR (sourceRelativePath e)) = None ->
  handler line w
  = (Rejected (ENOENT (path_join RES_FILES_BASE_DIR (sourceRelativePath e))),
     snd (count_entry w)).
Proof.
  intros M T F. unfold handler, on_line. rewrite M.
  destruct e as [rp fn ft src]. simpl in *.
  destruct (count_entry_counts w) as [C1 _].
  assert (F' : file (snd (count_entry w)) (path_join RES_FILES_BASE_DIR src) = None).
  { unfold count_entry. destruct (_ =? 0); exact F. }
  unfold await at 1. destruct (count_entry w) as [[[]|err] w']; simpl in *;
    [|discriminate].
  destruct T as [-> | [-> | ->]]; simpl;
    unfold processStaticFile, processSchemaFile, processFsdBinaryFile;
    now rewrite (await_rejected _ _ w' _ w' (copyFile_missing _ _ _ F')).
Qed.

End RoutineFacts.

Lemma static_entry_is_copied_and_sniffed_sample :
  let w := with_file "ResFiles/ab/cd" (signature ++ [x00; x01])%list empty_world in
  let r := processStaticFile sample_join "data" "Foo" "ResFiles/ab/cd" w in
  fst r = Fulfilled tt
  /\ file (snd r) "data/static/Foo.static" = Some (signature ++ [x00; x01])%list
  /\ file (snd r) "data/sqlite/Foo.sqlite" = Some (signature ++ [x00; x01])%list.
Proof.
  intros w r.
  destruct (static_entry_is_copied_and_sniffed sample_join "data" "Foo"
              "ResFiles/ab/cd" (signature ++ [x00; x01])%list w eq_refl eq_refl)
    as (_ & _ & _ & _ & _ & H).
  apply H; reflexivity.
Defined.

Lemma pickle_entry_is_copied_and_decoded_sample :
  let w := with_file "ResFiles/ab/cd" [x01; x02] empty_world in
  let r :=
    processPickleFile sample_join "data" (list byte) sample_parse
      sample_stringify "starmapcache" "ResFiles/ab/cd" w in
  fst r = Fulfilled tt
  /\ console (snd r)
     = [Log "Copied ResFiles/ab/cd to data/pickle/starmapcache.pickle";
        LogError "Error converting data/pickle/starmapcache.pickle to JSON:"
                 (DecodeError "Unsupported opcode");
        LogError "Error processing pickle file starmapcache:"
                 (DecodeError "Unsupported opcode")].
Proof.
  intros w r.
  destruct (pickle_entry_is_copied_and_decoded sample_join "data" (list byte)
              sample_parse sample_stringify "starmapcache" "ResFiles/ab/cd" w)
    as [H1 H2].
  split; [exact H1|].
  destruct (H2 [x01; x02] eq_refl eq_refl) as [_ H3].
  destruct (H3 "Unsupported opcode" eq_refl) as [_ H4].
  fold r in H4. rewrite H4. reflexivity.
Defined.

Lemma line_selects_one_routine_sample :
  let line := "res:/staticdata/starmapcache.pickle,ab/cd,0123,42" in
  match_line line
  = Some (mkEntry "res:/staticdata/" "starmapcache" "pickle" "ab/cd")
  /\ processedCount (snd (sample_on_line line empty_world)) = 1
  /\ sample_on_line "no entry here" empty_world = (Fulfilled tt, empty_world).
Proof.
  intros line.
  destruct (line_selects_one_routine sample_join "ResFiles" "data" (list byte)
              sample_parse sample_stringify line) as (H1 & _ & _).
  destruct (line_selects_one_routine sample_join "ResFiles" "data" (list byte)
              sample_parse sample_stringify "no entry here") as (_ & H2 & _).
  split; [reflexivity|]. split.
  - exact (proj2 (H1 _ eq_refl) empty_world).
  - exact (H2 eq_refl empty_world).
Defined.

(** C2. A copy failure on an entry classified static is not caught: on the
    line of a static entry whose source file is missing the promise of the
    handler is rejected with the error of the copy, and nothing is printed. *)
Theorem static_copy_failure_is_not_caught :
  let r := sample_on_line "res:/staticdata/foo.static,ab/cd,0123,42" empty_world in
  match_line "res:/staticdata/foo.static,ab/cd,0123,42"
  = Some (mkEntry "res:/staticdata/" "foo" "static" "ab/cd")
  /\ fst r = Rejected (ENOENT "ResFiles/ab/cd")
  /\ console (snd r) = []
  /\ fst (processPickleFile sample_join "data" (list byte) sample_parse
            sample_stringify "foo" "ResFiles/ab/cd" empty_world)
     = Fulfilled tt.
Proof. repeat split. Qed.

End RouterFacts.

(** * Further properties of the label resolver *)

Module LabelCoverage.
Import Js Labels LabelFacts.

(** ** Pass 2 as a function of the index *)

Lemma full_path_eqb k k' :
  (full_path k' =? full_path k)%string = kind_eqb k k'.
Proof. destruct k, k'; reflexivity. Qed.

Lemma label_match_empty k : label_match (label_prefix k) EmptyString = None.
Proof. destruct k; reflexivity. Qed.

Lemma index_branch_get k' ids m l ix0 ix1 k id :
  index_branch k' ids m l ix0 = Ok ix1 ->
  map_get id (id_map k ix1)
  = if kind_eqb k k'
       && match l with
          | Str s =>
              match label_match (label_prefix k') s with
              | Some ds => number_eqb (parseInt ds) id
              | None => false
              end
          | _ => false
          end
       && set_has (Num id) (id_set k ids)
    then Some (parseInt m)
    else map_get id (id_map k ix0).
Proof.
  unfold index_branch. destruct l as [| | | |s| |]; try discriminate.
  destruct (label_match (label_prefix k') s) as [ds|] eqn:M.
  2:{ intros H. inversion H; subst. now rewrite andb_false_r. }
  destruct (set_has (Num (parseInt ds)) (id_set k' ids)) eqn:S;
    intros H; inversion H; subst; clear H.
  - rewrite id_map_with. destruct (kind_eqb k k') eqn:K; [|reflexivity].
    apply kind_eqb_eq in K. subst k'. simpl.
    destruct (number_eqb (parseInt ds) id) eqn:E.
    + apply number_eqb_eq in E. subst id. rewrite S. apply map_get_set_same.
    + simpl. now apply map_get_set_other.
  - destruct (kind_eqb k k') eqn:K; [|reflexivity].
    apply kind_eqb_eq in K. subst k'. simpl.
    destruct (number_eqb (parseInt ds) id) eqn:E; [|reflexivity].
    apply number_eqb_eq in E. subst id. now rewrite S.
Qed.

Lemma index_entry_get ids m e ix0 ix1 k id :
  index_entry ids (m, e) ix0 = Ok ix1 ->
  map_get id (id_map k ix1)
  = if indexes k id e && set_has (Num id) (id_set k ids)
    then Some (parseInt m)
    else map_get id (id_map k ix0).
Proof.
  unfold index_entry, indexes.
  destruct (field e "FullPath") as [fp|]; cbn [bind]; [|discriminate].
  destruct (field e "label") as [lbl|]; cbn [bind]; [|discriminate].
  assert (B : forall k',
            fp = Some (Str (full_path k')) -> truthy_opt lbl = true ->
            match lbl with
            | Some l => index_branch k' ids m l ix0
            | None => Ok ix0
            end = Ok ix1 ->
            map_get id (id_map k ix1)
            = if match fp with
                 | Some (Str fullPath) =>
                     match lbl with
                     | Some (Str label) =>
                         (fullPath =? full_path k)%string
                         && match label_match (label_prefix k) label with
                            | Some ds => number_eqb (parseInt ds) id
                            | None => false
                            end
                     | _ => false
                     end
                 | _ => false
                 end && set_has (Num id) (id_set k ids)
              then Some (parseInt m)
              else map_get id (id_map k ix0)).
  { intros k' -> T H. destruct lbl as [l|]; [|discriminate].
    rewrite (index_branch_get _ _ _ _ _ _ k id H). rewrite full_path_eqb.
    destruct l; try (now rewrite ?andb_false_r).
    destruct (kind_eqb k k') eqn:K; [|reflexivity].
    apply kind_eqb_eq in K. now subst. }
  destruct (strict_eq_str fp (full_path System) && truthy_opt lbl) eqn:C1.
  { apply andb_true_iff in C1. destruct C1 as [C1 T].
    apply strict_eq_str_true in C1. now apply B. }
  destruct (strict_eq_str fp (full_path Constellation) && truthy_opt lbl) eqn:C2.
  { apply andb_true_iff in C2. destruct C2 as [C2 T].
    apply strict_eq_str_true in C2. now apply B. }
  destruct (strict_eq_str fp (full_path Region) && truthy_opt lbl) eqn:C3.
  { apply andb_true_iff in C3. destruct C3 as [C3 T].
    apply strict_eq_str_true in C3. now apply B. }
  intros H. inversion H; subst ix1; clear H.
  destruct fp as [[| | | |s| |]|]; try reflexivity.
  destruct lbl as [[| | | |l| |]|]; try reflexivity.
  destruct l as [|c l].
  - rewrite label_match_empty. now rewrite andb_false_r.
  - simpl in C1, C2, C3. rewrite andb_true_r in C1, C2, C3.
    assert (F : (s =? full_path k)%string = false)
      by (destruct k; assumption).
    now rewrite F.
Qed.

Lemma build_index_from ids k id es :
  forall ix0 ix,
    for_each (index_entry ids) es ix0 = Ok ix ->
    map_get id (id_map k ix)
    = if set_has (Num id) (id_set k ids)
      then last_indexing k id es (map_get id (id_map k ix0))
      else map_get id (id_map k ix0).
Proof.
  induction es as [|[m e] es IH]; cbn [for_each last_indexing]; intros ix0 ix H.
  - inversion H; subst. now destruct (set_has _ _).
  - destruct (index_entry ids (m, e) ix0) as [ix1|] eqn:E; cbn [bind] in H;
      [|discriminate].
    rewrite (IH ix1 ix H). rewrite (index_entry_get _ _ _ _ _ k id E).
    destruct (set_has (Num id) (id_set k ids)); [|now rewrite andb_false_r].
    rewrite andb_true_r. now destruct (indexes k id e).
Qed.

Lemma build_index_get main ids ix k id :
  build_index main ids = Ok ix ->
  map_get id (id_map k ix)
  = if set_has (Num id) (id_set k ids)
    then last_indexing k id (index_entries main) None
    else None.
Proof.
  unfold build_index, index_entries, section_of.
  assert (Z0 : map_get id (id_map k (mkMessageIndex [] [] [])) = None)
    by now destruct k.
  destruct (field main "labels") as [[ls|]|]; cbn [bind]; try discriminate.
  - destruct (truthy ls).
    + intros H. rewrite (build_index_from ids k id _ _ _ H). now rewrite Z0.
    + intros H. inversion H; subst. rewrite Z0. now destruct (set_has _ _).
  - intros H. inversion H; subst. rewrite Z0. now destruct (set_has _ _).
Qed.

(** X1. The message-id index built by pass 2 maps an identifier exactly
    when the identifier is in the set discovered for the kind and some entry
    of the localization index records it, that is, carries the path tag of
    the kind and a string label in which the leftmost match of the pattern
    of the kind, wherever it stands in the label, has digits that
    [parseInt] reads as the identifier; the message id kept is that of the
    last such entry in enumeration order. *)
Theorem index_keeps_last_recording_entry
    (mainLocalization : value) (ids : IdSets) (ix : MessageIndex)
    (k : kind) (id : number) :
  build_index mainLocalization ids = Ok ix ->
  map_get id (id_map k ix)
  = if set_has (Num id) (id_set k ids)
    then last_indexing k id (index_entries mainLocalization) None
    else None.
Proof. apply build_index_get. Qed.

Lemma index_keeps_last_recording_entry_sample :
  exists ix,
    build_index
      (Obj [("labels",
             Obj [("7", Obj [("FullPath", Str "Map/Regions");
                             ("label", Str "region_10000001")]);
                  ("9", Obj [("FullPath", Str "Map/Regions");
                             ("label", Str "xx_region_10000001_region_5")]);
                  ("11", Obj [("FullPath", Str "Map/Regions");
                              ("label", Str "region_5_region_10000001")])])])
      (mkIdSets [] [] [Num (Int 10000001)]) = Ok ix
    /\ map_get (Int 10000001) (id_map Region ix) = Some (Int 9).
Proof.
  exists (mkMessageIndex [] [] [(Int 10000001, Int 9)]).
  assert (E : build_index
                (Obj [("labels",
                       Obj [("7", Obj [("FullPath", Str "Map/Regions");
                                       ("label", Str "region_10000001")]);
                            ("9", Obj [("FullPath", Str "Map/Regions");
                                       ("label",
                                        Str "xx_region_10000001_region_5")]);
                            ("11", Obj [("FullPath", Str "Map/Regions");
                                        ("label",
                                         Str "region_5_region_10000001")])])])
                (mkIdSets [] [] [Num (Int 10000001)])
              = Ok (mkMessageIndex [] [] [(Int 10000001, Int 9)]))
    by reflexivity.
  split; [exact E|].
  rewrite (index_keeps_last_recording_entry _ _ _ Region (Int 10000001) E).
  reflexivity.
Defined.

(** X2. Resolution is exact: an identifier has a name in the label map of a
    kind precisely when it is in the set discovered for the kind, some index
    entry records it, and the string table has, at the message id of the
    last such entry, an array whose first element is truthy; the name is
    that element. *)
Theorem label_resolution_is_exact
    (starMapCache mainLocalization enUsLocalization : value)
    (out : StellarLabels) (k : kind) (id : number) (name : value) :
  resolve_labels starMapCache mainLocalization enUsLocalization = Ok out ->
  (map_get id (label_map k out) = Some name <->
   exists ids messageId,
     discover_ids starMapCache = Ok ids
     /\ set_has (Num id) (id_set k ids) = true
     /\ last_indexing k id (index_entries mainLocalization) None = Some messageId
     /\ string_link messageId name enUsLocalization
     /\ truthy name = true).
Proof.
  intros H.
  destruct (resolve_labels_stages _ _ _ _ H) as (ids & ix & E1 & E2 & E3).
  pose proof (build_index_sound _ _ _ E2) as S.
  destruct (resolve_all_get _ _ _ (fun k => proj1 (S k)) E3) as (data & ED & Q).
  rewrite Q, (build_index_get _ _ _ k id E2). split.
  - intros G. exists ids.
    destruct (set_has (Num id) (id_set k ids)); [|discriminate].
    destruct (last_indexing k id (index_entries mainLocalization) None)
      as [mid|]; [|discriminate].
    exists mid. destruct (first_name_link _ _ _ _ ED G) as [L T]. auto.
  - intros (ids' & mid & E1' & SH & LI & L & T).
    rewrite E1 in E1'. inversion E1'; subst ids'.
    rewrite SH, LI, (link_first_name _ _ _ _ ED L). now rewrite T.
Qed.

Lemma label_resolution_is_exact_sample :
  exists out,
    resolve_labels sample_starmap sample_index sample_strings = Ok out
    /\ map_get (Int 10000001) (label_map Region out) = Some (Str "The Forge").
Proof.
  destruct (resolve_labels_ok sample_starmap sample_index sample_strings
              eq_refl eq_refl eq_refl) as [out E].
  exists out. split; [exact E|].
  apply (label_resolution_is_exact _ _ _ out Region (Int 10000001)
           (Str "The Forge") E).
  destruct (resolve_labels_stages _ _ _ _ E) as (ids & ix & E1 & _).
  exists ids, (Int 502). split; [exact E1|].
  vm_compute in E1. inversion E1; subst ids.
  split; [reflexivity|]. split; [reflexivity|]. split; [|reflexivity].
  exists (Obj [("500", Arr [Str "Jita"; Null]); ("501", Arr [Str ""]);
               ("502", Arr [Str "The Forge"]); ("503", Arr [Null])]), [].
  split; reflexivity.
Defined.

(** ** Identifiers read from labels *)

(** X3. On a label made of the prefix of its kind followed by decimal
    digits the pattern yields exactly those digits, and the identifier read
    from them is the double nearest to the number they write, which is not
    negative: the number itself below 2^53 (leading zeros do not count),
    and above it a rounded one. *)
Theorem label_of_prefix_and_digits (k : kind) (digits : string) :
  digits <> EmptyString -> take_digits digits = digits ->
  label_match (label_prefix k) (label_prefix k ++ digits) = Some digits
  /\ parseInt digits = to_double (decimal digits)
  /\ 0 <= decimal digits
  /\ (decimal digits < 2 ^ 53 -> parseInt digits = Int (decimal digits)).
Proof.
  intros N T. split; [now apply label_match_exact|].
  pose proof (decimal_from_nonneg digits 0 T (Z.le_refl 0)) as P.
  fold (decimal digits) in P.
  split; [now apply parseInt_digits|]. split; [exact P|].
  intros B. rewrite parseInt_digits by assumption.
  apply to_double_small. now rewrite Z.abs_eq.
Qed.

Lemma label_of_prefix_and_digits_sample :
  label_match "solar_system_" "solar_system_0030000001" = Some "0030000001"
  /\ parseInt "0030000001" = Int 30000001
  /\ parseInt "9007199254740993" = Int 9007199254740992.
Proof.
  destruct (label_of_prefix_and_digits System "0030000001") as (A & _ & _ & B);
    [discriminate | reflexivity |].
  destruct (label_of_prefix_and_digits System "9007199254740993")
    as (_ & C & _); [discriminate | reflexivity |].
  split; [exact A|]. split; [apply B; reflexivity | rewrite C; reflexivity].
Defined.

Lemma indexed_id_natural k id mid es :
  indexed_by k id mid es ->
  id = Inf false \/ exists z, id = Int z /\ 0 <= z.
Proof.
  intros (m & e & l & d & _ & _ & _ & M & P & _).
  destruct (label_match_spec _ _ _ M) as (b & r & _ & N & T & _).
  rewrite <- P, (parseInt_digits _ N T).
  apply to_double_nonneg. now apply decimal_from_nonneg.
Qed.

(** X4. No identifier that gets a name is [NaN] or negative: every key of
    a label map is a natural number or, for a run of digits too long for a
    double, the positive infinity, whatever the keys of the catalogues
    are. *)
Theorem resolved_ids_are_natural
    (starMapCache mainLocalization enUsLocalization : value)
    (out : StellarLabels) (k : kind) (id : number) (name : value) :
  resolve_labels starMapCache mainLocalization enUsLocalization = Ok out ->
  map_get id (label_map k out) = Some name ->
  id = Inf false \/ exists z, id = Int z /\ 0 <= z.
Proof.
  intros H G.
  destruct (resolve_labels_stages _ _ _ _ H) as (ids & ix & E1 & E2 & E3).
  pose proof (build_index_sound _ _ _ E2) as S.
  destruct (resolve_all_get _ _ _ (fun k => proj1 (S k)) E3) as (data & ED & Q).
  rewrite Q in G.
  destruct (map_get id (id_map k ix)) as [mid|] eqn:M; [|discriminate].
  apply map_get_In in M. destruct (S k) as [_ R].
  destruct (R _ _ M) as [_ I]. exact (indexed_id_natural _ _ _ _ I).
Qed.

Lemma resolved_ids_are_natural_sample :
  exists out,
    resolve_labels sample_starmap sample_index sample_strings = Ok out
    /\ (Int 30000001 = Inf false
        \/ exists z, Int 30000001 = Int z /\ 0 <= z).
Proof.
  destruct (resolve_labels_ok sample_starmap sample_index sample_strings
              eq_refl eq_refl eq_refl) as [out E].
  assert (G : map_get (Int 30000001) (label_map System out) = Some (Str "Jita")).
  { vm_compute in E. inversion E. reflexivity. }
  exists out. split; [exact E|].
  exact (resolved_ids_are_natural _ _ _ out System _ _ E G).
Defined.

(** ** The counts of the three passes *)

Lemma NoDup_map_Num (l : list number) : NoDup l -> NoDup (map Num l).
Proof.
  induction 1 as [|x l N D IH]; simpl; constructor; [|assumption].
  intros I. apply in_map_iff in I. destruct I as (y & E & I).
  inversion E; subst. contradiction.
Qed.

(** X5. The counts the script reports can only shrink from pass to pass:
    for every kind there are at most as many names as recorded message ids,
    and at most as many recorded message ids as discovered identifiers. *)
Theorem counts_shrink_along_the_passes
    (starMapCache mainLocalization enUsLocalization : value)
    (ids : IdSets) (ix : MessageIndex) (out : StellarLabels) (k : kind) :
  discover_ids starMapCache = Ok ids ->
  build_index mainLocalization ids = Ok ix ->
  resolve_all enUsLocalization ix = Ok out ->
  (List.length (label_map k out) <= List.length (id_map k ix))%nat
  /\ (List.length (id_map k ix) <= List.length (id_set k ids))%nat.
Proof.
  intros E1 E2 E3.
  pose proof (build_index_sound _ _ _ E2) as S.
  destruct (resolve_all_get _ _ _ (fun k => proj1 (S k)) E3) as (data & ED & Q).
  destruct (S k) as [U R]. split.
  - rewrite <- (length_map fst (label_map k out)).
    rewrite <- (length_map fst (id_map k ix)).
    apply NoDup_incl_length; [exact (resolve_all_unique _ _ _ k E3)|].
    intros id I. apply in_map_iff in I. destruct I as ([id' name] & <- & I).
    destruct (In_map_get _ _ _ I) as [v G]. simpl in *. rewrite Q in G.
    destruct (map_get id' (id_map k ix)) as [mid|] eqn:M; [|discriminate].
    apply map_get_In in M. now apply (in_map fst) in M.
  - rewrite <- (length_map fst (id_map k ix)).
    rewrite <- (length_map Num (map fst (id_map k ix))).
    apply NoDup_incl_length; [now apply NoDup_map_Num|].
    intros v I. apply in_map_iff in I. destruct I as (id & <- & I).
    apply in_map_iff in I. destruct I as ([id' mid] & <- & I).
    apply set_has_In. exact (proj1 (R _ _ I)).
Qed.

Lemma counts_shrink_along_the_passes_sample :
  exists ids ix out,
    discover_ids sample_starmap = Ok ids
    /\ build_index sample_index ids = Ok ix
    /\ resolve_all sample_strings ix = Ok out
    /\ (List.length (label_map System out)
        <= List.length (id_set System ids))%nat.
Proof.
  destruct (resolve_labels_ok sample_starmap sample_index sample_strings
              eq_refl eq_refl eq_refl) as [out E].
  destruct (resolve_labels_stages _ _ _ _ E) as (ids & ix & E1 & E2 & E3).
  exists ids, ix, out.
  destruct (counts_shrink_along_the_passes _ _ _ ids ix out System E1 E2 E3)
    as [A B].
  repeat (split; [assumption|]). exact (Nat.le_trans _ _ _ A B).
Defined.

(** ** Numbers and their text *)

Lemma to_double_neg v m :
  0 <= v -> to_double v = Int m -> to_double (- v) = Int (- m).
Proof.
  intros P. unfold to_double. rewrite Z.abs_opp.
  destruct (Z.abs v <? 2 ^ 53); [intros H; injection H as <-; reflexivity|].
  assert (N : (v <? 0) = false) by (apply Z.ltb_ge; lia).
  rewrite N. destruct (2 ^ 1024 <=? _); [discriminate|].
  intros H. injection H as <-.
  destruct (- v <? 0) eqn:O; [reflexivity|].
  apply Z.ltb_ge in O. assert (v = 0) by lia. subst v. reflexivity.
Qed.

Lemma parseInt_plain (negative : bool) v :
  0 <= v ->
  parseInt ((if negative then "-" else "") ++ decimal_text v)
  = to_double (if negative then - v else v).
Proof.
  intros P. destruct (decimal_text_nonneg v P) as (N & T & V).
  destruct negative; simpl.
  - rewrite parseInt_minus_digits by assumption. now rewrite V.
  - rewrite parseInt_digits by assumption. now rewrite V.
Qed.

(** Of a text in the exponent form [parseInt] reads the first digit. *)
Lemma parseInt_exponent (negative : bool) v :
  0 <= v ->
  exists d,
    0 <= d <= 9
    /\ parseInt ((if negative then "-" else "")
                 ++ exponent_text (decimal_text v))
       = Int (if negative then - d else d).
Proof.
  intros P. destruct (decimal_text_head v P) as (c & r & E & D & _).
  rewrite E, exponent_text_cons.
  exists (Z.of_nat (nat_of_ascii c) - 48).
  destruct c as [[] [] [] [] [] [] [] []]; try discriminate D;
    (split; [vm_compute; split; discriminate|]);
    destruct (trim r); destruct negative; reflexivity.
Qed.

(** X6. The round trip of a number through its text holds below 10^21 and
    not above: [parseInt] of the text of a double is the double exactly for
    [NaN] and for an integer of magnitude below 10^21.  From 10^21 on the
    text is in the exponent form and [parseInt] reads its first digit
    alone; of the text of an infinity it reads [NaN].  So the lookup of a
    message id in the string table is made under the text of the key it was
    read from when that key is the text of a number below 10^21. *)
Theorem number_text_round_trip (n : number) :
  is_double n ->
  (parseInt (ToString n) = n <->
   n = NaN \/ exists z, n = Int z /\ Z.abs z < 10 ^ 21)
  /\ (forall z,
        n = Int z -> 10 ^ 21 <= Z.abs z ->
        exists d, -9 <= d <= 9 /\ parseInt (ToString n) = Int d)
  /\ (forall negative, n = Inf negative -> parseInt (ToString n) = NaN)
  /\ (forall z props,
        n = Int z -> Z.abs z < 10 ^ 21 ->
        index (Obj props) (parseInt (ToString n))
        = Ok (assoc (ToString n) props)).
Proof.
  intros D.
  assert (B : forall z,
            n = Int z -> 10 ^ 21 <= Z.abs z ->
            exists d, -9 <= d <= 9 /\ parseInt (ToString n) = Int d).
  { intros z -> G. destruct (ToString_form z D) as (v & P & _ & F).
    rewrite F. apply Z.ltb_ge in G. rewrite G.
    destruct (parseInt_exponent (z <? 0) v P) as (d & R & E). rewrite E.
    destruct (z <? 0); eexists; (split; [|reflexivity]); lia. }
  assert (S : forall z,
            n = Int z -> Z.abs z < 10 ^ 21 -> parseInt (ToString n) = n).
  { intros z -> G. destruct (ToString_form z D) as (v & P & R & F).
    rewrite F. apply Z.ltb_lt in G. rewrite G. rewrite parseInt_plain by exact P.
    destruct (z <? 0) eqn:N.
    - apply Z.ltb_lt in N. rewrite (to_double_neg v _ P R). f_equal. lia.
    - apply Z.ltb_ge in N. rewrite R. f_equal. lia. }
  split; [|split; [exact B|split]].
  - split.
    + intros E. destruct n as [z|b|]; [|destruct b; discriminate E|now left].
      right. exists z. split; [reflexivity|].
      destruct (Z.lt_ge_cases (Z.abs z) (10 ^ 21)) as [L|G]; [exact L|].
      destruct (B z eq_refl G) as (d & R & F). rewrite F in E.
      injection E as ->. change (10 ^ 21) with 1000000000000000000000 in G. lia.
    + intros [-> | (z & -> & L)]; [reflexivity | now apply (S z)].
  - intros negative ->. now destruct negative.
  - intros z props E L. now rewrite (S z E L).
Qed.

Lemma number_text_round_trip_sample :
  parseInt (ToString (Int 18446744073709551616)) = Int 18446744073709551616
  /\ ToString (Int 18446744073709551616) = "18446744073709552000"
  /\ exists d,
       -9 <= d <= 9
       /\ parseInt (ToString (Int 1000000000000000000000)) = Int d.
Proof.
  destruct (number_text_round_trip (Int 18446744073709551616) eq_refl)
    as (A & _).
  destruct (number_text_round_trip (Int 1000000000000000000000) eq_refl)
    as (_ & B & _).
  split; [|split; [reflexivity|]].
  - apply A. right. eexists. split; [reflexivity|]. vm_compute. reflexivity.
  - apply (B _ eq_refl). vm_compute. discriminate.
Defined.

(** ** The written objects *)










(** ** What a run writes *)

Section RunFacts.

Variable dataDir : string.
Variable readFileSync : string -> string + string.
Variable JSON_parse : string -> value + string.
Variable JSON_stringify : value -> string.
Variable can_write : string -> bool.
Variable interpolate : value -> result string.

Let load := loadJsonFile readFileSync JSON_parse.
Let script :=
  extractStellarLabels dataDir readFileSync JSON_parse JSON_stringify
    can_write interpolate.

Lemma writes_app ev ev' : writes (ev ++ ev') = (writes ev ++ writes ev')%list.
Proof. unfold writes. apply flat_map_app. Qed.

Lemma summary_quiet {A B} (r : run A) (k : A -> run B) a :
  writes (fst r) = [] -> snd r = Return a ->
  summary (then_run r k) = summary (k a).
Proof.
  destruct r as [ev o]. simpl. intros W ->. unfold summary.
  destruct (k a) as [ev' o']. simpl. now rewrite writes_app, W.
Qed.

Lemma summary_thrown {A B} (k : A -> run B) :
  summary (then_run (lift (@Thrown A)) k) = ([], Uncaught).
Proof. reflexivity. Qed.

Lemma summary_write {B} path data (k : unit -> run B) :
  summary (then_run (writeFileSync can_write path data) k)
  = if can_write path
    then ((path, data) :: fst (summary (k tt)), snd (summary (k tt)))
    else ([], Uncaught).
Proof.
  unfold writeFileSync. destruct (can_write path); [|reflexivity].
  unfold summary. simpl. destruct (k tt) as [ev o]. reflexivity.
Qed.

Lemma load_quiet path v :
  snd (load path) = Return v ->
  writes (fst (load path)) = [] /\ snd (load path) = Return v.
Proof.
  intros H. split; [|exact H].
  destruct (load_cases readFileSync JSON_parse path)
    as [(v' & E & _) | (m & E & _)]; fold load in E; now rewrite E.
Qed.

Lemma summary_uncaught {A B} (r : run A) (k : A -> run B) :
  writes (fst r) = [] -> snd r = Uncaught ->
  summary (then_run r k) = ([], Uncaught).
Proof.
  destruct r as [ev o]. simpl. intros W ->. unfold summary. simpl.
  now rewrite W.
Qed.

(** The examples write no file, and end on the first name that cannot be
    interpolated. *)
Lemma example_lines_summary labels :
  writes (fst (example_lines interpolate labels)) = []
  /\ snd (example_lines interpolate labels)
     = if forallb (fun e => match interpolate (snd e) with
                            | Ok _ => true
                            | Thrown => false
                            end) labels
       then Return tt else Uncaught.
Proof.
  induction labels as [|[id name] rest [W O]]; [split; reflexivity|].
  cbn [example_lines forallb snd].
  destruct (interpolate name) as [text|]; [|split; reflexivity].
  simpl. destruct (example_lines interpolate rest) as [ev o].
  simpl in *. split; [exact W|]. rewrite O.
  now destruct (forallb _ rest).
Qed.

Lemma examples_summary labels :
  writes (fst (examples interpolate labels)) = []
  /\ snd (examples interpolate labels)
     = if interpolated interpolate labels then Return tt else Uncaught.
Proof. apply example_lines_summary. Qed.

Tactic Notation "quiet" constr(a) "by" tactic(t) :=
  rewrite (summary_quiet _ _ a) by t; cbv beta zeta.

Ltac quiet_logs := repeat (quiet tt by (split || reflexivity)).

(** How far the script gets, given what the passes return. *)
Lemma script_summary starMapCache mainLocalization enUsLocalization :
  snd (load (join dataDir "starmapcache.json")) = Return starMapCache ->
  snd (load (join dataDir "localization_fsd_main.json"))
  = Return mainLocalization ->
  snd (load (join dataDir "localization_fsd_en-us.json"))
  = Return enUsLocalization ->
  summary script
  = match resolve_labels starMapCache mainLocalization enUsLocalization with
    | Thrown => ([], Uncaught)
    | Ok out =>
        let files := output_files dataDir JSON_stringify out in
        (take_writable can_write files,
         if forallb (fun f => can_write (fst f)) files
            && (interpolated interpolate (systemLabels out)
                && interpolated interpolate (constellationLabels out)
                && interpolated interpolate (regionLabels out))
         then Return (Obj [("systems", plain_object (systemLabels out));
                           ("constellations",
                            plain_object (constellationLabels out));
                           ("regions", plain_object (regionLabels out))])
         else Uncaught)
    end.
Proof.
  intros L1 L2 L3.
  unfold script, extractStellarLabels. fold load.
  quiet starMapCache by apply (load_quiet _ _ L1).
  quiet mainLocalization by apply (load_quiet _ _ L2).
  quiet enUsLocalization by apply (load_quiet _ _ L3).
  quiet tt by reflexivity.
  unfold resolve_labels.
  destruct (discover_ids starMapCache) as [ids|]; cbn [bind];
    [|apply summary_thrown].
  quiet ids by reflexivity.
  do 4 (quiet tt by reflexivity).
  destruct (build_index mainLocalization ids) as [ix|]; cbn [bind];
    [|apply summary_thrown].
  quiet ix by reflexivity.
  do 4 (quiet tt by reflexivity).
  destruct (resolve_all enUsLocalization ix) as [out|]; cbn [bind];
    [|apply summary_thrown].
  quiet out by reflexivity.
  do 3 (quiet tt by reflexivity).
  unfold output_files. cbv zeta. cbn [take_writable forallb fst].
  rewrite summary_write.
  destruct (can_write (join dataDir "system_labels.json")); [|reflexivity].
  rewrite summary_write.
  destruct (can_write (join dataDir "constellation_labels.json"));
    [|reflexivity].
  rewrite summary_write.
  destruct (can_write (join dataDir "region_labels.json")); [|reflexivity].
  do 3 (quiet tt by reflexivity).
  rewrite summary_write.
  destruct (can_write (join dataDir "stellar_labels.json")); [|reflexivity].
  cbn [andb fst snd].
  quiet tt by reflexivity.
  quiet tt by reflexivity.
  destruct (examples_summary (systemLabels out)) as [W1 O1].
  destruct (interpolated interpolate (systemLabels out));
    [|now rewrite (summary_uncaught _ _ W1 O1)].
  quiet tt by assumption.
  quiet tt by reflexivity.
  destruct (examples_summary (constellationLabels out)) as [W2 O2].
  destruct (interpolated interpolate (constellationLabels out));
    [|now rewrite (summary_uncaught _ _ W2 O2)].
  quiet tt by assumption.
  quiet tt by reflexivity.
  destruct (examples_summary (regionLabels out)) as [W3 O3].
  destruct (interpolated interpolate (regionLabels out));
    [|now rewrite (summary_uncaught _ _ W3 O3)].
  quiet tt by assumption.
  reflexivity.
Qed.

(** X8. No partial output on a malformed catalogue: when the three files
    load but a pass throws on their shape, the run ends on the uncaught
    error and has written no file. *)
Theorem malformed_catalogue_writes_nothing
    (starMapCache mainLocalization enUsLocalization : value) :
  snd (load (join dataDir "starmapcache.json")) = Return starMapCache ->
  snd (load (join dataDir "localization_fsd_main.json"))
  = Return mainLocalization ->
  snd (load (join dataDir "localization_fsd_en-us.json"))
  = Return enUsLocalization ->
  resolve_labels starMapCache mainLocalization enUsLocalization = Thrown ->
  writes (fst script) = [] /\ snd script = Uncaught.
Proof.
  intros L1 L2 L3 T.
  pose proof (script_summary _ _ _ L1 L2 L3) as S. rewrite T in S.
  unfold summary in S. apply pair_equal_spec in S. exact S.
Qed.

(** X9. With the catalogues loaded and the passes done, the script writes
    its four files in a fixed order, the three label files and then the
    combined one, and stops at the first that cannot be written: the files
    before it stay written.  The examples are printed after the four
    writes: the run returns the combined object when all four files are
    written and every name it prints, five at most for a kind, can be
    interpolated, and it ends on the uncaught error otherwise, with the
    files written all the same. *)
Theorem output_files_are_written_in_order
    (starMapCache mainLocalization enUsLocalization : value)
    (out : StellarLabels) :
  snd (load (join dataDir "starmapcache.json")) = Return starMapCache ->
  snd (load (join dataDir "localization_fsd_main.json"))
  = Return mainLocalization ->
  snd (load (join dataDir "localization_fsd_en-us.json"))
  = Return enUsLocalization ->
  resolve_labels starMapCache mainLocalization enUsLocalization = Ok out ->
  let files := output_files dataDir JSON_stringify out in
  let printed :=
    interpolated interpolate (systemLabels out)
    && interpolated interpolate (constellationLabels out)
    && interpolated interpolate (regionLabels out) in
  writes (fst script) = take_writable can_write files
  /\ (forallb (fun f => can_write (fst f)) files = true ->
      writes (fst script) = files
      /\ snd script
         = if printed
           then Return (Obj [("systems", plain_object (systemLabels out));
                             ("constellations",
                              plain_object (constellationLabels out));
                             ("regions", plain_object (regionLabels out))])
           else Uncaught)
  /\ (forallb (fun f => can_write (fst f)) files = false ->
      snd script = Uncaught).
Proof.
  intros L1 L2 L3 R files printed.
  pose proof (script_summary _ _ _ L1 L2 L3) as S. rewrite R in S.
  unfold summary in S. cbv zeta in S. fold files printed in S.
  apply pair_equal_spec in S. destruct S as [W O].
  split; [exact W|]. split.
  - intros A. rewrite W, O, A. split; [|reflexivity].
    clear W O. induction files as [|[p d] fs IH]; [reflexivity|].
    simpl in *. apply andb_true_iff in A. destruct A as [A1 A2].
    rewrite A1. now rewrite IH.
  - intros A. now rewrite O, A.
Qed.

End RunFacts.

Lemma malformed_catalogue_writes_nothing_sample :
  let script :=
    extractStellarLabels "data/json" whole_files broken_parse
      (fun _ => EmptyString) (fun _ => true) (fun _ => Ok EmptyString) in
  writes (fst script) = [] /\ snd script = Uncaught.
Proof.
  exact (malformed_catalogue_writes_nothing "data/json" whole_files
           broken_parse (fun _ => EmptyString) (fun _ => true)
           (fun _ => Ok EmptyString)
           (Obj [("regions", Obj [("1", Null)])]) sample_index sample_strings
           eq_refl eq_refl eq_refl eq_refl).
Defined.

Lemma output_files_are_written_in_order_sample :
  let script :=
    extractStellarLabels "data/json" whole_files whole_parse
      (fun _ => EmptyString)
      (fun path => negb (path =? "data/json/region_labels.json")%string)
      (fun _ => Ok EmptyString) in
  let thrown :=
    extractStellarLabels "data/json" whole_files whole_parse
      (fun _ => EmptyString) (fun _ => true) (fun _ => Thrown) in
  (map fst (writes (fst script))
   = ["data/json/system_labels.json"; "data/json/constellation_labels.json"]
   /\ snd script = Uncaught)
  /\ (map fst (writes (fst thrown))
      = ["data/json/system_labels.json"; "data/json/constellation_labels.json";
         "data/json/region_labels.json"; "data/json/stellar_labels.json"]
      /\ snd thrown = Uncaught).
Proof.
  intros script thrown.
  destruct (resolve_labels_ok sample_starmap sample_index sample_strings
              eq_refl eq_refl eq_refl) as [out E].
  destruct (output_files_are_written_in_order "data/json" whole_files
              whole_parse (fun _ => EmptyString)
              (fun path => negb (path =? "data/json/region_labels.json")%string)
              (fun _ => Ok EmptyString)
              sample_starmap sample_index sample_strings out
              eq_refl eq_refl eq_refl E) as (W & _ & U).
  destruct (output_files_are_written_in_order "data/json" whole_files
              whole_parse (fun _ => EmptyString) (fun _ => true)
              (fun _ => Thrown)
              sample_starmap sample_index sample_strings out
              eq_refl eq_refl eq_refl E) as (_ & V & _).
  fold script in W, U. fold thrown in V.
  split; [split; [rewrite W; reflexivity | apply U; reflexivity]|].
  destruct (V eq_refl) as [V1 V2]. split; [rewrite V1; reflexivity|].
  rewrite V2. vm_compute in E. injection E as <-. reflexivity.
Defined.

(** ** When a pass throws *)

Lemma field_thrown v name : field v name = Thrown <-> v = Null.
Proof. destruct v; simpl; split; intros H; congruence. Qed.

Lemma for_each_each {A S} (body : A -> S -> result S) xs :
  forall s s',
    for_each body xs s = Ok s' ->
    forall x, In x xs -> exists s1 s2, body x s1 = Ok s2.
Proof.
  induction xs as [|y xs IH]; intros s s' H x I; [destruct I|].
  cbn [for_each] in H.
  destruct (body y s) as [s1|] eqn:E; cbn [bind] in H; [|discriminate].
  destruct I as [<- | I]; [eauto | exact (IH _ _ H x I)].
Qed.

Lemma add_listed_shape member name l set set' :
  field member name = Ok l -> add_listed l set = Ok set' ->
  listed_shape member name = true.
Proof.
  intros F A. unfold listed_shape. rewrite F. unfold add_listed in A.
  destruct l as [l|]; [|reflexivity].
  destruct (truthy l); [|reflexivity]. now destruct l.
Qed.

Lemma scan_region_shape region s s' :
  scan_region region s = Ok s' ->
  listed_shape region "solarSystemIDs" && listed_shape region "constellationIDs"
  = true.
Proof.
  unfold scan_region.
  destruct (field region "solarSystemIDs") as [l1|] eqn:F1; cbn [bind];
    [|discriminate].
  destruct (add_listed l1 (allSystemIds s)) as [t1|] eqn:A1; cbn [bind];
    [|discriminate].
  destruct (field region "constellationIDs") as [l2|] eqn:F2; cbn [bind];
    [|discriminate].
  destruct (add_listed l2 (allConstellationIds s)) as [t2|] eqn:A2; cbn [bind];
    [|discriminate].
  intros _. rewrite (add_listed_shape _ _ _ _ _ F1 A1).
  now rewrite (add_listed_shape _ _ _ _ _ F2 A2).
Qed.

Lemma scan_constellation_shape constellation s s' :
  scan_constellation constellation s = Ok s' ->
  listed_shape constellation "solarSystemIDs" = true.
Proof.
  unfold scan_constellation.
  destruct (field constellation "solarSystemIDs") as [l1|] eqn:F1; cbn [bind];
    [|discriminate].
  destruct (add_listed l1 (allSystemIds s)) as [t1|] eqn:A1; cbn [bind];
    [|discriminate].
  intros _. exact (add_listed_shape _ _ _ _ _ F1 A1).
Qed.

Lemma discover_ids_shape star s :
  discover_ids star = Ok s -> starmap_shape star = true.
Proof.
  unfold discover_ids, starmap_shape.
  destruct (discover_regions star (mkIdSets [] [] [])) as [s1|] eqn:E1;
    cbn [bind]; [|discriminate].
  destruct (discover_constellations star s1) as [s2|] eqn:E2; cbn [bind];
    [|discriminate].
  intros _.
  assert (N : not_null star = true).
  { destruct star; try reflexivity. discriminate E1. }
  rewrite N. cbn [andb]. apply andb_true_iff. split.
  - apply forallb_forall. intros r I.
    unfold discover_regions in E1. unfold members, section_of in I.
    destruct (field star "regions") as [[rs|]|]; cbn [bind] in E1;
      try destruct I.
    destruct (truthy rs); [|destruct I].
    destruct (for_each_each _ _ _ _ E1 r I) as (a & b & Q).
    exact (scan_region_shape _ _ _ Q).
  - apply forallb_forall. intros r I.
    unfold discover_constellations in E2. unfold members, section_of in I.
    destruct (field star "constellations") as [[cs|]|]; cbn [bind] in E2;
      try destruct I.
    destruct (truthy cs); [|destruct I].
    destruct (for_each_each _ _ _ _ E2 r I) as (a & b & Q).
    exact (scan_constellation_shape _ _ _ Q).
Qed.

(** X23. Identifier discovery throws exactly on a star-map catalogue off
    the expected shape: the document is [null], or a member of [regions] or
    [constellations] is [null], or one of their identifier lists is a
    truthy value that is not an array. *)
Theorem discovery_throws_off_shape (starMapCache : value) :
  discover_ids starMapCache = Thrown <-> starmap_shape starMapCache = false.
Proof.
  split.
  - intros T. destruct (starmap_shape starMapCache) eqn:S; [|reflexivity].
    destruct (discover_ids_ok _ S) as [s E]. congruence.
  - intros S. destruct (discover_ids starMapCache) as [s|] eqn:E;
      [|reflexivity].
    apply discover_ids_shape in E. congruence.
Qed.

Lemma discovery_throws_off_shape_sample :
  discover_ids (Obj [("regions", Obj [("10000001", Null)])]) = Thrown
  /\ discover_ids (Obj [("regions", Obj [("10000001",
                      Obj [("solarSystemIDs", Str "30000001")])])]) = Thrown.
Proof.
  split; apply discovery_throws_off_shape; reflexivity.
Defined.

Lemma index_one_thrown enus : index enus (Int 1) = Thrown <-> enus = Null.
Proof. destruct enus; simpl; split; intros H; congruence. Qed.

Lemma resolve_names_thrown data m :
  resolve_names data m = Thrown <->
  m <> [] /\ (data = None \/ data = Some Null).
Proof.
  unfold resolve_names. split.
  - intros T. split.
    + intros ->. discriminate T.
    + destruct data as [d|]; [|now left]. right.
      destruct (not_null d) eqn:N; [|destruct d; try discriminate N; reflexivity].
      destruct (for_each_ok (resolve_entry (Some d)) m
                  (fun e l _ => resolve_entry_ok d e l N) []) as [l E].
      congruence.
  - intros [N D]. destruct m as [|[id mid] m]; [congruence|].
    cbn [for_each]. unfold resolve_entry.
    destruct D as [-> | ->]; reflexivity.
Qed.

Lemma resolve_names_good d m :
  not_null d = true -> exists l, resolve_names (Some d) m = Ok l.
Proof.
  intros N. apply for_each_ok. intros e l _. now apply resolve_entry_ok.
Qed.

(** X24. Name resolution throws exactly in two cases: the English document
    is [null]; or its element 1 is missing or [null] while at least one
    identifier was indexed.  With no identifier indexed a document without
    element 1 passes and gives empty label maps. *)
Theorem resolution_throws_without_table
    (enUsLocalization : value) (ix : MessageIndex) :
  (resolve_all enUsLocalization ix = Thrown <->
   enUsLocalization = Null
   \/ ((index enUsLocalization (Int 1) = Ok None
        \/ index enUsLocalization (Int 1) = Ok (Some Null))
       /\ (systemIdToMessageId ix <> []
           \/ constellationIdToMessageId ix <> []
           \/ regionIdToMessageId ix <> [])))
  /\ (enUsLocalization <> Null ->
      resolve_all enUsLocalization (mkMessageIndex [] [] [])
      = Ok (mkStellarLabels [] [] [])).
Proof.
  split.
  - unfold resolve_all.
    destruct (index enUsLocalization (Int 1)) as [data|] eqn:I; cbn [bind].
    2:{ apply index_one_thrown in I. split; [now left | reflexivity]. }
    assert (NN : enUsLocalization <> Null)
      by (intros ->; discriminate I).
    assert (G : forall d, data = Some d -> not_null d = true ->
                forall m, exists l, resolve_names data m = Ok l)
      by (intros d -> N m; now apply resolve_names_good).
    destruct (resolve_names data (systemIdToMessageId ix)) as [l1|] eqn:E1;
      cbn [bind].
    2:{ apply resolve_names_thrown in E1. destruct E1 as [M D]. split; auto.
        intros _. right. split; [|now left].
        destruct D as [-> | ->]; auto. }
    destruct (resolve_names data (constellationIdToMessageId ix)) as [l2|] eqn:E2;
      cbn [bind].
    2:{ apply resolve_names_thrown in E2. destruct E2 as [M D]. split; auto.
        intros _. right. split; [|right; now left].
        destruct D as [-> | ->]; auto. }
    destruct (resolve_names data (regionIdToMessageId ix)) as [l3|] eqn:E3;
      cbn [bind].
    2:{ apply resolve_names_thrown in E3. destruct E3 as [M D]. split; auto.
        intros _. right. split; [|right; now right].
        destruct D as [-> | ->]; auto. }
    split; [discriminate|].
    intros [-> | [D M]]; [congruence|]. exfalso.
    assert (B : data = None \/ data = Some Null)
      by (destruct D as [D | D]; inversion D; auto).
    assert (T : forall m, m <> [] -> resolve_names data m = Thrown)
      by (intros m Hm; apply resolve_names_thrown; auto).
    destruct M as [M | [M | M]]; apply T in M; congruence.
  - intros N. unfold resolve_all.
    destruct (index enUsLocalization (Int 1)) as [data|] eqn:I; [reflexivity|].
    apply index_one_thrown in I. contradiction.
Qed.

Lemma resolution_throws_without_table_sample :
  resolve_all (Arr [Str "en-us"]) (mkMessageIndex [(Int 30000001, Int 500)] [] [])
  = Thrown
  /\ resolve_all (Arr [Str "en-us"]) (mkMessageIndex [] [] [])
     = Ok (mkStellarLabels [] [] []).
Proof.
  destruct (resolution_throws_without_table (Arr [Str "en-us"])
              (mkMessageIndex [(Int 30000001, Int 500)] [] [])) as [A B].
  split; [|apply B; discriminate].
  apply A. right. split; [now left | left; discriminate].
Defined.

End LabelCoverage.

(** * Further properties of the asset router *)

Module RouterCoverage.
Import Extract RouterFacts.

(** ** Strings *)

Lemma app_empty_r (s : string) : s ++ EmptyString = s.
Proof. induction s as [|c s IH]; simpl; [reflexivity | now rewrite IH]. Qed.

Lemma app_assoc (a b c : string) : (a ++ b) ++ c = a ++ (b ++ c).
Proof. induction a as [|x a IH]; simpl; [reflexivity | now rewrite IH]. Qed.

Lemma length_app (a b : string) :
  String.length (a ++ b) = (String.length a + String.length b)%nat.
Proof. induction a as [|x a IH]; simpl; [reflexivity | now rewrite IH]. Qed.

Lemma all_chars_app P a b :
  all_chars P (a ++ b) = all_chars P a && all_chars P b.
Proof.
  induction a as [|x a IH]; simpl; [reflexivity|].
  now rewrite IH, andb_assoc.
Qed.

Lemma lacks_app c a b : lacks c (a ++ b) = lacks c a && lacks c b.
Proof. apply all_chars_app. Qed.

Lemma lacks_head c r : lacks c (String c r) = false.
Proof. unfold lacks, char_is. simpl. now rewrite Ascii.eqb_refl. Qed.

Lemma nonempty_length (s : string) : (1 <= String.length s)%nat -> s <> EmptyString.
Proof. destruct s; simpl; [lia | discriminate]. Qed.

(** ** The pattern *)

Lemma match_pieces_rep class least greedy ps s :
  match_pieces (Rep class least greedy :: ps) s
  = rep_match class least greedy (match_pieces ps) s 0 (fun t => t).
Proof. reflexivity. Qed.

Lemma rep_match_sound class least greedy k :
  forall s n taken pre r,
    (forall t, taken t = pre ++ t) ->
    String.length pre = n -> all_chars class pre = true ->
    rep_match class least greedy k s n taken = Some r ->
    exists g rest gs,
      r = (pre ++ g) :: gs /\ s = g ++ rest /\ k rest = Some gs
      /\ all_chars class (pre ++ g) = true
      /\ (least <= String.length (pre ++ g))%nat.
Proof.
  induction s as [|x s IH]; intros n taken pre r T L A H.
  - assert (S : (if (least <=? n)%nat
                 then option_map (cons (taken EmptyString)) (k EmptyString)
                 else None) = Some r)
      by (simpl in H; destruct greedy; exact H || (destruct (if (least <=? n)%nat then _ else _); [exact H | discriminate])).
    destruct (least <=? n)%nat eqn:E; [|discriminate].
    apply Nat.leb_le in E.
    destruct (k EmptyString) as [gs|] eqn:K; [|discriminate].
    inversion S; subst r. exists EmptyString, EmptyString, gs.
    rewrite T, app_empty_r. repeat split; try assumption. lia.
  - assert (Stop : (if (least <=? n)%nat
                    then option_map (cons (taken EmptyString)) (k (String x s))
                    else None) = Some r ->
                   exists g rest gs,
                     r = (pre ++ g) :: gs /\ String x s = g ++ rest
                     /\ k rest = Some gs /\ all_chars class (pre ++ g) = true
                     /\ (least <= String.length (pre ++ g))%nat).
    { intros S. destruct (least <=? n)%nat eqn:E; [|discriminate].
      apply Nat.leb_le in E.
      destruct (k (String x s)) as [gs|] eqn:K; [|discriminate].
      inversion S; subst r. exists EmptyString, (String x s), gs.
      rewrite T, app_empty_r. repeat split; try assumption. lia. }
    assert (More : (if class x
                    then rep_match class least greedy k s (S n)
                           (fun t => taken (String x t))
                    else None) = Some r ->
                   exists g rest gs,
                     r = (pre ++ g) :: gs /\ String x s = g ++ rest
                     /\ k rest = Some gs /\ all_chars class (pre ++ g) = true
                     /\ (least <= String.length (pre ++ g))%nat).
    { intros M. destruct (class x) eqn:C; [|discriminate].
      destruct (IH (S n) (fun t => taken (String x t))
                  (pre ++ String x EmptyString) r) as (g & rest & gs & R & E & K & A' & L');
        try assumption.
      - intros t. now rewrite T, app_assoc.
      - rewrite length_app. simpl. lia.
      - rewrite all_chars_app, A. simpl. now rewrite C.
      - exists (String x g), rest, gs.
        rewrite app_assoc in R, A', L'. simpl in R, A', L'. simpl.
        repeat split; try assumption. now rewrite E. }
    change (rep_match class least greedy k (String x s) n taken)
      with (let stop :=
              if (least <=? n)%nat
              then option_map (cons (taken EmptyString)) (k (String x s))
              else None in
            let more :=
              if class x
              then rep_match class least greedy k s (S n)
                     (fun t => taken (String x t))
              else None in
            if greedy
            then match more with Some m => Some m | None => stop end
            else match stop with Some m => Some m | None => more end) in H.
    cbv zeta in H. destruct greedy.
    + destruct (if class x then _ else None) as [m|] eqn:M.
      * inversion H; subst m. now apply More.
      * now apply Stop.
    + destruct (if (least <=? n)%nat then _ else None) as [m|] eqn:S0.
      * inversion H; subst m. now apply Stop.
      * now apply More.
Qed.

Lemma match_pieces_sound ps :
  forall s gs,
    match_pieces ps s = Some gs ->
    Forall2 piece_ok ps gs /\ s = join_all gs.
Proof.
  induction ps as [|p ps IH]; intros s gs H.
  - destruct s; [|discriminate]. inversion H. split; [constructor | reflexivity].
  - destruct p as [c|class least greedy].
    + simpl in H. destruct s as [|x r]; [discriminate|].
      destruct (Ascii.eqb x c) eqn:E; [|discriminate].
      apply Ascii.eqb_eq in E. subst x.
      destruct (match_pieces ps r) as [gs'|] eqn:M; [|discriminate].
      inversion H; subst gs. destruct (IH _ _ M) as [F J].
      split; [constructor; [reflexivity | assumption]|].
      simpl. now rewrite <- J.
    + rewrite match_pieces_rep in H.
      destruct (rep_match_sound class least greedy (match_pieces ps) s 0
                  (fun t => t) EmptyString gs) as (g & rest & gs' & R & E & K & A & L);
        try reflexivity; try assumption.
      simpl in R, A, L. subst gs. destruct (IH _ _ K) as [F J].
      split; [constructor; [split; assumption | assumption]|].
      simpl. now rewrite <- J.
Qed.

Lemma match_line_groups line e :
  match_line line = Some e ->
  exists d f rest,
    sourceRelativePath e = d ++ "/" ++ f
    /\ line = respath e ++ filename e ++ "." ++ filetype e ++ ","
              ++ sourceRelativePath e ++ rest
    /\ piece_ok (Rep not_slash 1 true) (filename e)
    /\ piece_ok (Rep not_comma 1 true) (filetype e)
    /\ piece_ok (Rep not_slash 1 true) d
    /\ piece_ok (Rep not_comma 1 true) f.
Proof.
  unfold match_line. destruct (match_pieces regex line) as [gs|] eqn:M;
    [|discriminate].
  destruct (match_pieces_sound _ _ _ M) as [F J].
  unfold regex in F.
  repeat match goal with
         | H : Forall2 _ (_ :: _) _ |- _ => inversion H; subst; clear H
         | H : Forall2 _ [] _ |- _ => inversion H; subst; clear H
         end.
  intros H. inversion H; subst e; clear H. simpl.
  repeat match goal with
         | H : piece_ok (Lit _) _ |- _ => simpl in H; subst
         end.
  eexists _, _, _. split; [reflexivity|].
  split; [|repeat split; assumption || (simpl in *; tauto)].
  unfold join_all. simpl. rewrite !app_assoc. simpl. now rewrite app_empty_r.
Qed.

(** X10. The groups of the pattern split the line: a matched line is its
    respath, file name, a dot, file type, a comma, source path and a rest,
    in this order; the file name is not empty and has no slash, the file
    type is not empty and has no comma, and the source path is a directory
    without a slash, a slash, and a file part without a comma, both not
    empty. *)
Theorem entry_splits_the_line (line : string) (e : ManifestEntry) :
  match_line line = Some e ->
  exists d f rest,
    sourceRelativePath e = d ++ "/" ++ f
    /\ line = respath e ++ filename e ++ "." ++ filetype e ++ ","
              ++ sourceRelativePath e ++ rest
    /\ filename e <> EmptyString /\ lacks "/" (filename e) = true
    /\ filetype e <> EmptyString /\ lacks "," (filetype e) = true
    /\ d <> EmptyString /\ lacks "/" d = true
    /\ f <> EmptyString /\ lacks "," f = true.
Proof.
  intros M.
  destruct (match_line_groups _ _ M)
    as (d & f & rest & S & L & [A1 B1] & [A2 B2] & [A3 B3] & [A4 B4]).
  exists d, f, rest. split; [assumption|]. split; [assumption|].
  repeat split; try assumption; now apply nonempty_length.
Qed.

Lemma entry_splits_the_line_sample :
  exists d f rest,
    "ab/cd" = d ++ "/" ++ f
    /\ "res:/staticdata/foo.static,ab/cd,0123,42"
       = "res:/staticdata/" ++ "foo" ++ "." ++ "static" ++ "," ++ "ab/cd" ++ rest.
Proof.
  destruct (entry_splits_the_line "res:/staticdata/foo.static,ab/cd,0123,42"
              (mkEntry "res:/staticdata/" "foo" "static" "ab/cd") eq_refl)
    as (d & f & rest & S & L & _).
  exists d, f, rest. split; [exact S | exact L].
Defined.

Section HandlerFacts.

Variable path_join : string -> string -> string.
Variable RES_FILES_BASE_DIR : string.
Variable dataBaseDir : string.
Variable Data : Type.
Variable Parser_parse : list byte -> Data + string.
Variable JSON_stringify : Data -> list byte + string.

Let handler := on_line path_join RES_FILES_BASE_DIR dataBaseDir Data
                 Parser_parse JSON_stringify.
Let routine := materialize path_join RES_FILES_BASE_DIR dataBaseDir Data
                 Parser_parse JSON_stringify.

(** X11. A line that has no dot, or no comma, or no slash is not an entry:
    the handler leaves the files, the console and both counters as they
    are (the empty line among them). *)
Theorem line_without_separator_is_ignored (line : string) (w : world) :
  lacks "." line || lacks "," line || lacks "/" line = true ->
  match_line line = None /\ handler line w = (Fulfilled tt, w).
Proof.
  intros H.
  assert (N : match_line line = None).
  { destruct (match_line line) as [e|] eqn:M; [|reflexivity]. exfalso.
    destruct (match_line_groups _ _ M) as (d & f & rest & S & L & _).
    rewrite S in L.
    assert (D : lacks "." line = false)
      by (rewrite L, !lacks_app, lacks_head; now rewrite !andb_false_r).
    assert (C : lacks "," line = false)
      by (rewrite L, !lacks_app, lacks_head; now rewrite !andb_false_r).
    assert (Sl : lacks "/" line = false)
      by (rewrite L, !lacks_app, lacks_head; now rewrite !andb_false_r).
    rewrite D, C, Sl in H. discriminate. }
  split; [exact N|]. unfold handler, on_line. now rewrite N.
Qed.

End HandlerFacts.

Lemma line_without_separator_is_ignored_sample :
  sample_on_line "" empty_world = (Fulfilled tt, empty_world)
  /\ sample_on_line "res:/staticdata/foo.static" empty_world
     = (Fulfilled tt, empty_world).
Proof.
  split.
  - exact (proj2 (line_without_separator_is_ignored sample_join "ResFiles"
                    "data" (list byte) sample_parse sample_stringify ""
                    empty_world eq_refl)).
  - exact (proj2 (line_without_separator_is_ignored sample_join "ResFiles"
                    "data" (list byte) sample_parse sample_stringify
                    "res:/staticdata/foo.static" empty_world eq_refl)).
Defined.

(** ** What the routines leave as it is *)

Lemma preserves_ret {A X} (observe : world -> X) (a : A) :
  preserves observe (ret a).
Proof. intros w. reflexivity. Qed.

Lemma preserves_throw {A X} (observe : world -> X) e :
  preserves observe (@throw A e).
Proof. intros w. reflexivity. Qed.

Lemma preserves_await {A B X} (observe : world -> X) (t : task A)
    (k : A -> task B) :
  preserves observe t -> (forall a, preserves observe (k a)) ->
  preserves observe (await t k).
Proof.
  intros Ht Hk w. unfold await. specialize (Ht w).
  destruct (t w) as [[a|e] w']; simpl in *; [|assumption].
  now rewrite Hk.
Qed.

Lemma preserves_try_catch {A X} (observe : world -> X) (t : task A)
    (h : error -> task A) :
  preserves observe t -> (forall e, preserves observe (h e)) ->
  preserves observe (try_catch t h).
Proof.
  intros Ht Hh w. unfold try_catch. specialize (Ht w).
  destruct (t w) as [[a|e] w']; simpl in *; [assumption|].
  now rewrite Hh.
Qed.

Lemma preserves_readFile {X} (observe : world -> X) path :
  preserves observe (readFile path).
Proof. intros w. unfold readFile. now destruct (file w path). Qed.

Lemma preserves_if {A X} (observe : world -> X) (b : bool) (t u : task A) :
  preserves observe t -> preserves observe u ->
  preserves observe (if b then t else u).
Proof. now destruct b. Qed.

Lemma file_like_log {X} (observe : world -> X) line :
  file_like observe -> preserves observe (console_log line).
Proof. intros F w. destruct w. apply F. Qed.

Lemma file_like_error {X} (observe : world -> X) line cause :
  file_like observe -> preserves observe (console_error line cause).
Proof. intros F w. destruct w. apply F. Qed.

Lemma file_like_make_dir {X} (observe : world -> X) last path :
  file_like observe -> preserves observe (make_dir last path).
Proof.
  intros F w. unfold make_dir. destruct (dir w path); [reflexivity|].
  destruct (file w path); [reflexivity|].
  destruct (denied w path); [reflexivity|]. destruct w. apply F.
Qed.

Lemma file_like_mkdir {X} (observe : world -> X) path :
  file_like observe -> preserves observe (mkdirSync path).
Proof.
  intros F. unfold mkdirSync. induction (ancestors path) as [|d ds IH]; simpl.
  - now apply file_like_make_dir.
  - apply preserves_await; [now apply file_like_make_dir | intros _; exact IH].
Qed.

Lemma file_like_ensure {X} (observe : world -> X) path :
  file_like observe ->
  preserves observe
    (fun w => if existsSync path w then ret tt w else mkdirSync path w).
Proof.
  intros F w. destruct (existsSync path w); [reflexivity|].
  now apply file_like_mkdir.
Qed.

Lemma file_like_count_entry {X} (observe : world -> X) :
  file_like observe -> preserves observe count_entry.
Proof.
  intros F w. unfold count_entry.
  destruct (_ =? 0); destruct w; apply F.
Qed.

Lemma file_like_file p : file_like (fun w => file w p).
Proof. intros f d n c q k d' c' q'. reflexivity. Qed.

Lemma file_like_pickle : file_like pickleCount.
Proof. intros f d n c q k d' c' q'. reflexivity. Qed.

Lemma pickle_writeFile path data : preserves pickleCount (writeFile path data).
Proof. intros w. unfold writeFile. now destruct (denied w path). Qed.

Lemma file_writeFile p path data :
  p <> path -> preserves (fun w => file w p) (writeFile path data).
Proof.
  intros N w. unfold writeFile. destruct (denied w path); [reflexivity|].
  simpl. apply String.eqb_neq in N. now rewrite N.
Qed.

Lemma file_count_pickle p filename :
  preserves (fun w => file w p) (count_pickle filename).
Proof. intros w. reflexivity. Qed.

Section RoutineMore.

Variable path_join : string -> string -> string.
Variable RES_FILES_BASE_DIR : string.
Variable dataBaseDir : string.
Variable Data : Type.
Variable Parser_parse : list byte -> Data + string.
Variable JSON_stringify : Data -> list byte + string.

Let handler := on_line path_join RES_FILES_BASE_DIR dataBaseDir Data
                 Parser_parse JSON_stringify.
Let routine := materialize path_join RES_FILES_BASE_DIR dataBaseDir Data
                 Parser_parse JSON_stringify.
Let dests := destinations path_join dataBaseDir.

Ltac frame F :=
  repeat first
    [ apply preserves_await; [|intros ?]
    | apply preserves_try_catch; [|intros ?]
    | apply preserves_ret
    | apply preserves_throw
    | apply preserves_readFile
    | apply (file_like_log _ _ F)
    | apply (file_like_error _ _ _ F)
    | apply (file_like_ensure _ _ F)
    | apply (file_like_mkdir _ _ F)
    | apply preserves_if
    | match goal with
      | |- preserves _ (match ?x with _ => _ end) => destruct x
      end ].

(** X12. A routine writes no file but its own destinations: whatever the
    category and however the routine ends, every path that is not one of
    them holds what it held before. *)
Theorem routine_writes_only_its_destinations
    (c : AssetCategory) (e : ManifestEntry) (w : world) (p : string) :
  ~ In p (dests c e) ->
  file (snd (routine c e w)) p = file w p.
Proof.
  intros N. revert w. change (preserves (fun w => file w p) (routine c e)).
  pose proof (file_like_file p) as F.
  assert (W : forall path data,
            In path (dests c e) ->
            preserves (fun w => file w p) (writeFile path data)).
  { intros path data I. apply file_writeFile. intros ->. contradiction. }
  unfold routine, materialize, dests, destinations in *.
  destruct c; unfold processStaticFile, processSchemaFile,
    processFsdBinaryFile, processPickleFile, defaultCopyFile, isValidSQLite,
    convertPickleToJson, copyFile; frame F;
    try (apply W; simpl; tauto);
    try apply file_count_pickle.
Qed.

End RoutineMore.

Lemma routine_writes_only_its_destinations_sample :
  file (snd (materialize sample_join "ResFiles" "data" (list byte) sample_parse
               sample_stringify serializedBlob
               (mkEntry "res:/staticdata/" "starmapcache" "pickle" "ab/cd")
               sample_world))
       "ResFiles/ab/cd"
  = Some [x80; x02].
Proof.
  rewrite (routine_writes_only_its_destinations sample_join "ResFiles" "data"
             (list byte) sample_parse sample_stringify).
  - reflexivity.
  - simpl. intros [H | [H | []]]; discriminate H.
Defined.

(** ** Directories *)

Lemma only_dirs_refl w : only_dirs w w.
Proof. unfold only_dirs. auto. Qed.

Lemma only_dirs_trans w1 w2 w3 :
  only_dirs w1 w2 -> only_dirs w2 w3 -> only_dirs w1 w3.
Proof.
  unfold only_dirs. intros (A1 & A2 & A3 & A4 & A5) (B1 & B2 & B3 & B4 & B5).
  repeat split; congruence.
Qed.

Lemma make_dir_cases last d w :
  let r := make_dir last d w in
  only_dirs w (snd r)
  /\ (forall q, dir w q = true -> dir (snd r) q = true)
  /\ (forall q, dir (snd r) q = true -> dir w q = true \/ q = d)
  /\ (fst r = Fulfilled tt -> dir (snd r) d = true).
Proof.
  unfold make_dir, only_dirs. destruct (dir w d) eqn:D; simpl.
  - repeat split; auto.
  - destruct (file w d); simpl; [repeat split; auto; discriminate|].
    destruct (denied w d); simpl; [repeat split; auto; discriminate|].
    repeat split; auto.
    + intros q Q. rewrite Q. apply orb_true_r.
    + intros q Q. apply orb_true_iff in Q.
      destruct Q as [Q | Q]; [right; now apply String.eqb_eq | now left].
    + intros _. now rewrite String.eqb_refl.
Qed.

Lemma make_dirs_cases path ds :
  forall w,
    let r := fold_right (fun d rest => make_dir false d ;;; rest)
                        (make_dir true path) ds w in
    only_dirs w (snd r)
    /\ (forall q, dir w q = true -> dir (snd r) q = true)
    /\ (forall q, dir (snd r) q = true -> dir w q = true \/ q = path \/ In q ds)
    /\ (fst r = Fulfilled tt ->
        dir (snd r) path = true /\ forall a, In a ds -> dir (snd r) a = true).
Proof.
  induction ds as [|d ds IH]; intros w; cbn [fold_right].
  - destruct (make_dir_cases true path w) as (A & B & C & D).
    split; [exact A|]. split; [exact B|]. split.
    + intros q Q. destruct (C q Q); auto.
    + intros F. split; [now apply D | intros a []].
  - unfold await. destruct (make_dir_cases false d w) as (A & B & C & D).
    destruct (make_dir false d w) as [[[]|e] w1]; cbn [fst snd] in *.
    + destruct (IH w1) as (A1 & B1 & C1 & D1).
      split; [now apply (only_dirs_trans _ w1)|].
      split; [auto|]. split.
      * intros q Q. destruct (C1 q Q) as [Q1 | [Q1 | Q1]].
        -- destruct (C q Q1); [now left | right; right; now left].
        -- right. now left.
        -- right. right. now right.
      * intros F. destruct (D1 F) as [P1 P2]. split; [exact P1|].
        intros a [<- | I]; [|now apply P2]. apply B1. now apply D.
    + split; [exact A|]. split; [exact B|]. split; [|discriminate].
      intros q Q. destruct (C q Q); [now left | right; right; now left].
Qed.

Lemma mkdirSync_cases path w :
  let r := mkdirSync path w in
  only_dirs w (snd r)
  /\ (forall q, dir w q = true -> dir (snd r) q = true)
  /\ (forall q, dir (snd r) q = true ->
        dir w q = true \/ q = path \/ In q (ancestors path))
  /\ (fst r = Fulfilled tt ->
      dir (snd r) path = true
      /\ forall a, In a (ancestors path) -> dir (snd r) a = true).
Proof. apply make_dirs_cases. Qed.

Lemma ensure_dir_cases d w :
  let r := ensure_dir d w in
  only_dirs w (snd r)
  /\ (forall q, dir w q = true -> dir (snd r) q = true)
  /\ (forall q, dir (snd r) q = true ->
        dir w q = true \/ q = d \/ In q (ancestors d))
  /\ (existsSync d w = true -> r = (Fulfilled tt, w))
  /\ (existsSync d w = false -> r = mkdirSync d w)
  /\ (fst r = Fulfilled tt -> existsSync d (snd r) = true)
  /\ (fst r = Fulfilled tt -> existsSync d w = false ->
      dir (snd r) d = true
      /\ forall a, In a (ancestors d) -> dir (snd r) a = true).
Proof.
  unfold ensure_dir. destruct (existsSync d w) eqn:X; cbn [ret fst snd].
  - split; [apply only_dirs_refl|]. split; [auto|]. split; [auto|].
    split; [reflexivity|]. split; [discriminate|]. split; [auto|].
    discriminate.
  - destruct (mkdirSync_cases d w) as (A & B & C & D).
    split; [exact A|]. split; [exact B|]. split; [exact C|].
    split; [discriminate|]. split; [reflexivity|]. split.
    + intros F. unfold existsSync. destruct (D F) as [P _]. now rewrite P.
    + intros F _. now apply D.
Qed.

(** ** The plain copies *)

Lemma copy_then_log src dest line w :
  (copyFile src dest ;;; console_log line) w
  = match file w src with
    | None => (Rejected (ENOENT src), w)
    | Some data =>
        if denied w dest then (Rejected (EACCES dest), w)
        else (Fulfilled tt, with_event (Log line) (with_file dest data w))
    end.
Proof.
  unfold await, copyFile, await, readFile, writeFile, console_log.
  destruct (file w src); [|reflexivity]. now destruct (denied w dest).
Qed.

Lemma copy_then_log_cases src dest line w :
  let r := (copyFile src dest ;;; console_log line) w in
  dir (snd r) = dir w
  /\ (forall p, file w p <> None -> file (snd r) p <> None)
  /\ (forall err, fst r = Rejected err -> snd r = w)
  /\ (file w src = None -> fst r = Rejected (ENOENT src))
  /\ (fst r = Fulfilled tt ->
      exists data,
        file w src = Some data
        /\ file (snd r) dest = Some data
        /\ console (snd r) = (console w ++ [Log line])%list).
Proof.
  cbv zeta. rewrite copy_then_log.
  destruct (file w src) as [data|] eqn:F.
  - destruct (denied w dest); cbn [fst snd].
    + repeat split; auto; discriminate.
    + split; [reflexivity|]. split.
      * intros p P. simpl. now destruct (p =? dest)%string.
      * split; [discriminate|]. split; [discriminate|].
        intros _. exists data. simpl. rewrite String.eqb_refl. auto.
  - cbn [fst snd]. repeat split; auto; discriminate.
Qed.

Section CopyFacts.

Variable path_join : string -> string -> string.
Variable RES_FILES_BASE_DIR : string.
Variable dataBaseDir : string.
Variable Data : Type.
Variable Parser_parse : list byte -> Data + string.
Variable JSON_stringify : Data -> list byte + string.

Let routine := materialize path_join RES_FILES_BASE_DIR dataBaseDir Data
                 Parser_parse JSON_stringify.
Let dests := destinations path_join dataBaseDir.
Let source (e : ManifestEntry) := path_join RES_FILES_BASE_DIR (sourceRelativePath e).

Lemma defaultCopyFile_eval filename filetype src respath w :
  let d := path_join (destRawDir path_join dataBaseDir) respath in
  let dest := path_join d (filename ++ "." ++ filetype) in
  defaultCopyFile path_join dataBaseDir filename filetype src respath w
  = match ensure_dir d w with
    | (Fulfilled _, w1) =>
        (copyFile src dest ;;;
         console_log ("Copied " ++ src ++ " to " ++ dest)) w1
    | (Rejected err, w1) => (Rejected err, w1)
    end.
Proof. reflexivity. Qed.

(** X13. A plain copy prints its line only when the copy is made: when the
    routine of a schema, binary-format or other entry ends in an error it
    has printed nothing; when the source file is missing it does end in an
    error, and no file has changed; when it completes, its one destination
    holds the bytes of the source and the one line it printed reports the
    copy. *)
Theorem plain_copy_reports_what_it_copied
    (c : AssetCategory) (e : ManifestEntry) (w : world) :
  c <> static -> c <> serializedBlob ->
  let r := routine c e w in
  (forall err, fst r = Rejected err -> console (snd r) = console w)
  /\ (file w (source e) = None ->
      (exists err, fst r = Rejected err)
      /\ forall p, file (snd r) p = file w p)
  /\ (fst r = Fulfilled tt ->
      exists data dest,
        dests c e = [dest]
        /\ file w (source e) = Some data
        /\ file (snd r) dest = Some data
        /\ console (snd r)
           = (console w ++ [Log ("Copied " ++ source e ++ " to " ++ dest)])%list).
Proof.
  intros N1 N2 r.
  assert (P : forall dest w0 (r0 : settled unit * world),
            only_dirs w w0 ->
            r0 = (copyFile (source e) dest ;;;
                  console_log ("Copied " ++ source e ++ " to " ++ dest)) w0 ->
            (forall err, fst r0 = Rejected err -> console (snd r0) = console w)
            /\ (file w (source e) = None ->
                (exists err, fst r0 = Rejected err)
                /\ forall p, file (snd r0) p = file w p)
            /\ (fst r0 = Fulfilled tt ->
                exists data,
                  file w (source e) = Some data
                  /\ file (snd r0) dest = Some data
                  /\ console (snd r0)
                     = (console w
                        ++ [Log ("Copied " ++ source e ++ " to " ++ dest)])%list)).
  { intros dest w0 r0 (O1 & _ & O3 & _) ->.
    destruct (copy_then_log_cases (source e) dest
                ("Copied " ++ source e ++ " to " ++ dest) w0)
      as (_ & _ & A & B & C).
    cbv zeta in A, B, C. rewrite O1, O3 in *.
    split; [|split].
    - intros err H. now rewrite (A err H).
    - intros F. specialize (B F). split; [eauto|].
      intros p. now rewrite (A _ B), O1.
    - exact C. }
  destruct c as [| | | |raw]; try congruence.
  - destruct (P _ w r (only_dirs_refl w) eq_refl) as (A & B & C).
    split; [exact A|]. split; [exact B|].
    intros F. destruct (C F) as (data & C1 & C2 & C3).
    exists data. eexists. split; [reflexivity|]. auto.
  - destruct (P _ w r (only_dirs_refl w) eq_refl) as (A & B & C).
    split; [exact A|]. split; [exact B|].
    intros F. destruct (C F) as (data & C1 & C2 & C3).
    exists data. eexists. split; [reflexivity|]. auto.
  - unfold r, routine, materialize. rewrite defaultCopyFile_eval. cbv zeta.
    fold (source e).
    set (d := path_join (destRawDir path_join dataBaseDir)
                (replace_first "res:" "" (respath e))).
    set (dest := path_join d (filename e ++ "." ++ raw)).
    destruct (ensure_dir_cases d w) as (O & _).
    destruct (ensure_dir d w) as [[[]|err] w1]; cbn [fst snd] in O.
    + destruct (P dest w1 _ O eq_refl) as (A & B & C).
      split; [exact A|]. split; [exact B|].
      intros F. destruct (C F) as (data & C1 & C2 & C3).
      exists data, dest. auto.
    + destruct O as (O1 & _ & O3 & _). cbn [fst snd].
      split; [intros _ _; exact O3|]. split; [|discriminate].
      intros _. split; [eauto|]. intros p. now rewrite O1.
Qed.

(** X14. The tree under [raw] is made on demand: the routine of an other
    entry makes the directory [raw/<respath>] of the entry, with the
    ancestors it lacks, only when nothing is there under that name.  It
    leaves the directories as they are when something is; it ends in the
    error of the [mkdir], with no file changed and nothing printed, when
    the directory cannot be made; it never removes a directory and makes
    none but that one and its ancestors; and whenever it completes,
    something exists under the name of the directory, the directory itself
    and its ancestors when nothing did. *)
Theorem raw_directory_is_made_on_demand
    (filename filetype src respath : string) (w : world) :
  let d := path_join (destRawDir path_join dataBaseDir) respath in
  let r := defaultCopyFile path_join dataBaseDir filename filetype src respath w in
  (existsSync d w = true -> forall q, dir (snd r) q = dir w q)
  /\ (existsSync d w = false ->
      forall err, fst (mkdirSync d w) = Rejected err ->
                  fst r = Rejected err /\ only_dirs w (snd r))
  /\ (forall q, dir w q = true -> dir (snd r) q = true)
  /\ (forall q, dir (snd r) q = true ->
        dir w q = true \/ q = d \/ In q (ancestors d))
  /\ (fst r = Fulfilled tt ->
      existsSync d (snd r) = true
      /\ (existsSync d w = false ->
          dir (snd r) d = true
          /\ forall a, In a (ancestors d) -> dir (snd r) a = true)).
Proof.
  intros d r. unfold r. rewrite defaultCopyFile_eval. cbv zeta. fold d.
  set (dest := path_join d (filename ++ "." ++ filetype)).
  set (line := "Copied " ++ src ++ " to " ++ dest).
  destruct (ensure_dir_cases d w) as (O & M & L & E1 & E2 & X1 & X2).
  destruct (ensure_dir d w) as [[[]|err] w1] eqn:E; cbn [fst snd] in *.
  - destruct (copy_then_log_cases src dest line w1) as (D & S & _).
    cbv zeta in D, S.
    split; [|split; [|split; [|split]]].
    + intros X q. specialize (E1 X). inversion E1; subst w1. now rewrite D.
    + intros X err H. rewrite <- (E2 X) in H. discriminate H.
    + intros q Q. rewrite D. auto.
    + intros q Q. rewrite D in Q. auto.
    + intros F. split.
      * specialize (X1 eq_refl). unfold existsSync in X1 |- *. rewrite D.
        apply orb_true_iff in X1. apply orb_true_iff.
        destruct X1 as [X1 | X1]; [now left | right].
        assert (N : file w1 d <> None)
          by (destruct (file w1 d); [discriminate | discriminate X1]).
        apply S in N.
        match goal with
        | |- match ?t with _ => _ end = _ => destruct t
        end; [reflexivity | now contradiction N].
      * intros X. rewrite D. now apply X2.
  - split; [|split; [|split; [|split]]].
    + intros X. specialize (E1 X). discriminate E1.
    + intros X e0 H. rewrite <- (E2 X) in H. cbn [fst] in H.
      split; [exact H | exact O].
    + exact M.
    + exact L.
    + discriminate.
Qed.

End CopyFacts.

Lemma plain_copy_reports_what_it_copied_sample :
  let e := mkEntry "res:/staticdata/" "types" "schema" "ef/gh" in
  let r := materialize sample_join "ResFiles" "data" (list byte) sample_parse
             sample_stringify schema e sample_world in
  file (snd r) "data/schema/types.schema" = Some [x01].
Proof.
  intros e r.
  destruct (plain_copy_reports_what_it_copied sample_join "ResFiles" "data"
              (list byte) sample_parse sample_stringify schema e sample_world)
    as (_ & _ & B); try discriminate.
  destruct (B eq_refl) as (data & dest & D & S & F & _).
  inversion D; subst dest. inversion S; subst data. exact F.
Defined.

Lemma raw_directory_is_made_on_demand_sample :
  let r := defaultCopyFile sample_join "data" "icon" "png" "ResFiles/ef/gh"
             "ui/icons" sample_world in
  dir (snd r) "data/raw/ui/icons" = true
  /\ dir (snd r) "data/raw/ui" = true
  /\ dir (snd r) "data" = true.
Proof.
  intros r.
  destruct (raw_directory_is_made_on_demand sample_join "data" "icon" "png"
              "ResFiles/ef/gh" "ui/icons" sample_world) as (_ & _ & _ & _ & A).
  destruct (A eq_refl) as (_ & B). destruct (B eq_refl) as (B1 & B2).
  split; [exact B1|]. split; apply B2; simpl; tauto.
Defined.

(** ** The scheme of the respath *)

Lemma prefix_strip p s :
  String.prefix p s = true <-> exists r, Labels.strip_prefix p s = Some r.
Proof.
  revert s. induction p as [|a p IH]; intros s; destruct s as [|b s]; simpl.
  - split; eauto.
  - split; eauto.
  - split; [discriminate | intros [r H]; discriminate].
  - destruct (ascii_dec a b) as [->|N].
    + rewrite Ascii.eqb_refl. apply IH.
    + apply Ascii.eqb_neq in N. rewrite N.
      split; [discriminate | intros [r H]; discriminate].
Qed.

Lemma strip_prefix_self p s : Labels.strip_prefix p (p ++ s) = Some s.
Proof.
  induction p as [|a p IH]; simpl; [now destruct s|].
  now rewrite Ascii.eqb_refl.
Qed.

Lemma replace_from_unfold pattern by_ before s :
  replace_from pattern by_ before s
  = match Labels.strip_prefix pattern s with
    | Some rest => before ++ substitution pattern before rest by_ ++ rest
    | None =>
        match s with
        | String c r =>
            replace_from pattern by_ (before ++ String c EmptyString) r
        | EmptyString => before
        end
    end.
Proof. now destruct s. Qed.

Lemma replace_from_absent pattern by_ s :
  forall acc, includes pattern s = false ->
              replace_from pattern by_ acc s = acc ++ s.
Proof.
  induction s as [|c s IH]; intros acc H; rewrite replace_from_unfold;
    cbn [includes] in H; apply orb_false_iff in H; destruct H as [P I].
  - destruct (Labels.strip_prefix pattern EmptyString) as [r|] eqn:S.
    + assert (P' : String.prefix pattern EmptyString = true)
        by (apply prefix_strip; eauto).
      rewrite P' in P. discriminate.
    + now rewrite app_empty_r.
  - destruct (Labels.strip_prefix pattern (String c s)) as [r|] eqn:S.
    + assert (P' : String.prefix pattern (String c s) = true)
        by (apply prefix_strip; eauto).
      rewrite P' in P. discriminate.
    + rewrite (IH _ I), app_assoc. reflexivity.
Qed.

Lemma replace_from_first pattern by_ before :
  forall acc s rest,
    s = before ++ pattern ++ rest ->
    (forall before' rest',
       s = before' ++ pattern ++ rest' ->
       (String.length before <= String.length before')%nat) ->
    replace_from pattern by_ acc s
    = (acc ++ before)
      ++ substitution pattern (acc ++ before) rest by_ ++ rest.
Proof.
  induction before as [|c before IH]; intros acc s rest E M;
    rewrite replace_from_unfold.
  - simpl in E. subst s. rewrite strip_prefix_self, app_empty_r. reflexivity.
  - simpl in E. subst s.
    destruct (Labels.strip_prefix pattern (String c (before ++ pattern ++ rest)))
      as [r|] eqn:S.
    + apply LabelFacts.strip_prefix_app in S.
      specialize (M EmptyString r S). simpl in M. lia.
    + rewrite (IH _ _ rest eq_refl).
      * rewrite !app_assoc. reflexivity.
      * intros b' r' E'.
        assert (L : (String.length (String c before)
                     <= String.length (String c b'))%nat)
          by (apply (M (String c b') r'); simpl; now rewrite E').
        simpl in L. lia.
Qed.

Lemma substitution_plain matched before after by_ :
  lacks "$" by_ = true -> substitution matched before after by_ = by_.
Proof.
  induction by_ as [|c r IH]; [reflexivity|].
  unfold lacks in *. cbn [all_chars]. intros H.
  apply andb_true_iff in H. destruct H as [C H]. specialize (IH H).
  unfold char_is in C. apply negb_true_iff in C.
  cbn [substitution].
  destruct c as [[] [] [] [] [] [] [] []]; try discriminate C;
    destruct r; rewrite ?IH; reflexivity.
Qed.

(** X15. [replace] with a string pattern changes the first occurrence of
    the pattern and nothing else.  A text without the pattern comes back
    whole; otherwise what stands before the leftmost occurrence and what
    follows it are kept around the replacement text, in which the dollar
    patterns are expanded and which is itself when it has no dollar.  So
    a respath that starts with the scheme loses it once, whatever follows,
    and a respath without the scheme names the directory whole. *)
Theorem scheme_is_removed_once (pattern by_ s : string) :
  (includes pattern s = false -> replace_first pattern by_ s = s)
  /\ (forall before rest,
        s = before ++ pattern ++ rest ->
        (forall before' rest',
           s = before' ++ pattern ++ rest' ->
           (String.length before <= String.length before')%nat) ->
        replace_first pattern by_ s
        = before ++ substitution pattern before rest by_ ++ rest
        /\ (lacks "$" by_ = true ->
            replace_first pattern by_ s = before ++ by_ ++ rest))
  /\ replace_first "res:" "" ("res:" ++ s) = s.
Proof.
  split; [|split].
  - intros H. unfold replace_first. now rewrite replace_from_absent.
  - intros before rest E M.
    assert (R : replace_first pattern by_ s
                = before ++ substitution pattern before rest by_ ++ rest)
      by (unfold replace_first;
          now rewrite (replace_from_first pattern by_ before "" s rest E M)).
    split; [exact R|]. intros D. now rewrite R, substitution_plain.
  - unfold replace_first. rewrite replace_from_unfold.
    now rewrite (strip_prefix_self "res:" s).
Qed.

Lemma scheme_is_removed_once_sample :
  replace_first "res:" "" "app:/bin/" = "app:/bin/"
  /\ replace_first "res:" "" "/a/res:/b/res:/c" = "/a//b/res:/c"
  /\ replace_first "res:" "[$&$$]" "/a/res:/b" = "/a/[res:$]/b".
Proof.
  destruct (scheme_is_removed_once "res:" "" "app:/bin/") as (A & _).
  destruct (scheme_is_removed_once "res:" "" "/a/res:/b/res:/c") as (_ & B & _).
  destruct (scheme_is_removed_once "res:" "[$&$$]" "/a/res:/b") as (_ & C & _).
  split; [apply A; reflexivity|]. split.
  - apply (B "/a/" "/b/res:/c" eq_refl); [|reflexivity].
    intros b r E.
    destruct b as [|c1 [|c2 [|c3 b]]]; [discriminate E.. | simpl; lia].
  - apply (C "/a/" "/b" eq_refl).
    intros b r E.
    destruct b as [|c1 [|c2 [|c3 b]]]; [discriminate E.. | simpl; lia].
Defined.

(** ** The counters and the summary *)

Lemma announce_counts line w :
  fst (announce line w) = Fulfilled tt
  /\ processedCount (snd (announce line w))
     = processedCount w + (if is_entry line then 1 else 0)
  /\ pickleCount (snd (announce line w))
     = pickleCount w + (if is_pickle_entry line then 1 else 0).
Proof.
  unfold announce, is_entry, is_pickle_entry.
  destruct (match_line line) as [e|]; [|simpl; repeat split; lia].
  unfold await. destruct (count_entry_counts w) as [C1 C2].
  pose proof (file_like_count_entry pickleCount file_like_pickle w) as P.
  destruct (count_entry w) as [[[]|err] w1]; cbn [fst snd] in *;
    [|discriminate].
  destruct (filetype e =? "pickle")%string.
  - unfold count_pickle, console_log. cbn [fst snd]. simpl.
    repeat split; lia.
  - simpl. repeat split; lia.
Qed.

Lemma tally_bounds lines :
  0 <= tally is_pickle_entry lines <= tally is_entry lines
  /\ tally is_entry lines <= Z.of_nat (List.length lines).
Proof.
  unfold tally. induction lines as [|line rest IH]; simpl; [lia|].
  unfold is_entry, is_pickle_entry in *.
  destruct (match_line line) as [e|]; [|lia].
  destruct (filetype e =? "pickle")%string; simpl; lia.
Qed.

Section StreamFacts.

Variable path_join : string -> string -> string.
Variable RES_FILES_BASE_DIR : string.
Variable dataBaseDir : string.
Variable Data : Type.
Variable Parser_parse : list byte -> Data + string.
Variable JSON_stringify : Data -> list byte + string.

Let handler := on_line path_join RES_FILES_BASE_DIR dataBaseDir Data
                 Parser_parse JSON_stringify.
Let routine_of := awaited path_join RES_FILES_BASE_DIR dataBaseDir Data
                    Parser_parse JSON_stringify.
Let close := on_close path_join dataBaseDir.

Ltac frame F :=
  repeat first
    [ apply preserves_await; [|intros ?]
    | apply preserves_try_catch; [|intros ?]
    | apply preserves_ret
    | apply preserves_throw
    | apply preserves_readFile
    | apply (file_like_log _ _ F)
    | apply (file_like_error _ _ _ F)
    | apply (file_like_ensure _ _ F)
    | apply (file_like_mkdir _ _ F)
    | apply pickle_writeFile
    | apply preserves_if
    | match goal with
      | |- preserves _ (match ?x with _ => _ end) => destruct x
      end ].

Lemma handler_announces line w :
  handler line w = (announce line ;;; routine_of line) w.
Proof.
  unfold handler, on_line, announce, routine_of, awaited.
  destruct (match_line line) as [[rp fn ft src]|]; [|reflexivity].
  cbn [filetype filename]. unfold await at 1 3 4.
  destruct (count_entry_counts w) as [C _].
  destruct (count_entry w) as [[[]|err] w1]; cbn [fst] in C; [|discriminate].
  destruct (ft =? "static")%string eqn:E1.
  { apply String.eqb_eq in E1. subst ft. reflexivity. }
  destruct (ft =? "schema")%string eqn:E2.
  { apply String.eqb_eq in E2. subst ft. reflexivity. }
  destruct (ft =? "fsdbinary")%string eqn:E3.
  { apply String.eqb_eq in E3. subst ft. reflexivity. }
  destruct (ft =? "pickle")%string; reflexivity.
Qed.

Lemma keeps_ensure path :
  keeps_count (fun w => if existsSync path w then ret tt w else mkdirSync path w).
Proof.
  intros w. destruct (existsSync path w); [reflexivity|]. apply keeps_mkdirSync.
Qed.

Ltac counted :=
  repeat first
    [ apply keeps_await; [|intros ?]
    | apply keeps_try_catch; [|intros ?]
    | apply keeps_ret
    | apply keeps_throw
    | apply keeps_console_log
    | apply keeps_console_error
    | apply keeps_readFile
    | apply keeps_writeFile
    | apply keeps_ensure
    | match goal with
      | |- keeps_count (if ?b then _ else _) => destruct b
      | |- keeps_count (match ?x with _ => _ end) => destruct x
      end ].

Lemma routine_is_quiet line : quiet (routine_of line).
Proof.
  assert (Q : forall t : task unit,
            keeps_count t -> preserves pickleCount t -> quiet t).
  { intros t K P w. split; [apply K | apply P]. }
  pose proof file_like_pickle as F.
  unfold routine_of, awaited.
  destruct (match_line line) as [[rp fn ft src]|];
    [|intros w; split; reflexivity].
  destruct (ft =? "static")%string.
  { apply Q; unfold processStaticFile, isValidSQLite, copyFile;
      [counted | frame F]. }
  destruct (ft =? "schema")%string.
  { apply Q; unfold processSchemaFile, copyFile; [counted | frame F]. }
  destruct (ft =? "fsdbinary")%string.
  { apply Q; unfold processFsdBinaryFile, copyFile; [counted | frame F]. }
  destruct (ft =? "pickle")%string.
  { apply Q; unfold processPickleFile, convertPickleToJson, copyFile;
      [counted | frame F]. }
  apply Q; unfold defaultCopyFile, copyFile; [counted | frame F].
Qed.

Lemma run_turns_counts turns :
  (forall t, In (Resumed t) turns -> quiet t) ->
  forall w,
    processedCount (run_turns turns w)
    = processedCount w + tally is_entry (lines_read turns)
    /\ pickleCount (run_turns turns w)
       = pickleCount w + tally is_pickle_entry (lines_read turns).
Proof.
  unfold tally.
  induction turns as [|[line|t] rest IH]; intros H w.
  - simpl. lia.
  - change (lines_read (LineRead line :: rest)) with (line :: lines_read rest).
    cbn [run_turns filter].
    destruct (announce_counts line w) as (_ & C1 & C2).
    destruct (IH (fun t I => H t (or_intror I)) (snd (announce line w)))
      as [I1 I2].
    rewrite I1, I2, C1, C2.
    destruct (is_entry line); destruct (is_pickle_entry line);
      cbn [List.length]; lia.
  - change (lines_read (Resumed t :: rest)) with (lines_read rest).
    cbn [run_turns].
    destruct (H t (or_introl eq_refl) w) as [Q1 Q2].
    destruct (IH (fun t I => H t (or_intror I)) (snd (t w))) as [I1 I2].
    rewrite I1, I2, Q1, Q2. split; reflexivity.
Qed.

(** X16. The counters count the lines read, whatever the order in which
    the handlers go on.  The handler of a line is what it does before it
    awaits, where an entry is counted and a pickle entry counted and
    announced, followed by the routine of the entry, and no routine changes
    a counter.  So after any sequence of lines read and of suspended work
    going on, as long as that work leaves the counters alone, the entry
    counter has grown by the number of the lines read that match the
    pattern and the pickle counter by the number of pickle entries among
    them, and the two totals that the end of the stream prints are these
    counts, whether or not the routines are done.  The counts are exact up
    to 2^53. *)
Theorem totals_count_the_lines_read (turns : list turn) (w : world) :
  (forall t, In (Resumed t) turns -> quiet t) ->
  Z.abs (processedCount w) + Z.of_nat (List.length (lines_read turns)) <= 2 ^ 53 ->
  Z.abs (pickleCount w) + Z.of_nat (List.length (lines_read turns)) <= 2 ^ 53 ->
  let w1 := run_turns turns w in
  let total := processedCount w + tally is_entry (lines_read turns) in
  let pickles := pickleCount w + tally is_pickle_entry (lines_read turns) in
  processedCount w1 = total
  /\ pickleCount w1 = pickles
  /\ (0 <= tally is_pickle_entry (lines_read turns)
      <= tally is_entry (lines_read turns))
  /\ tally is_entry (lines_read turns)
     <= Z.of_nat (List.length (lines_read turns))
  /\ close w1
     = (Fulfilled tt,
        fold_left (fun x line => with_event (Log line) x)
          [String "010" "Extraction complete!";
           "Total files processed: " ++ count total;
           "Pickle files found: " ++ count pickles;
           String "010" "Generated data directories:";
           "- JSON files: " ++ destJsonDir path_join dataBaseDir;
           "- SQLite files: " ++ destSqliteDir path_join dataBaseDir;
           "- Pickle files: " ++ destPickleDir path_join dataBaseDir]
          w1)
  /\ (forall line,
        quiet (routine_of line)
        /\ forall w0, handler line w0 = (announce line ;;; routine_of line) w0).
Proof.
  intros H _ _ w1 total pickles.
  destruct (run_turns_counts turns H w) as [C1 C2]. fold w1 in C1, C2.
  destruct (tally_bounds (lines_read turns)) as [B1 B2].
  split; [exact C1|]. split; [exact C2|]. split; [exact B1|].
  split; [exact B2|]. split.
  - unfold close, on_close, await, console_log. simpl.
    rewrite C1, C2. reflexivity.
  - intros line. split; [apply routine_is_quiet | apply handler_announces].
Qed.

End StreamFacts.

Lemma totals_count_the_lines_read_sample :
  let rest := awaited sample_join "ResFiles" "data" (list byte) sample_parse
                sample_stringify in
  let w1 := run_turns (sample_turns rest) sample_world in
  processedCount w1 = 2 /\ pickleCount w1 = 1
  /\ file w1 "data/schema/types.schema" = Some [x01]
  /\ file w1 "data/json/starmapcache.json" = Some [x02].
Proof.
  intros rest w1.
  assert (Q : forall t, In (Resumed t) (sample_turns rest) -> quiet t).
  { intros t [I | [I | [I | [I | [I | []]]]]]; try discriminate I;
      inversion I; subst t;
      destruct (totals_count_the_lines_read sample_join "ResFiles" "data"
                  (list byte) sample_parse sample_stringify [] sample_world)
        as (_ & _ & _ & _ & _ & R);
      try (intros ? []); try (simpl; lia); apply R. }
  destruct (totals_count_the_lines_read sample_join "ResFiles" "data"
              (list byte) sample_parse sample_stringify (sample_turns rest)
              sample_world Q) as (A & B & _); [simpl; lia.. |].
  split; [exact A|]. split; [exact B|]. split; reflexivity.
Defined.

(** ** The start of the script *)




Section StartFacts.

Variable path_join : string -> string -> string.
Variable dataBaseDir : string.



End StartFacts.


(** ** The sniffer *)

(** X18. The sniffer is a predicate: it never rejects and never changes a
    file; on a file that cannot be read it prints the error and answers
    false; on a file of fewer than sixteen bytes it answers false. *)
Theorem sniffer_never_fails (filePath : string) (w : world) :
  exists verdict,
    fst (isValidSQLite filePath w) = Fulfilled verdict
    /\ file (snd (isValidSQLite filePath w)) = file w
    /\ (file w filePath = None ->
        verdict = false
        /\ console (snd (isValidSQLite filePath w))
           = (console w
              ++ [LogError ("Error checking SQLite validity for "
                              ++ filePath ++ ":") (ENOENT filePath)])%list)
    /\ (forall data,
          file w filePath = Some data ->
          snd (isValidSQLite filePath w) = w
          /\ ((List.length data < 16)%nat -> verdict = false)).
Proof.
  destruct (file w filePath) as [data|] eqn:F.
  - rewrite (isValidSQLite_on_file _ _ _ F). exists (header_matches data).
    split; [reflexivity|]. split; [reflexivity|]. split; [discriminate|].
    intros d E. inversion E; subst d. split; [reflexivity|].
    apply header_short.
  - rewrite (isValidSQLite_read_error _ _ F). exists false.
    split; [reflexivity|]. split; [reflexivity|].
    split; [intros _; split; reflexivity | discriminate].
Qed.

Lemma sniffer_never_fails_sample :
  exists verdict,
    fst (isValidSQLite "static/absent.static" empty_world) = Fulfilled verdict
    /\ verdict = false.
Proof.
  destruct (sniffer_never_fails "static/absent.static" empty_world)
    as (v & E & _ & M & _).
  exists v. split; [exact E|]. apply M. reflexivity.
Defined.

Lemma firstn_firstn_app {A} n (l t : list A) :
  (n <= List.length l)%nat -> firstn n (firstn n l ++ t) = firstn n l.
Proof.
  intros L. rewrite firstn_app, firstn_firstn, Nat.min_id.
  rewrite length_firstn, Nat.min_l by assumption.
  rewrite Nat.sub_diag. simpl. apply app_nil_r.
Qed.

(** X19. The verdict of the sniffer depends on the first sixteen bytes
    alone, and on them only through their low seven bits: a file of at
    least sixteen bytes is accepted exactly when these bytes agree with the
    signature once the highest bit of each is cleared, whatever follows
    them; so every file that starts with the signature is accepted. *)
Theorem sniffer_reads_sixteen_bytes (data tail : list byte) :
  (header_matches data = true <->
   (16 <= List.length data)%nat
   /\ map clear_high_bit (firstn 16 data) = map clear_high_bit signature)
  /\ ((16 <= List.length data)%nat ->
      header_matches (firstn 16 data ++ tail) = header_matches data)
  /\ header_matches (signature ++ tail) = true.
Proof.
  split; [apply header_matches_exact|]. split.
  - intros L.
    assert (E : firstn 16 (firstn 16 data ++ tail) = firstn 16 data)
      by now apply firstn_firstn_app.
    assert (L' : (16 <= List.length (firstn 16 data ++ tail))%nat)
      by (rewrite List.length_app, length_firstn; lia).
    unfold header_matches, subarray_16. rewrite E.
    apply Nat.ltb_ge in L, L'. now rewrite L, L'.
  - apply header_signature. reflexivity.
Qed.

Lemma sniffer_reads_sixteen_bytes_sample :
  header_matches (firstn 16 forged ++ [x00; x01]) = header_matches forged.
Proof.
  destruct (sniffer_reads_sixteen_bytes forged [x00; x01]) as (_ & A & _).
  apply A. simpl. lia.
Defined.

(** ** The decoder and the pickle routine *)

Lemma prefix_app_l a b s :
  String.prefix (a ++ b) s = true -> String.prefix a s = true.
Proof.
  revert s. induction a as [|x a IH]; intros s; destruct s as [|y s]; simpl;
    try reflexivity; try discriminate.
  destruct (ascii_dec x y); [apply IH | discriminate].
Qed.

Lemma includes_app_l a b s : includes (a ++ b) s = true -> includes a s = true.
Proof.
  induction s as [|c s IH]; cbn [includes]; intros H.
  - rewrite orb_false_r in *. now apply (prefix_app_l a b).
  - apply orb_true_iff in H. apply orb_true_iff.
    destruct H as [H | H]; [left; now apply (prefix_app_l a b) | right; auto].
Qed.

Lemma starmap_test filename :
  includes "starmapcache" filename || includes "starmap" filename
  = includes "starmap" filename.
Proof.
  destruct (includes "starmapcache" filename) eqn:E; [|reflexivity].
  now rewrite (includes_app_l "starmap" "cache" _ E).
Qed.

Section PickleFacts.

Variable path_join : string -> string -> string.
Variable dataBaseDir : string.
Variable Data : Type.
Variable Parser_parse : list byte -> Data + string.
Variable JSON_stringify : Data -> list byte + string.

Let convert := convertPickleToJson Data Parser_parse JSON_stringify.
Let pickle_routine :=
  processPickleFile path_join dataBaseDir Data Parser_parse JSON_stringify.
Let pickle_dest (filename : string) : string :=
  path_join (destPickleDir path_join dataBaseDir) (filename ++ ".pickle").
Let json_dest (filename : string) : string :=
  path_join (destJsonDir path_join dataBaseDir) (filename ++ ".json").

(** X20. The decoder reports every failure once and passes it on.  When it
    ends in an error it has printed that error under the name of the blob,
    rejects with the same error and has changed no file but, at most, its
    JSON destination.  A blob that cannot be read, does not decode or
    cannot be serialized fails before anything is written, so that no file
    at all has changed.  When the decoder completes, the blob was read,
    decoded and serialized, the JSON destination holds the text, no other
    file has changed and one line reports the conversion. *)
Theorem decoder_reports_and_rethrows
    (pickleFilePath jsonFilePath : string) (w : world) :
  let r := convert pickleFilePath jsonFilePath w in
  let report err :=
    LogError ("Error converting " ++ pickleFilePath ++ " to JSON:") err in
  (forall err,
     fst r = Rejected err ->
     console (snd r) = (console w ++ [report err])%list
     /\ (forall p, p <> jsonFilePath -> file (snd r) p = file w p))
  /\ (file w pickleFilePath = None ->
      r = (Rejected (ENOENT pickleFilePath),
           with_event (report (ENOENT pickleFilePath)) w))
  /\ (forall data message,
        file w pickleFilePath = Some data ->
        Parser_parse data = inr message ->
        r = (Rejected (DecodeError message),
             with_event (report (DecodeError message)) w))
  /\ (forall data v message,
        file w pickleFilePath = Some data ->
        Parser_parse data = inl v ->
        JSON_stringify v = inr message ->
        r = (Rejected (TypeError message),
             with_event (report (TypeError message)) w))
  /\ (fst r = Fulfilled tt ->
      exists data v json,
        file w pickleFilePath = Some data
        /\ Parser_parse data = inl v
        /\ JSON_stringify v = inl json
        /\ file (snd r) jsonFilePath = Some json
        /\ (forall p, p <> jsonFilePath -> file (snd r) p = file w p)
        /\ console (snd r)
           = (console w
              ++ [Log ("Converted " ++ pickleFilePath ++ " to "
                         ++ jsonFilePath)])%list).
Proof.
  intros r report. unfold r, report, convert, convertPickleToJson, try_catch,
    await, readFile, writeFile, throw, console_error, console_log.
  destruct (file w pickleFilePath) as [data|] eqn:F.
  - destruct (Parser_parse data) as [v|m] eqn:P.
    + destruct (JSON_stringify v) as [json|m] eqn:J.
      * destruct (denied w jsonFilePath) eqn:D; cbn [fst snd].
        -- split; [|split; [discriminate|split; [|split; [|discriminate]]]].
           ++ intros err H. inversion H; subst. split; reflexivity.
           ++ intros d m E. inversion E; subst d. congruence.
           ++ intros d v0 m E. inversion E; subst d. congruence.
        -- split; [discriminate|]. split; [discriminate|].
           split; [intros d m E; inversion E; subst d; congruence|].
           split; [intros d v0 m E; inversion E; subst d; congruence|].
           intros _. exists data, v, json. simpl. rewrite String.eqb_refl.
           repeat split; auto.
           intros p N. apply String.eqb_neq in N. now rewrite N.
      * cbn [fst snd]. split; [|split; [discriminate|split; [|split]]].
        -- intros err H. inversion H; subst. split; reflexivity.
        -- intros d m0 E. inversion E; subst d. congruence.
        -- intros d v0 m0 E P0 J0. inversion E; subst d.
           rewrite P in P0. inversion P0; subst v0.
           rewrite J in J0. inversion J0; subst m0. reflexivity.
        -- discriminate.
    + cbn [fst snd]. split; [|split; [discriminate|split; [|split]]].
      * intros err H. inversion H; subst. split; reflexivity.
      * intros d m0 E P0. inversion E; subst d.
        rewrite P in P0. inversion P0; subst m0. reflexivity.
      * intros d v0 m0 E. inversion E; subst d. congruence.
      * discriminate.
  - cbn [fst snd]. split; [|split; [|split; [|split]]]; try discriminate.
    + intros err H. inversion H; subst. split; reflexivity.
    + reflexivity.
Qed.

(** X21. A pickle entry that fails before the conversion writes leaves the
    JSON destination as it was.  When the source is missing, or when the
    destination of the copy cannot be opened for writing, the routine
    completes with the state as it was but for the one line it prints,
    which names the entry and the error; when the copy is made but the
    blob does not decode, the routine completes, the copy stays in the
    pickle directory and the JSON destination keeps what it held. *)
Theorem failed_pickle_entry_leaves_no_json
    (filename sourceFilePath : string) (w : world) :
  let r := pickle_routine filename sourceFilePath w in
  (file w sourceFilePath = None ->
   r = (Fulfilled tt,
        with_event
          (LogError ("Error processing pickle file " ++ filename ++ ":")
                    (ENOENT sourceFilePath)) w))
  /\ (forall data,
        file w sourceFilePath = Some data ->
        denied w (pickle_dest filename) = true ->
        r = (Fulfilled tt,
             with_event
               (LogError ("Error processing pickle file " ++ filename ++ ":")
                         (EACCES (pickle_dest filename))) w))
  /\ (forall data message,
        file w sourceFilePath = Some data ->
        denied w (pickle_dest filename) = false ->
        Parser_parse data = inr message ->
        fst r = Fulfilled tt
        /\ file (snd r) (pickle_dest filename) = Some data
        /\ (json_dest filename <> pickle_dest filename ->
            file (snd r) (json_dest filename) = file w (json_dest filename))).
Proof.
  intros r. split; [|split].
  - intros F. unfold r, pickle_routine, processPickleFile, try_catch.
    now rewrite (await_rejected _ _ w _ w (copyFile_missing _ _ _ F)).
  - intros data F D. unfold r, pickle_routine, processPickleFile, try_catch.
    fold (pickle_dest filename).
    now rewrite (await_rejected _ _ w _ w (copyFile_denied _ _ _ _ F D)).
  - intros data message F D P.
    set (copied :=
           with_event
             (Log ("Copied " ++ sourceFilePath ++ " to " ++ pickle_dest filename))
             (with_file (pickle_dest filename) data w)).
    assert (FC : file copied (pickle_dest filename) = Some data)
      by apply file_with_file_same.
    pose proof (convert_decode_error Data Parser_parse JSON_stringify
                  _ (json_dest filename) _ _ copied FC P) as K.
    assert (R : r = (Fulfilled tt,
                     with_event
                       (LogError ("Error processing pickle file " ++ filename
                                    ++ ":") (DecodeError message))
                       (with_event
                          (LogError ("Error converting " ++ pickle_dest filename
                                       ++ " to JSON:") (DecodeError message))
                          copied))).
    { unfold r, pickle_routine, processPickleFile, try_catch.
      fold (pickle_dest filename) (json_dest filename).
      rewrite (await_fulfilled _ _ w tt _ (copyFile_ok _ _ _ _ F D)).
      rewrite (await_fulfilled _ _ _ tt copied) by reflexivity.
      rewrite (await_rejected _ _ _ _ _ K). reflexivity. }
    rewrite R. simpl. rewrite String.eqb_refl.
    split; [reflexivity|]. split; [reflexivity|].
    intros N. apply String.eqb_neq in N. now rewrite N.
Qed.


(** X22. The starmap line is one test on the file name, passed last.  A name
    that includes [starmapcache] includes [starmap], so the pickle routine
    is the routine with the second test alone.  The line is printed only
    when the name includes [starmap] and only after the copy and the
    conversion: when the routine adds the line to the console, the source
    was read, decoded and serialized and the JSON destination holds the
    text; and a run in which the copy and the conversion go through prints
    the line, after the lines of the copy and of the conversion, exactly
    when the name includes [starmap]. *)
Theorem starmap_marker_is_one_test
    (filename sourceFilePath : string) (w : world) :
  let r := pickle_routine filename sourceFilePath w in
  let star := Log ("⭐ Found starmap data: " ++ json_dest filename) in
  (includes "starmapcache" filename = true -> includes "starmap" filename = true)
  /\ r = try_catch
           (copyFile sourceFilePath (pickle_dest filename) ;;;
            console_log ("Copied " ++ sourceFilePath ++ " to "
                           ++ pickle_dest filename) ;;;
            convert (pickle_dest filename) (json_dest filename) ;;;
            if includes "starmap" filename
            then console_log ("⭐ Found starmap data: " ++ json_dest filename)
            else ret tt)
           (fun error =>
              console_error ("Error processing pickle file " ++ filename ++ ":")
                            error) w
  /\ (In star (console (snd r)) -> ~ In star (console w) ->
      includes "starmap" filename = true
      /\ exists data v json,
           file w sourceFilePath = Some data
           /\ Parser_parse data = inl v
           /\ JSON_stringify v = inl json
           /\ file (snd r) (json_dest filename) = Some json)
  /\ (forall data v json,
        file w sourceFilePath = Some data ->
        denied w (pickle_dest filename) = false ->
        Parser_parse data = inl v ->
        JSON_stringify v = inl json ->
        denied w (json_dest filename) = false ->
        console (snd r)
        = (console w
           ++ [Log ("Copied " ++ sourceFilePath ++ " to " ++ pickle_dest filename);
               Log ("Converted " ++ pickle_dest filename ++ " to "
                      ++ json_dest filename)]
           ++ (if includes "starmap" filename then [star] else []))%list).
Proof.
  intros r star.
  assert (E : r = try_catch
           (copyFile sourceFilePath (pickle_dest filename) ;;;
            console_log ("Copied " ++ sourceFilePath ++ " to "
                           ++ pickle_dest filename) ;;;
            convert (pickle_dest filename) (json_dest filename) ;;;
            if includes "starmap" filename
            then console_log ("⭐ Found starmap data: " ++ json_dest filename)
            else ret tt)
           (fun error =>
              console_error ("Error processing pickle file " ++ filename ++ ":")
                            error) w).
  { unfold r, pickle_routine, processPickleFile.
    now rewrite starmap_test. }
  split; [apply (includes_app_l "starmap" "cache")|]. split; [exact E|].
  set (proc := "Error processing pickle file " ++ filename ++ ":").
  set (conv := "Error converting " ++ pickle_dest filename ++ " to JSON:").
  set (copy_line := "Copied " ++ sourceFilePath ++ " to " ++ pickle_dest filename).
  set (conv_line := "Converted " ++ pickle_dest filename ++ " to "
                      ++ json_dest filename).
  assert (V : r
    = match file w sourceFilePath with
      | None =>
          (Fulfilled tt, with_event (LogError proc (ENOENT sourceFilePath)) w)
      | Some data =>
          if denied w (pickle_dest filename)
          then (Fulfilled tt,
                with_event (LogError proc (EACCES (pickle_dest filename))) w)
          else
            let copied :=
              with_event (Log copy_line)
                         (with_file (pickle_dest filename) data w) in
            let failed err :=
              (Fulfilled tt,
               with_event (LogError proc err)
                          (with_event (LogError conv err) copied)) in
            match Parser_parse data with
            | inr m => failed (DecodeError m)
            | inl v =>
                match JSON_stringify v with
                | inr m => failed (TypeError m)
                | inl json =>
                    if denied w (json_dest filename)
                    then failed (EACCES (json_dest filename))
                    else
                      let converted :=
                        with_event (Log conv_line)
                                   (with_file (json_dest filename) json copied) in
                      (Fulfilled tt,
                       if includes "starmap" filename
                       then with_event star converted else converted)
                end
            end
      end).
  { rewrite E. unfold try_catch, convert, convertPickleToJson, try_catch.
    unfold await, copyFile, await, readFile, writeFile, throw, console_error,
      console_log, ret.
    destruct (file w sourceFilePath) as [data|]; [|reflexivity].
    destruct (denied w (pickle_dest filename)); [reflexivity|].
    cbn [file with_event with_file denied]. rewrite String.eqb_refl.
    destruct (Parser_parse data) as [v|m]; [|reflexivity].
    destruct (JSON_stringify v) as [json|m]; [|reflexivity].
    cbn [file with_event with_file denied].
    destruct (denied w (json_dest filename)); [reflexivity|].
    destruct (includes "starmap" filename); reflexivity. }
  split.
  - intros I N. rewrite V in I. rewrite V. clear E V.
    destruct (file w sourceFilePath) as [data|].
    2:{ cbn [snd console with_event] in I. apply in_app_or in I.
        destruct I as [I | [I | []]]; [contradiction | discriminate I]. }
    destruct (denied w (pickle_dest filename)).
    { cbn [snd console with_event] in I. apply in_app_or in I.
      destruct I as [I | [I | []]]; [contradiction | discriminate I]. }
    cbv zeta in I.
    assert (K : forall err,
              ~ In star
                  (console
                     (with_event (LogError proc err)
                        (with_event (LogError conv err)
                           (with_event (Log copy_line)
                              (with_file (pickle_dest filename) data w)))))).
    { intros err K. cbn [console with_event with_file] in K.
      repeat (apply in_app_or in K; destruct K as [K | [K | []]]);
        try contradiction; discriminate K. }
    destruct (Parser_parse data) as [v|m] eqn:P; [|now apply K in I].
    destruct (JSON_stringify v) as [json|m] eqn:J; [|now apply K in I].
    destruct (denied w (json_dest filename)); [now apply K in I|].
    cbn [snd] in I |- *.
    destruct (includes "starmap" filename).
    + split; [reflexivity|]. exists data, v, json.
      split; [reflexivity|]. split; [exact P|]. split; [exact J|].
      cbn [file with_event with_file]. now rewrite String.eqb_refl.
    + exfalso. cbn [console with_event with_file] in I.
      repeat (apply in_app_or in I; destruct I as [I | [I | []]]);
        try contradiction; discriminate I.
  - intros data v json F D P J D'. rewrite V. rewrite F, D, P, J, D'.
    cbv zeta. cbn [snd].
    destruct (includes "starmap" filename);
      cbn [console with_event with_file]; rewrite <- ?List.app_assoc;
      reflexivity.
Qed.

End PickleFacts.

Lemma decoder_reports_and_rethrows_sample :
  let r := convertPickleToJson (list byte) sample_parse sample_stringify
             "data/pickle/a.pickle" "data/json/a.json"
             (with_file "data/pickle/a.pickle" [x01] empty_world) in
  console (snd r)
  = [LogError "Error converting data/pickle/a.pickle to JSON:"
              (DecodeError "Unsupported opcode")]
  /\ file (snd r) "data/pickle/a.pickle" = Some [x01].
Proof.
  intros r.
  destruct (decoder_reports_and_rethrows (list byte) sample_parse
              sample_stringify "data/pickle/a.pickle" "data/json/a.json"
              (with_file "data/pickle/a.pickle" [x01] empty_world)) as [A _].
  destruct (A (DecodeError "Unsupported opcode") eq_refl) as [E G].
  fold r in E, G. rewrite E. split; [reflexivity|].
  rewrite G; [reflexivity | discriminate].
Defined.

Lemma failed_pickle_entry_leaves_no_json_sample :
  let r := processPickleFile sample_join "data" (list byte) sample_parse
             sample_stringify "a" "ResFiles/ef/gh" sample_world in
  file (snd r) "data/pickle/a.pickle" = Some [x01]
  /\ file (snd r) "data/json/a.json" = None.
Proof.
  intros r.
  destruct (failed_pickle_entry_leaves_no_json sample_join "data" (list byte)
              sample_parse sample_stringify "a" "ResFiles/ef/gh" sample_world)
    as (_ & _ & A).
  destruct (A [x01] "Unsupported opcode" eq_refl eq_refl eq_refl)
    as (_ & B & C).
  split; [exact B|]. refine (C _). discriminate.
Defined.

Lemma starmap_marker_is_one_test_sample :
  let r := processPickleFile sample_join "data" (list byte) sample_parse
             sample_stringify "res_starmapcache_v2" "ResFiles/ab/cd"
             sample_world in
  includes "starmap" "res_starmapcache_v2" = true
  /\ console (snd r)
     = [Log "Copied ResFiles/ab/cd to data/pickle/res_starmapcache_v2.pickle";
        Log ("Converted data/pickle/res_starmapcache_v2.pickle to "
               ++ "data/json/res_starmapcache_v2.json");
        Log "⭐ Found starmap data: data/json/res_starmapcache_v2.json"].
Proof.
  intros r.
  destruct (starmap_marker_is_one_test sample_join "data" (list byte)
              sample_parse sample_stringify "res_starmapcache_v2"
              "ResFiles/ab/cd" sample_world) as (A & _ & _ & B).
  split; [apply A; reflexivity|].
  exact (B [x80; x02] [x02] [x02] eq_refl eq_refl eq_refl eq_refl eq_refl).
Defined.

End RouterCoverage.
